(** * Mindcraft agent core: goal tracker, spatial memory, scanner, navigator

    A shallow embedding of [src/agent/goal_system.js],
    [src/agent/enhanced_memory.js], [src/agent/enhanced_navigation.js], of
    the block categories and of the environment scanner, followed by the
    properties of the natural-language specification that were checked
    against it and by further properties of the code.

    Conventions of the embedding.
    - A JS object that is mutated in place is a record; a method of a class
      is a function from the state of [this] to its new state.
    - [Date.now()] is an explicit argument [now] of the methods that read
      the clock.
    - Counters, timestamps and goal progress are integers ([Z]);
      [Math.floor (a / b)] on such numbers is [Z.div].  The doubles of the
      source compute the same as long as the numbers are integers below
      2^53; the statements about the mean of the progress say in which
      range they hold.
    - Coordinates are exact rationals ([Q]) standing for JS doubles, so
      that [Math.floor] and the loop bounds computed from them are
      visible; [Math.sqrt] and what is computed from it are taken from the
      environment.  [Q] has no [NaN]: the statements about the samples of
      the progress are about runs in which the progress is a number.
    - An array is a [list]; an object used as a dictionary is a [gmap]
      with string keys.
    - A method that can throw returns a [result].
    - A call of the console is recorded with its arguments; what is
      printed for an error object is left to the runtime. *)

From Stdlib Require Import ZArith List Lia QArith Qround Qabs Qminmax Lqa.
From Equations Require Import Equations.
From stdpp Require Import base option list strings pretty gmap sorting.

Local Open Scope Z_scope.

(** ** Exceptions *)

Inductive JsError :=
| TypeError (msg : string)
| Error (msg : string).

Definition message (e : JsError) : string :=
  match e with TypeError m => m | Error m => m end.

Inductive result (A : Type) :=
| Ok (a : A)
| Throw (e : JsError).
Arguments Ok {A} a.
Arguments Throw {A} e.

Global Instance result_ret : MRet result := λ A a, Ok a.
Global Instance result_bind : MBind result := λ A B k r,
  match r with Ok a => k a | Throw e => Throw e end.

(** ** Goal tracker ([goal_system.js]) *)

Inductive Status := pending | active | completed | failed | needs_revision.

Global Instance Status_eq_dec : EqDecision Status.
Proof. solve_decision. Defined.

Record Attempt := { att_timestamp : Z; att_reason : string }.

Module Goal.
(** One shape for the main goal and for subgoals.  Fields that one of the
    two object literals does not set, or that are added later by
    assignment, are optional: [None] is JS [undefined]. *)
Record t := {
  id : string;
  description : string;
  status : Status;
  progress : Z;
  attempts : Z;
  prerequisites : option (list string);
  dependencies : option (list string);
  lastAttempt : option Attempt;
  context : option (gmap string string);
  startTime : option Z;
  created : option Z;
  lastUpdate : option Z;
  needsStrategyRevision : bool;
  completedAt : option Z;
  failedAt : option Z;
  failureReason : option string
}.

Definition set_progress (p : Z) (now : Z) (ctx : gmap string string) (g : t) : t :=
  {| id := id g; description := description g; status := status g;
     progress := p; attempts := attempts g;
     prerequisites := prerequisites g; dependencies := dependencies g;
     lastAttempt := lastAttempt g;
     (* {...goal.context, ...context}: the keys of [ctx] win *)
     context := Some (ctx ∪ default ∅ (context g));
     startTime := startTime g; created := created g;
     lastUpdate := Some now;
     needsStrategyRevision := needsStrategyRevision g;
     completedAt := completedAt g; failedAt := failedAt g;
     failureReason := failureReason g |}.

Definition set_main_progress (p : Z) (g : t) : t :=
  {| id := id g; description := description g; status := status g;
     progress := p; attempts := attempts g;
     prerequisites := prerequisites g; dependencies := dependencies g;
     lastAttempt := lastAttempt g; context := context g;
     startTime := startTime g; created := created g;
     lastUpdate := lastUpdate g;
     needsStrategyRevision := needsStrategyRevision g;
     completedAt := completedAt g; failedAt := failedAt g;
     failureReason := failureReason g |}.

Definition record_attempt (now : Z) (reason : string) (g : t) : t :=
  {| id := id g; description := description g; status := status g;
     progress := progress g; attempts := attempts g + 1;
     prerequisites := prerequisites g; dependencies := dependencies g;
     lastAttempt := Some {| att_timestamp := now; att_reason := reason |};
     context := context g;
     startTime := startTime g; created := created g;
     lastUpdate := lastUpdate g;
     needsStrategyRevision := needsStrategyRevision g;
     completedAt := completedAt g; failedAt := failedAt g;
     failureReason := failureReason g |}.

Definition mark_needs_revision (g : t) : t :=
  {| id := id g; description := description g; status := needs_revision;
     progress := progress g; attempts := attempts g;
     prerequisites := prerequisites g; dependencies := dependencies g;
     lastAttempt := lastAttempt g; context := context g;
     startTime := startTime g; created := created g;
     lastUpdate := lastUpdate g;
     needsStrategyRevision := true;
     completedAt := completedAt g; failedAt := failedAt g;
     failureReason := failureReason g |}.

Definition mark_completed (now : Z) (g : t) : t :=
  {| id := id g; description := description g; status := completed;
     progress := progress g; attempts := attempts g;
     prerequisites := prerequisites g; dependencies := dependencies g;
     lastAttempt := lastAttempt g; context := context g;
     startTime := startTime g; created := created g;
     lastUpdate := lastUpdate g;
     needsStrategyRevision := needsStrategyRevision g;
     completedAt := Some now; failedAt := failedAt g;
     failureReason := failureReason g |}.

Definition mark_failed (now : Z) (reason : string) (g : t) : t :=
  {| id := id g; description := description g; status := failed;
     progress := progress g; attempts := attempts g;
     prerequisites := prerequisites g; dependencies := dependencies g;
     lastAttempt := lastAttempt g; context := context g;
     startTime := startTime g; created := created g;
     lastUpdate := lastUpdate g;
     needsStrategyRevision := needsStrategyRevision g;
     completedAt := completedAt g; failedAt := Some now;
     failureReason := Some reason |}.
End Goal.

Record Adaptation := {
  goalId : string;
  timestamp : Z;
  previousAttempts : Z;
  reason : string
}.

Module GoalSystem.

Record t := {
  mainGoal : option Goal.t;
  subGoals : list Goal.t;
  completedGoals : list Goal.t;
  failedGoals : list Goal.t;
  strategyAdaptations : list Adaptation
}.

(** [constructor()] *)
Definition new : t :=
  {| mainGoal := None; subGoals := []; completedGoals := [];
     failedGoals := []; strategyAdaptations := [] |}.

(** [setMainGoal(goal, context)]: the new state and the returned id. *)
Definition setMainGoal (now : Z) (goal : string) (ctx : gmap string string)
    (gs : t) : t * string :=
  let mg := {| Goal.id := "goal_" +:+ pretty now;
               Goal.description := goal;
               Goal.status := active;
               Goal.progress := 0;
               Goal.attempts := 0;
               Goal.prerequisites := None;
               Goal.dependencies := None;
               Goal.lastAttempt := None;
               Goal.context := Some ctx;
               Goal.startTime := Some now;
               Goal.created := None;
               Goal.lastUpdate := Some now;
               Goal.needsStrategyRevision := false;
               Goal.completedAt := None;
               Goal.failedAt := None;
               Goal.failureReason := None |} in
  ({| mainGoal := Some mg; subGoals := subGoals gs;
      completedGoals := completedGoals gs; failedGoals := failedGoals gs;
      strategyAdaptations := strategyAdaptations gs |},
   Goal.id mg).

(** [addSubGoal(description, prerequisites, dependencies)] *)
Definition addSubGoal (now : Z) (description : string)
    (prerequisites dependencies : list string) (gs : t) : t * string :=
  let subGoal :=
    {| Goal.id := "subgoal_" +:+ pretty now +:+ "_"
                    +:+ pretty (Z.of_nat (length (subGoals gs)));
       Goal.description := description;
       Goal.status := pending;
       Goal.progress := 0;
       Goal.attempts := 0;
       Goal.prerequisites := Some prerequisites;
       Goal.dependencies := Some dependencies;
       Goal.lastAttempt := None;
       Goal.context := None;
       Goal.startTime := None;
       Goal.created := Some now;
       Goal.lastUpdate := None;
       Goal.needsStrategyRevision := false;
       Goal.completedAt := None;
       Goal.failedAt := None;
       Goal.failureReason := None |} in
  ({| mainGoal := mainGoal gs; subGoals := subGoals gs ++ [subGoal];
      completedGoals := completedGoals gs; failedGoals := failedGoals gs;
      strategyAdaptations := strategyAdaptations gs |},
   Goal.id subGoal).

(** What [findGoal] returns is a reference into the tracker: the main
    goal object, or the element of [subGoals] at some index.  The
    methods mutate the goal through that reference. *)
Inductive GoalRef := RefMain | RefSub (i : nat).

(** [this.subGoals.find(g => g.id === goalId)], as an index. *)
Fixpoint find_index (goalId : string) (l : list Goal.t) (i : nat) : option nat :=
  match l with
  | [] => None
  | g :: l' => if decide (Goal.id g = goalId) then Some i
               else find_index goalId l' (S i)
  end.

Definition findGoalRef (goalId : string) (gs : t) : option GoalRef :=
  match mainGoal gs with
  | Some mg =>
      if decide (Goal.id mg = goalId) then Some RefMain
      else RefSub <$> find_index goalId (subGoals gs) 0
  | None => RefSub <$> find_index goalId (subGoals gs) 0
  end.

Definition deref (r : GoalRef) (gs : t) : option Goal.t :=
  match r with
  | RefMain => mainGoal gs
  | RefSub i => subGoals gs !! i
  end.

(** [findGoal(goalId)]; [None] is [undefined]. *)
Definition findGoal (goalId : string) (gs : t) : option Goal.t :=
  r ← findGoalRef goalId gs; deref r gs.

(** Assignment to fields of the object behind a reference. *)
Definition mutate (r : GoalRef) (f : Goal.t → Goal.t) (gs : t) : t :=
  match r with
  | RefMain =>
      {| mainGoal := f <$> mainGoal gs; subGoals := subGoals gs;
         completedGoals := completedGoals gs; failedGoals := failedGoals gs;
         strategyAdaptations := strategyAdaptations gs |}
  | RefSub i =>
      {| mainGoal := mainGoal gs; subGoals := alter f i (subGoals gs);
         completedGoals := completedGoals gs; failedGoals := failedGoals gs;
         strategyAdaptations := strategyAdaptations gs |}
  end.

Definition is_active (g : Goal.t) : bool :=
  bool_decide (Goal.status g ≠ completed) && bool_decide (Goal.status g ≠ failed).

(** The callback of [reduce] in [updateMainGoalProgress]. *)
Definition contribution (g : Goal.t) : Z :=
  if decide (Goal.status g = completed) then 100 else Goal.progress g.

(** [updateMainGoalProgress()] *)
Definition updateMainGoalProgress (gs : t) : t :=
  match mainGoal gs with
  | None => gs
  | Some mg =>
      let activeSubGoals := List.filter is_active (subGoals gs) in
      if decide (length activeSubGoals = 0%nat) then
        mutate RefMain
          (Goal.set_main_progress
             (if decide (0 < length (subGoals gs))%nat then 100
              else Goal.progress mg)) gs
      else
        let totalProgress :=
          fold_left (λ sum goal, sum + contribution goal) (subGoals gs) 0 in
        mutate RefMain
          (Goal.set_main_progress
             (totalProgress `div` Z.of_nat (length (subGoals gs)))) gs
  end.

(** [updateGoalProgress(goalId, progress, context)] *)
Definition updateGoalProgress (now : Z) (goalId : string) (progress : Z)
    (ctx : gmap string string) (gs : t) : t :=
  match findGoalRef goalId gs with
  | Some r =>
      let gs1 := mutate r (Goal.set_progress progress now ctx) gs in
      match mainGoal gs1 with
      | Some mg =>
          if decide (goalId ≠ Goal.id mg) then updateMainGoalProgress gs1
          else gs1
      | None => gs1
      end
  | None => gs
  end.

(** [adaptStrategy(goal)], the goal given by reference. *)
Definition adaptStrategy (now : Z) (r : GoalRef) (gs : t) : t :=
  match deref r gs with
  | Some goal =>
      let adaptation :=
        {| goalId := Goal.id goal;
           timestamp := now;
           previousAttempts := Goal.attempts goal;
           (* goal.lastAttempt?.reason || 'Too many failures': the empty
              string is falsy *)
           reason := match Goal.lastAttempt goal with
                     | Some a => if decide (att_reason a = "")
                                 then "Too many failures" else att_reason a
                     | None => "Too many failures"
                     end |} in
      let gs1 :=
        {| mainGoal := mainGoal gs; subGoals := subGoals gs;
           completedGoals := completedGoals gs; failedGoals := failedGoals gs;
           strategyAdaptations := strategyAdaptations gs ++ [adaptation] |} in
      mutate r Goal.mark_needs_revision gs1
  | None => gs
  end.

(** [recordFailedAttempt(goalId, reason)] *)
Definition recordFailedAttempt (now : Z) (goalId : string) (reason : string)
    (gs : t) : t :=
  match findGoalRef goalId gs with
  | Some r =>
      let gs1 := mutate r (Goal.record_attempt now reason) gs in
      match deref r gs1 with
      | Some goal =>
          if decide (3 < Goal.attempts goal) then adaptStrategy now r gs1
          else gs1
      | None => gs1
      end
  | None => gs
  end.

(** [this.subGoals.filter(g => g.id !== goalId)] when [goalId] is not the
    id of the main goal. *)
Definition remove_subgoal (goalId : string) (gs : t) : t :=
  match mainGoal gs with
  | Some mg =>
      if decide (goalId ≠ Goal.id mg) then
        {| mainGoal := mainGoal gs;
           subGoals := List.filter (λ g, bool_decide (Goal.id g ≠ goalId)) (subGoals gs);
           completedGoals := completedGoals gs; failedGoals := failedGoals gs;
           strategyAdaptations := strategyAdaptations gs |}
      else gs
  | None =>
      {| mainGoal := mainGoal gs;
         subGoals := List.filter (λ g, bool_decide (Goal.id g ≠ goalId)) (subGoals gs);
         completedGoals := completedGoals gs; failedGoals := failedGoals gs;
         strategyAdaptations := strategyAdaptations gs |}
  end.

(** [completeGoal(goalId)] *)
Definition completeGoal (now : Z) (goalId : string) (gs : t) : t :=
  match findGoalRef goalId gs with
  | Some r =>
      let gs1 := mutate r (Goal.mark_completed now) gs in
      let gs2 :=
        {| mainGoal := mainGoal gs1; subGoals := subGoals gs1;
           completedGoals :=
             completedGoals gs1 ++ option_list (deref r gs1);
           failedGoals := failedGoals gs1;
           strategyAdaptations := strategyAdaptations gs1 |} in
      updateMainGoalProgress (remove_subgoal goalId gs2)
  | None => gs
  end.

(** [failGoal(goalId, reason)] *)
Definition failGoal (now : Z) (goalId : string) (reason : string) (gs : t) : t :=
  match findGoalRef goalId gs with
  | Some r =>
      let gs1 := mutate r (Goal.mark_failed now reason) gs in
      let gs2 :=
        {| mainGoal := mainGoal gs1; subGoals := subGoals gs1;
           completedGoals := completedGoals gs1;
           failedGoals := failedGoals gs1 ++ option_list (deref r gs1);
           strategyAdaptations := strategyAdaptations gs1 |} in
      updateMainGoalProgress (remove_subgoal goalId gs2)
  | None => gs
  end.

(** [getActiveSubGoals()] *)
Definition getActiveSubGoals (gs : t) : list Goal.t :=
  List.filter (λ g, bool_decide (Goal.status g = active)
                    || bool_decide (Goal.status g = pending)) (subGoals gs).

(** [goal.prerequisites.filter(...)]: calling [filter] on [undefined]
    throws. *)
Definition array_filter (a : option (list string))
    (f : string → bool) : result (list string) :=
  match a with
  | Some l => Ok (List.filter f l)
  | None => Throw (TypeError ("Cannot read properties of undefined (reading 'filter')"))
  end.

(** [getPendingPrerequisites(goalId)] *)
Definition getPendingPrerequisites (goalId : string) (gs : t) : result (list string) :=
  match findGoal goalId gs with
  | None => Ok []
  | Some goal =>
      array_filter (Goal.prerequisites goal)
        (λ preReqId,
           match findGoal preReqId gs with
           | Some preReqGoal => bool_decide (Goal.status preReqGoal ≠ completed)
           | None => false
           end)
  end.

(** [canStartGoal(goalId)] *)
Definition canStartGoal (goalId : string) (gs : t) : result bool :=
  match findGoal goalId gs with
  | None => Ok false
  | Some goal =>
      pendingPrereqs ← getPendingPrerequisites goalId gs;
      if decide (0 < length pendingPrereqs)%nat then Ok false
      else
        unmetDependencies ←
          array_filter (Goal.dependencies goal)
            (λ depId,
               match findGoal depId gs with
               | Some depGoal => bool_decide (Goal.status depGoal ≠ completed)
               | None => true
               end);
        Ok (bool_decide (length unmetDependencies = 0%nat))
  end.

(** The public mutating operations of the tracker, for statements about
    every sequence of calls. *)
Inductive Op :=
| OpSetMainGoal (goal : string) (ctx : gmap string string)
| OpAddSubGoal (description : string) (prerequisites dependencies : list string)
| OpUpdateGoalProgress (goalId : string) (progress : Z) (ctx : gmap string string)
| OpRecordFailedAttempt (goalId : string) (reason : string)
| OpCompleteGoal (goalId : string)
| OpFailGoal (goalId : string) (reason : string).

(** One call, made when the clock reads [now]. *)
Definition step (gs : t) (call : Z * Op) : t :=
  let (now, op) := call in
  match op with
  | OpSetMainGoal goal ctx => fst (setMainGoal now goal ctx gs)
  | OpAddSubGoal d p q => fst (addSubGoal now d p q gs)
  | OpUpdateGoalProgress g p ctx => updateGoalProgress now g p ctx gs
  | OpRecordFailedAttempt g r => recordFailedAttempt now g r gs
  | OpCompleteGoal g => completeGoal now g gs
  | OpFailGoal g r => failGoal now g r gs
  end.

Definition run (calls : list (Z * Op)) (gs : t) : t := fold_left step calls gs.

(** Every goal object the tracker holds. *)
Definition all_goals (gs : t) : list Goal.t :=
  option_list (mainGoal gs) ++ subGoals gs ++ completedGoals gs ++ failedGoals gs.

End GoalSystem.

(** ** Positions and blocks *)

Module Vec3.
Record t := { x : Q; y : Q; z : Q }.
End Vec3.

(** [Math.floor] *)
Definition Math_floor (q : Q) : Z := Qfloor q.

(** A block of the world, as [bot.blockAt] returns it. *)
Record Block := { name : string; position : Vec3.t }.

(** [s.includes(sub)] on strings *)
Fixpoint includes (s sub : string) : bool :=
  String.prefix sub s ||
  match s with
  | EmptyString => false
  | String _ s' => includes s' sub
  end.

(** ** The collaborators

    The world, the pathfinding service and the floating-point kernel are
    not part of the modelled code.  They are the members of a class over
    a type [W] of world states; every statement below holds for every
    instance. *)

(** [new pf.Movements(bot)] with the two switches the navigator sets.
    [None] is the library's default. *)
Record Movements := { canDig : option bool; canPlaceOn : option bool }.

(** [new pf.goals.GoalNear(x, y, z, range)] *)
Record GoalNear := { gx : Q; gy : Q; gz : Q; grange : Q }.

(** What [bot.pathfinder.getPathTo] resolves to. *)
Record PathfinderResult := { pf_status : string; pf_path : list Vec3.t }.

(** An awaited call of [bot.pathfinder.goto]: the worlds in which the
    interval timers of the runtime fired while the call was pending, in
    order, the world in which it settled, and whether it was rejected
    (with the message of the error). *)
Record GotoOutcome (W : Type) := {
  ticks : list W;
  settled : W;
  rejected : option string
}.
Arguments ticks {W} _.
Arguments settled {W} _.
Arguments rejected {W} _.

Class Bot (W : Type) := {
  (** [Date.now()] *)
  clock : W → Z;
  (** [bot.entity.position] *)
  entity_position : W → Vec3.t;
  (** [getPosition(bot)] of [library/world.js] *)
  getPosition : W → Vec3.t;
  (** [bot.blockAt(pos)]; [None] is [null] *)
  blockAt : W → Vec3.t → option Block;
  getBiomeName : W → string;
  getNearbyBlockTypes : W → Z → list string;
  getNearbyEntityTypes : W → list string;
  getNearestBlock : W → string → Z → option Block;
  (** [bot.interrupt_code] *)
  interrupt_code : W → bool;
  (** [await bot.pathfinder.getPathTo(movements, goal, timeout)]: the world
      after the wait, and the result or the error thrown *)
  getPathTo : W → Movements → GoalNear → Z → W * result PathfinderResult;
  (** [await bot.pathfinder.goto(goal)] *)
  goto : W → GoalNear → GotoOutcome W;
  (** [Math.sqrt] *)
  Math_sqrt : Q → Q;
  (** [Math.max(0, Math.min(1, 1 - a / b))] on doubles, where it is a
      number (for [a = b = 0] the source computes [NaN]) *)
  clamped_complement : Q → Q → Q
}.

(** ** Spatial memory ([enhanced_memory.js]) *)

Record PlaceContext := {
  pc_biome : option string;
  pc_nearbyBlocks : option (list string);
  pc_landmarks : option (list string);
  pc_timestamp : Z
}.

Record Location := {
  loc_position : Q * Q * Q;
  loc_context : PlaceContext
}.

Record Bounds := { bounds_min : Q * Q * Q; bounds_max : Q * Q * Q }.

Record Region := {
  bounds : Bounds;
  features : list string;
  subLocations : list string;
  reg_timestamp : Z
}.

Record Landmark := {
  lm_position : Q * Q * Q;
  lm_description : string;
  lm_type : string;
  discovered : Z
}.

(** An obstacle that [identifyObstacles] of the navigator found on a
    planned route. *)
Record PathObstacle := {
  po_position : Vec3.t;
  po_type : string;
  po_index : nat
}.

Record PathRecord := {
  pr_waypoints : option (list Vec3.t);
  pr_obstacles : option (list PathObstacle);
  lastUsed : Z;
  useCount : Z
}.

(** An entry of [getVisibleLandmarks]: [{name, distance, ...landmark}]. *)
Record VisibleLandmark := {
  vl_name : string;
  vl_distance : Q;
  vl_landmark : Landmark
}.

(** The order of [sort((a, b) => a.distance - b.distance)]. *)
Definition closer (a b : VisibleLandmark) : Prop :=
  Qle_bool (vl_distance a) (vl_distance b) = true.

Global Instance closer_dec : RelDecision closer.
Proof. intros a b. unfold closer. apply _. Defined.

Record SpatialContext := {
  sc_position : Vec3.t;
  sc_biome : string;
  sc_nearbyBlocks : list string;
  sc_nearbyEntities : list string;
  sc_timestamp : Z;
  sc_visibleLandmarks : list VisibleLandmark
}.

(** The argument of [loadJson]: an object that may or may not carry each
    of the four keys.  [loadJson] tests [if (json.locations)]: a table is
    an object and objects are truthy, so [Some] is a key holding a table
    and [None] a key that is missing (or holds a falsy value). *)
Record MemoryJson := {
  json_locations : option (gmap string Location);
  json_regions : option (gmap string Region);
  json_landmarks : option (gmap string Landmark);
  json_paths : option (gmap string PathRecord)
}.

Module EnhancedMemoryBank.

Record t := {
  locations : gmap string Location;
  regions : gmap string Region;
  landmarks : gmap string Landmark;
  paths : gmap string PathRecord;
  (** [None] is the [{}] the constructor stores *)
  spatialContext : option SpatialContext;
  lastUpdate : option Z
}.

(** [constructor()] *)
Definition new : t :=
  {| locations := ∅; regions := ∅; landmarks := ∅; paths := ∅;
     spatialContext := None; lastUpdate := None |}.

(** [rememberPlace(name, x, y, z, context)] *)
Definition rememberPlace (now : Z) (name : string) (x y z : Q)
    (biome : option string) (nearbyBlocks landmarks : option (list string))
    (m : t) : t :=
  {| locations :=
       <[name := {| loc_position := (x, y, z);
                    loc_context := {| pc_biome := biome;
                                      pc_nearbyBlocks := nearbyBlocks;
                                      pc_landmarks := landmarks;
                                      pc_timestamp := now |} |}]>
         (locations m);
     regions := regions m; landmarks := EnhancedMemoryBank.landmarks m;
     paths := paths m;
     spatialContext := spatialContext m; lastUpdate := lastUpdate m |}.

(** [recallPlace(name)] *)
Definition recallPlace (name : string) (m : t) : option Location :=
  locations m !! name.

(** [defineRegion(name, bounds, features)] *)
Definition defineRegion (now : Z) (name : string) (b : Bounds)
    (fs : list string) (m : t) : t :=
  {| locations := locations m;
     regions := <[name := {| bounds := b; features := fs;
                             subLocations := []; reg_timestamp := now |}]>
                  (regions m);
     landmarks := landmarks m; paths := paths m;
     spatialContext := spatialContext m; lastUpdate := lastUpdate m |}.

(** [rememberPath(from, to, waypoints, obstacles)] *)
Definition rememberPath (now : Z) (from to : string)
    (waypoints : option (list Vec3.t)) (obstacles : option (list PathObstacle))
    (m : t) : t :=
  let pathKey := from +:+ "->" +:+ to in
  {| locations := locations m; regions := regions m;
     landmarks := landmarks m;
     paths :=
       <[pathKey := {| pr_waypoints := waypoints;
                       pr_obstacles := obstacles;
                       lastUsed := now;
                       (* (this.paths[pathKey]?.useCount || 0) + 1 *)
                       useCount :=
                         match paths m !! pathKey with
                         | Some p => useCount p
                         | None => 0
                         end + 1 |}]> (paths m);
     spatialContext := spatialContext m; lastUpdate := lastUpdate m |}.

(** [addLandmark(name, position, description, type)] *)
Definition addLandmark (now : Z) (name : string) (position : Q * Q * Q)
    (description type : string) (m : t) : t :=
  {| locations := locations m; regions := regions m;
     landmarks := <[name := {| lm_position := position;
                               lm_description := description;
                               lm_type := type;
                               discovered := now |}]> (landmarks m);
     paths := paths m;
     spatialContext := spatialContext m; lastUpdate := lastUpdate m |}.

(** [getJson()] *)
Definition getJson (m : t) : MemoryJson :=
  {| json_locations := Some (locations m);
     json_regions := Some (regions m);
     json_landmarks := Some (landmarks m);
     json_paths := Some (paths m) |}.

(** [loadJson(json)] *)
Definition loadJson (json : MemoryJson) (m : t) : t :=
  {| locations := match json_locations json with
                  | Some l => l | None => locations m end;
     regions := match json_regions json with
                | Some r => r | None => regions m end;
     landmarks := match json_landmarks json with
                  | Some l => l | None => landmarks m end;
     paths := match json_paths json with
              | Some p => p | None => paths m end;
     spatialContext := spatialContext m;
     lastUpdate := lastUpdate m |}.

Section WithBot.
Context {W : Type} `{Bot W}.

(** [calculateDistance(pos1, pos2)]: [pos1] is a vector, [pos2] an array
    of three numbers. *)
Definition calculateDistance (pos1 : Vec3.t) (pos2 : Q * Q * Q) : Q :=
  let '(x2, y2, z2) := pos2 in
  let dx := (Vec3.x pos1 - x2)%Q in
  let dy := (Vec3.y pos1 - y2)%Q in
  let dz := (Vec3.z pos1 - z2)%Q in
  Math_sqrt (dx * dx + dy * dy + dz * dz)%Q.

(** [getVisibleLandmarks(bot)].  The entries of a [gmap] come in the
    order of their keys, not in the order of insertion of
    [Object.entries]: landmarks at the same distance may be listed in
    another order than by the source. *)
Definition getVisibleLandmarks (w : W) (m : t) : list VisibleLandmark :=
  let position := getPosition w in
  let visibleLandmarks :=
    omap (λ entry : string * Landmark,
            let distance := calculateDistance position (lm_position entry.2) in
            if Qle_bool distance 16
            then Some {| vl_name := entry.1; vl_distance := distance;
                         vl_landmark := entry.2 |}
            else None)
         (map_to_list (landmarks m)) in
  merge_sort closer visibleLandmarks.

(** [updateSpatialContext(bot)], called without scan data. *)
Definition updateSpatialContext (w : W) (m : t) : t :=
  let ctx := {| sc_position := getPosition w;
                sc_biome := getBiomeName w;
                sc_nearbyBlocks := getNearbyBlockTypes w 8;
                sc_nearbyEntities := getNearbyEntityTypes w;
                sc_timestamp := clock w;
                sc_visibleLandmarks := getVisibleLandmarks w m |} in
  {| locations := locations m; regions := regions m;
     landmarks := landmarks m; paths := paths m;
     spatialContext := Some ctx;
     lastUpdate := Some (clock w) |}.

End WithBot.

End EnhancedMemoryBank.

(** ** Environment scanner: sightlines *)

Record SightObstacle := {
  so_block : Block;
  so_position : Vec3.t;
  so_distance : Z
}.

Record Sightline := {
  direction : Z * Z;
  clear : bool;
  distance : Z;
  obstacle : option SightObstacle
}.

Record Sightlines := {
  clearPaths : list Sightline;
  obstacles : list (option SightObstacle);
  visibilityMap : gmap string Sightline
}.

Lemma Qfloor_pred_step (y hi : Q) :
  (y <= hi)%Q →
  (Z.to_nat (Qfloor (hi - (y + 1)) + 1) < Z.to_nat (Qfloor (hi - y) + 1))%nat.
Proof.
  intros Hle.
  assert (H0 : 0 <= Qfloor (hi - y)).
  { change 0 with (Qfloor 0). apply Qfloor_resp_le. lra. }
  assert (H1 : Qfloor (hi - (y + 1)) + 1 <= Qfloor (hi - y)).
  { rewrite <- (Qfloor_Z (Qfloor (hi - (y + 1)) + 1)).
    apply Qfloor_resp_le. rewrite inject_Z_plus.
    pose proof (Qfloor_le (hi - (y + 1))) as Hf.
    change (inject_Z 1) with 1%Q. lra. }
  lia.
Qed.

(** The values that [y] takes in [for (let y = lo; y <= hi; y++)]. *)
Equations for_y (y hi : Q) : list Q by wf (Z.to_nat (Qfloor (hi - y) + 1)) lt :=
  for_y y hi with Qlt_le_dec hi y := {
    | left _ => [] ;
    | right Hle => y :: for_y (y + 1)%Q hi }.
Next Obligation. intros. apply Qfloor_pred_step; assumption. Qed.

Module EnvironmentScanner.
Section Scanner.
Context {W : Type} `{Bot W}.

Definition maxDist : Z := 16.

(** [block.name !== 'air' && block.name !== 'cave_air'] *)
Definition blocks_sight (b : Block) : bool :=
  bool_decide (name b ≠ "air") && bool_decide (name b ≠ "cave_air").

(** The inner loop of [checkSightline] over the heights [ys] still to
    visit: the block on which it returns, if it returns. *)
Fixpoint check_column (w : W) (x z : Z) (ys : list Q) : option Block :=
  match ys with
  | [] => None
  | y :: ys' =>
      match blockAt w {| Vec3.x := inject_Z x; Vec3.y := y; Vec3.z := inject_Z z |} with
      | None => check_column w x z ys'
      | Some block =>
          if blocks_sight block then Some block
          else check_column w x z ys'
      end
  end.

(** The outer loop over the distances [dists] still to visit. *)
Fixpoint march (w : W) (start : Vec3.t) (dx dz : Z) (dists : list Z)
    : option (Z * Block) :=
  match dists with
  | [] => None
  | dist :: dists' =>
      let x := Math_floor (Vec3.x start + inject_Z (dx * dist)) in
      let z := Math_floor (Vec3.z start + inject_Z (dz * dist)) in
      match check_column w x z
              (for_y (Vec3.y start - 1) (Vec3.y start + 2)) with
      | Some block => Some (dist, block)
      | None => march w start dx dz dists'
      end
  end.

(** [checkSightline(start, dx, dz)] *)
Definition checkSightline (w : W) (start : Vec3.t) (dx dz : Z) : Sightline :=
  match march w start dx dz (seqZ 1 maxDist) with
  | Some (dist, block) =>
      {| direction := (dx, dz);
         clear := false;
         distance := dist;
         obstacle := Some {| so_block := block;
                             so_position := position block;
                             so_distance := dist |} |}
  | None =>
      {| direction := (dx, dz); clear := true; distance := maxDist;
         obstacle := None |}
  end.

Definition directions : list (Z * Z) :=
  [(1, 0); (1, 1); (0, 1); (-1, 1); (-1, 0); (-1, -1); (0, -1); (1, -1)].

(** The key [`${dx},${dz}`] *)
Definition direction_key (d : Z * Z) : string :=
  pretty (fst d) +:+ "," +:+ pretty (snd d).

(** [analyzeSightlines()] *)
Definition analyzeSightlines (w : W) : Sightlines :=
  let pos := entity_position w in
  fold_left
    (λ sightlines d,
       let sightline := checkSightline w pos (fst d) (snd d) in
       let vm := <[direction_key d := sightline]> (visibilityMap sightlines) in
       if clear sightline then
         {| clearPaths := clearPaths sightlines ++ [sightline];
            obstacles := obstacles sightlines;
            visibilityMap := vm |}
       else
         {| clearPaths := clearPaths sightlines;
            obstacles := obstacles sightlines ++ [obstacle sightline];
            visibilityMap := vm |})
    directions
    {| clearPaths := []; obstacles := []; visibilityMap := ∅ |}.

End Scanner.
End EnvironmentScanner.

(** ** Navigator ([enhanced_navigation.js]) *)

Inductive Marker :=
| NotableBlock (blockType : string) (pos : Vec3.t)
| LandmarkMarker (l : VisibleLandmark).

Record Path := {
  waypoints : list Vec3.t;
  checkpoints : list Vec3.t;
  path_obstacles : list PathObstacle;
  contextualMarkers : list Marker
}.

Record StuckDetection := {
  lastProgress : Q;
  stuckTime : Z;
  stuckThreshold : Z
}.

Record PathEntry := {
  pe_start : Vec3.t;
  pe_end : option Vec3.t;
  pe_timestamp : Z;
  successful : bool;
  pe_error : option string
}.

(** The target of a navigation: an object with a [position], or a point. *)
Inductive Target :=
| TargetEntity (pos : Vec3.t)
| TargetPoint (p : Vec3.t).

(** The options a caller passes.  [None] is a key that is not set.  The
    checkpoint interval is a natural number: [options.checkpointInterval
    || 5] maps both a missing key and [0] to [5]. *)
Record Options := {
  opt_canDig : option bool;
  opt_canPlace : option bool;
  opt_range : option Q;
  opt_checkpointInterval : option N;
  opt_updateInterval : option Z
}.

(** [options.checkpointInterval || 5] *)
Definition checkpointInterval (o : Options) : positive :=
  match opt_checkpointInterval o with
  | Some (Npos p) => p
  | Some N0 | None => 5%positive
  end.

(** [options.updateInterval || 1000] *)
Definition updateInterval (o : Options) : Z :=
  match opt_updateInterval o with
  | Some d => if decide (d = 0) then 1000 else d
  | None => 1000
  end.

(** The checkpoints pushed by
    [for (let i = i0; i < waypoints.length; i += N) checkpoints.push(waypoints[i])]. *)
Equations checkpoints_from (ws : list Vec3.t) (N : positive) (i : nat)
    : list Vec3.t by wf (length ws - i)%nat lt :=
  checkpoints_from ws N i with decide (i < length ws)%nat := {
    | left _ => option_list (ws !! i) ++ checkpoints_from ws N (i + Pos.to_nat N)%nat ;
    | right _ => [] }.
Next Obligation. intros. lia. Qed.

Record StartContext := {
  start_position : Vec3.t;
  start_landmarks : list VisibleLandmark
}.

(** The part of the JS runtime that the navigator acts on: the interval
    timers that are registered, the next timer id that [setInterval]
    hands out, the calls of the console, and the goals given to
    [bot.pathfinder.goto] so far. *)

(** An argument of a call of [console.error] or [console.warn]: a string,
    or the value that was caught.  What the console prints for an error
    object (its name, message and stack) is up to the runtime. *)
Inductive ConsoleArg :=
| Text (s : string)
| Thrown (e : JsError).

Record Runtime := {
  intervals : gset nat;
  next_interval : nat;
  (** the arguments of each call, in the order of the calls *)
  console : list (list ConsoleArg);
  moves : list GoalNear
}.

Module EnhancedNavigation.

Record t := {
  memory : EnhancedMemoryBank.t;
  currentPath : option Path;
  pathHistory : list PathEntry;
  lastPosition : option Vec3.t;
  stuckDetection : StuckDetection
}.

(** [constructor(bot, memoryBank)] *)
Definition new (memoryBank : EnhancedMemoryBank.t) : t :=
  {| memory := memoryBank;
     currentPath := None;
     pathHistory := [];
     lastPosition := None;
     stuckDetection := {| lastProgress := 0; stuckTime := 0;
                          stuckThreshold := 5000 |} |}.

Definition set_memory (m : EnhancedMemoryBank.t) (n : t) : t :=
  {| memory := m; currentPath := currentPath n;
     pathHistory := pathHistory n; lastPosition := lastPosition n;
     stuckDetection := stuckDetection n |}.

Definition set_currentPath (p : option Path) (n : t) : t :=
  {| memory := memory n; currentPath := p;
     pathHistory := pathHistory n; lastPosition := lastPosition n;
     stuckDetection := stuckDetection n |}.

Definition set_lastPosition (p : option Vec3.t) (n : t) : t :=
  {| memory := memory n; currentPath := currentPath n;
     pathHistory := pathHistory n; lastPosition := p;
     stuckDetection := stuckDetection n |}.

Definition push_pathHistory (e : PathEntry) (n : t) : t :=
  {| memory := memory n; currentPath := currentPath n;
     pathHistory := pathHistory n ++ [e]; lastPosition := lastPosition n;
     stuckDetection := stuckDetection n |}.

Definition set_stuckDetection (sd : StuckDetection) (n : t) : t :=
  {| memory := memory n; currentPath := currentPath n;
     pathHistory := pathHistory n; lastPosition := lastPosition n;
     stuckDetection := sd |}.

(** The state a method runs in: the world, the navigator object and the
    runtime. *)
Record St (W : Type) := {
  world : W;
  this : t;
  rt : Runtime
}.
Arguments world {W} _.
Arguments this {W} _.
Arguments rt {W} _.

(** A method body: it changes the state and returns or throws.  The state
    is kept when it throws. *)
Definition M (W A : Type) : Type := St W → St W * result A.

Definition ret {W A} (a : A) : M W A := λ s, (s, Ok a).

Definition throw {W A} (e : JsError) : M W A := λ s, (s, Throw e).

Definition bind {W A B} (m : M W A) (k : A → M W B) : M W B := λ s,
  match m s with
  | (s', Ok a) => k a s'
  | (s', Throw e) => (s', Throw e)
  end.

(** [try { m } catch (error) { h error }] *)
Definition try_catch {W A} (m : M W A) (h : JsError → M W A) : M W A := λ s,
  match m s with
  | (s', Ok a) => (s', Ok a)
  | (s', Throw e) => h e s'
  end.

(** [try { m } finally { f }] *)
Definition finally {W A} (m : M W A) (f : M W unit) : M W A := λ s,
  match m s with
  | (s', r) =>
      match f s' with
      | (s'', Ok _) => (s'', r)
      | (s'', Throw e) => (s'', Throw e)
      end
  end.

Definition modify_this {W} (f : t → t) : M W unit := λ s,
  ({| world := world s; this := f (this s); rt := rt s |}, Ok tt).

Definition modify_rt {W} (f : Runtime → Runtime) : M W unit := λ s,
  ({| world := world s; this := this s; rt := f (rt s) |}, Ok tt).

Definition set_world {W} (w : W) : M W unit := λ s,
  ({| world := w; this := this s; rt := rt s |}, Ok tt).

Definition get {W} : M W (St W) := λ s, (s, Ok s).

Notation "x <- m ;; k" := (bind m (λ x, k))
  (at level 100, m at next level, right associativity).
Notation "m ;; k" := (bind m (λ _, k))
  (at level 100, right associativity).

(** [for (const x of l) { body x }] *)
Fixpoint for_of {W A} (l : list A) (body : A → M W unit) : M W unit :=
  match l with
  | [] => ret tt
  | a :: l' => body a ;; for_of l' body
  end.

(** [console.error(...args)], [console.warn(...args)] *)
Definition console_log {W} (line : list ConsoleArg) : M W unit :=
  modify_rt (λ r, {| intervals := intervals r;
                     next_interval := next_interval r;
                     console := console r ++ [line];
                     moves := moves r |}).

(** [setInterval(callback, delay)]: registers a timer and returns its id.
    The callback of every timer of the navigator is
    [updateNavigationProgress]; when it runs is decided by the world
    (the [ticks] of a pending [goto]). *)
Definition setInterval {W} (delay : Z) : M W nat := λ s,
  let id := next_interval (rt s) in
  ({| world := world s; this := this s;
      rt := {| intervals := {[id]} ∪ intervals (rt s);
               next_interval := S id;
               console := console (rt s);
               moves := moves (rt s) |} |}, Ok id).

(** [clearInterval(id)] *)
Definition clearInterval {W} (id : nat) : M W unit :=
  modify_rt (λ r, {| intervals := intervals r ∖ {[id]};
                     next_interval := next_interval r;
                     console := console r;
                     moves := moves r |}).

Section Methods.
Context {W : Type} `{Bot W}.

Definition with_world (w : W) (s : St W) : St W :=
  {| world := w; this := this s; rt := rt s |}.

(** [calculateDistance(pos1, pos2)] *)
Definition calculateDistance (pos1 pos2 : Vec3.t) : Q :=
  let dx := (Vec3.x pos1 - Vec3.x pos2)%Q in
  let dy := (Vec3.y pos1 - Vec3.y pos2)%Q in
  let dz := (Vec3.z pos1 - Vec3.z pos2)%Q in
  Math_sqrt (dx * dx + dy * dy + dz * dz)%Q.

(** [calculatePathProgress(currentPos)] *)
Definition calculatePathProgress (currentPos : Vec3.t) (n : t) : Q :=
  match currentPath n with
  | Some path =>
      match waypoints path, last (waypoints path) with
      | startPos :: _, Some endPos =>
          let totalDistance := calculateDistance startPos endPos in
          let distanceToEnd := calculateDistance currentPos endPos in
          clamped_complement distanceToEnd totalDistance
      | _, _ => 0%Q
      end
  | None => 0%Q
  end.

(** [handleStuckState()] *)
Definition handleStuckState : M W unit :=
  console_log [Text "Bot appears to be stuck in navigation"].

(** The writes of [updateNavigationProgress] to [this.stuckDetection] for
    one sample: the new record, and whether the stuck hook is called. *)
Definition sample (progress : Q) (sd : StuckDetection) : StuckDetection * bool :=
  if Qlt_le_dec (Qabs (progress - lastProgress sd)) (1 # 100) then
    let stuck := stuckTime sd + 1000 in
    ({| lastProgress := progress; stuckTime := stuck;
        stuckThreshold := stuckThreshold sd |},
     bool_decide (stuckThreshold sd ≤ stuck))
  else
    ({| lastProgress := progress; stuckTime := 0;
        stuckThreshold := stuckThreshold sd |}, false).

(** [updateNavigationProgress()] *)
Definition updateNavigationProgress : M W unit :=
  s <- get ;;
  match currentPath (this s), lastPosition (this s) with
  | Some _, Some _ =>
      let currentPos := getPosition (world s) in
      let progress := calculatePathProgress currentPos (this s) in
      let (sd, stuck) := sample progress (stuckDetection (this s)) in
      modify_this (set_stuckDetection sd) ;;
      (if stuck then handleStuckState else ret tt) ;;
      modify_this (set_lastPosition (Some currentPos))
  | _, _ => ret tt
  end.

(** The runtime runs its timers: every registered interval calls its
    callback, in the world [w]. *)
Definition run_timers (w : W) : M W unit :=
  set_world w ;;
  s <- get ;;
  for_of (elements (intervals (rt s))) (λ _, updateNavigationProgress).

(** [await this.bot.pathfinder.goto(goal)] *)
Definition pathfinder_goto (goal : GoalNear) : M W unit :=
  s <- get ;;
  let outcome := goto (world s) goal in
  modify_rt (λ r, {| intervals := intervals r;
                     next_interval := next_interval r;
                     console := console r;
                     moves := moves r ++ [goal] |}) ;;
  for_of (ticks outcome) run_timers ;;
  set_world (settled outcome) ;;
  match rejected outcome with
  | Some msg => throw (Error msg)
  | None => ret tt
  end.

(** [await this.bot.pathfinder.getPathTo(movements, goal, timeout)] *)
Definition pathfinder_getPathTo (movements : Movements) (goal : GoalNear)
    (timeout : Z) : M W PathfinderResult := λ s,
  let (w, r) := getPathTo (world s) movements goal timeout in
  (with_world w s, r).

(** [identifyObstacles(waypoints)], from index [i] on. *)
Fixpoint identifyObstacles_from (w : W) (i : nat) (waypoints : list Vec3.t)
    : list PathObstacle :=
  match waypoints with
  | current :: rest =>
      match rest with
      | next :: _ =>
          match blockAt w next with
          | Some block =>
              if negb (includes (name block) "air")
              then [{| po_position := next; po_type := name block;
                       po_index := i |}]
              else []
          | None => []
          end ++ identifyObstacles_from w (S i) rest
      | [] => []
      end
  | [] => []
  end.

Definition identifyObstacles (w : W) (waypoints : list Vec3.t) : list PathObstacle :=
  identifyObstacles_from w 0 waypoints.

(** [generateContextualMarkers(start, end)] *)
Definition generateContextualMarkers (w : W) (m : EnhancedMemoryBank.t)
    : list Marker :=
  let notableBlocks := ["chest"; "crafting_table"; "furnace"] in
  let markers :=
    omap (λ blockType,
            match getNearestBlock w blockType 16 with
            | Some block => Some (NotableBlock (name block) (position block))
            | None => None
            end) notableBlocks in
  let landmarks := EnhancedMemoryBank.getVisibleLandmarks w m in
  markers ++ (LandmarkMarker <$> landmarks).

(** The goal that [planPathWithContext] builds: [options.range || 1]. *)
Definition plan_goal (target : Target) (options : Options) : GoalNear :=
  let range := match opt_range options with
               | Some r => if Qeq_bool r 0 then 1%Q else r
               | None => 1%Q
               end in
  match target with
  | TargetEntity p | TargetPoint p =>
      {| gx := Vec3.x p; gy := Vec3.y p; gz := Vec3.z p; grange := range |}
  end.

Definition plan_movements (options : Options) : Movements :=
  {| canDig := opt_canDig options; canPlaceOn := opt_canPlace options |}.

(** [planPathWithContext(target, options)] *)
Definition planPathWithContext (target : Target) (options : Options) : M W Path :=
  let movements := plan_movements options in
  let goal := plan_goal target options in
  try_catch
    (pathfinderPath <- pathfinder_getPathTo movements goal 100 ;;
     if decide (pf_status pathfinderPath = "success") then
       s <- get ;;
       let waypoints := pf_path pathfinderPath in
       ret {| waypoints := waypoints;
              checkpoints := checkpoints_from waypoints (checkpointInterval options) 0;
              path_obstacles := identifyObstacles (world s) waypoints;
              contextualMarkers :=
                generateContextualMarkers (world s) (memory (this s)) |}
     else
       ret {| waypoints := []; checkpoints := []; path_obstacles := [];
              contextualMarkers := [] |})
    (λ error,
       console_log [Text "Path planning error:"; Thrown error] ;;
       throw (Error ("Failed to plan path: " +:+ message error))).

(** [moveToCheckpoint(checkpoint, options)] *)
Definition moveToCheckpoint (checkpoint : Vec3.t) (options : Options) : M W unit :=
  let goal := {| gx := Vec3.x checkpoint; gy := Vec3.y checkpoint;
                 gz := Vec3.z checkpoint; grange := 1 |} in
  try_catch (pathfinder_goto goal)
    (λ error, throw (Error ("Failed to reach checkpoint: " +:+ message error))).

(** [verifyAndUpdateContext(checkpoint)] *)
Definition verifyAndUpdateContext (checkpoint : Vec3.t) : M W bool :=
  s <- get ;;
  let currentPos := getPosition (world s) in
  let distance := calculateDistance currentPos checkpoint in
  if Qlt_le_dec 2 distance then
    throw (Error "Navigation verification failed: Off course")
  else
    modify_this (λ n, set_memory
                        (EnhancedMemoryBank.updateSpatialContext (world s) (memory n)) n) ;;
    ret true.

(** The key [`${Math.floor(p.x)},${Math.floor(p.y)},${Math.floor(p.z)}`] *)
Definition coord_key (p : Vec3.t) : string :=
  pretty (Math_floor (Vec3.x p)) +:+ "," +:+ pretty (Math_floor (Vec3.y p))
    +:+ "," +:+ pretty (Math_floor (Vec3.z p)).

(** [recordSuccessfulPath(start, end)]; [end] is [undefined] when the
    waypoint array is empty, and reading [end.x] then throws. *)
Definition recordSuccessfulPath (start : Vec3.t) (end_ : option Vec3.t) : M W unit :=
  s <- get ;;
  modify_this (push_pathHistory
                 {| pe_start := start; pe_end := end_;
                    pe_timestamp := clock (world s);
                    successful := true; pe_error := None |}) ;;
  match end_ with
  | Some e =>
      modify_this (λ n,
        set_memory
          (EnhancedMemoryBank.rememberPath (clock (world s))
             (coord_key start) (coord_key e)
             (waypoints <$> currentPath n)
             (path_obstacles <$> currentPath n)
             (memory n)) n)
  | None =>
      throw (TypeError "Cannot read properties of undefined (reading 'x')")
  end.

(** [recordFailedPath(start, end, error)] *)
Definition recordFailedPath (start : Vec3.t) (end_ : option Vec3.t)
    (error : JsError) : M W unit :=
  s <- get ;;
  modify_this (push_pathHistory
                 {| pe_start := start; pe_end := end_;
                    pe_timestamp := clock (world s);
                    successful := false;
                    pe_error := Some (message error) |}).

(** The body of the loop over [path.checkpoints]. *)
Definition visit_checkpoint (options : Options) (checkpoint : Vec3.t) : M W unit :=
  s <- get ;;
  if interrupt_code (world s) then throw (Error "Navigation interrupted")
  else
    moveToCheckpoint checkpoint options ;;
    verifyAndUpdateContext checkpoint ;;
    ret tt.

(** [executePathWithContext(path, options)], the start context being the
    [options.startContext] that [moveToLocation] passes. *)
Definition executePathWithContext (path : Path) (startContext : StartContext)
    (options : Options) : M W bool :=
  if decide (waypoints path = []) then throw (Error "Invalid path provided")
  else
    s <- get ;;
    modify_this (set_currentPath (Some path)) ;;
    modify_this (set_lastPosition (Some (getPosition (world s)))) ;;
    progressMonitor <- setInterval (updateInterval options) ;;
    finally
      (try_catch
         (for_of (checkpoints path) (visit_checkpoint options) ;;
          recordSuccessfulPath (start_position startContext)
            (last (waypoints path)) ;;
          ret true)
         (λ error,
            console_log [Text "Path execution error:"; Thrown error] ;;
            recordFailedPath (start_position startContext)
              (last (waypoints path)) error ;;
            throw error))
      (clearInterval progressMonitor ;;
       modify_this (set_currentPath None)).

(** [moveToLocation(target, options)] *)
Definition moveToLocation (target : Target) (options : Options) : M W bool :=
  s <- get ;;
  let startContext :=
    {| start_position := getPosition (world s);
       start_landmarks :=
         EnhancedMemoryBank.getVisibleLandmarks (world s) (memory (this s)) |} in
  path <- planPathWithContext target options ;;
  executePathWithContext path startContext options.

End Methods.

End EnhancedNavigation.

(** ** Block categories *)

Module BlockCategories.

(** What reading [o[key]] on an object literal [o] gives when it is not
    [undefined]: a property of [o] itself, or the member of
    [Object.prototype] of that name, which every object literal
    inherits. *)
Inductive Property (A : Type) :=
| Own (a : A)
| Inherited (member : string).
Arguments Own {A} a.
Arguments Inherited {A} member.

Global Instance Property_eq_dec {A} `{EqDecision A} : EqDecision (Property A).
Proof. solve_decision. Defined.

(** The names of the members of [Object.prototype]. *)
Definition object_prototype : list string :=
  ["constructor"; "__defineGetter__"; "__defineSetter__"; "hasOwnProperty";
   "__lookupGetter__"; "__lookupSetter__"; "isPrototypeOf";
   "propertyIsEnumerable"; "toString"; "valueOf"; "__proto__";
   "toLocaleString"].

(** [o[key]]; [None] is [undefined]. *)
Definition read_property {A} (o : gmap string A) (key : string) : option (Property A) :=
  match o !! key with
  | Some a => Some (Own a)
  | None => if decide (key ∈ object_prototype) then Some (Inherited key) else None
  end.

(** The object literal [blockCategories], as its entries in order. *)
Definition blockCategories_entries : list (string * list string) :=
  [("wood",
    ["oak_log"; "birch_log"; "spruce_log"; "jungle_log"; "acacia_log";
     "dark_oak_log"; "mangrove_log"; "cherry_log"; "oak_wood"; "birch_wood";
     "spruce_wood"; "jungle_wood"; "acacia_wood"; "dark_oak_wood";
     "mangrove_wood"; "cherry_wood"]);
   ("planks",
    ["oak_planks"; "birch_planks"; "spruce_planks"; "jungle_planks";
     "acacia_planks"; "dark_oak_planks"; "mangrove_planks"; "cherry_planks"]);
   ("leaves",
    ["oak_leaves"; "birch_leaves"; "spruce_leaves"; "jungle_leaves";
     "acacia_leaves"; "dark_oak_leaves"; "mangrove_leaves"; "cherry_leaves"])].

Definition blockCategories : gmap string (list string) :=
  list_to_map blockCategories_entries.

(** [blockToCategory], filled by the two nested [forEach]. *)
Definition blockToCategory : gmap string string :=
  fold_left
    (λ m entry,
       fold_left (λ m block, <[block := entry.1]> m) entry.2 m)
    blockCategories_entries ∅.

(** [getBlockCategory(blockName)]; [None] is [null]. *)
Definition getBlockCategory (blockName : string) : option (Property string) :=
  read_property blockToCategory blockName.

(** [getBlocksInCategory(category)] *)
Definition getBlocksInCategory (category : string) : Property (list string) :=
  match read_property blockCategories category with
  | Some p => p
  | None => Own []
  end.

(** [isSimilarBlock(block1, block2)], as the truth value of what it
    returns. *)
Definition isSimilarBlock (block1 block2 : string) : bool :=
  match getBlockCategory block1 with
  | Some cat1 => bool_decide (Some cat1 = getBlockCategory block2)
  | None => false
  end.

(** [findAlternativeBlock(blockName)]; [Ok None] is [null].  When the
    category is a member of [Object.prototype], [blockCategories[category]]
    is [undefined] and reading [filter] throws. *)
Definition findAlternativeBlock (blockName : string) : result (option (list string)) :=
  match getBlockCategory blockName with
  | None => Ok None
  | Some (Own category) =>
      match read_property blockCategories category with
      | Some (Own blocks) =>
          Ok (Some (List.filter (λ b, bool_decide (b ≠ blockName)) blocks))
      | Some (Inherited member) =>
          Throw (TypeError "blockCategories[category].filter is not a function")
      | None =>
          Throw (TypeError "Cannot read properties of undefined (reading 'filter')")
      end
  | Some (Inherited _) =>
      Throw (TypeError "Cannot read properties of undefined (reading 'filter')")
  end.

(** The blocks of a category of the table. *)
Definition in_category (category block : string) : Prop :=
  ∃ blocks, blockCategories !! category = Some blocks ∧ block ∈ blocks.

(** The pairs that the two loops write. *)
Definition written : list (string * string) :=
  flat_map (λ entry : string * list string, (λ b, (b, entry.1)) <$> entry.2)
    blockCategories_entries.

End BlockCategories.

(** ** Spatial memory: queries and analyses *)

(** An entry of [getKnownPaths]. *)
Record KnownPath := {
  kp_route : string;
  kp_lastUsed : Z;
  kp_useCount : Z
}.

(** An entry of the resources that the scanner's summary lists, and of
    what [analyzeNearestResources] makes of it. *)
Record Resource := {
  res_name : string;
  res_count : Z;
  res_nearest : Q
}.

Record NearestResource := {
  nr_name : string;
  nr_distance : Q;
  nr_quantity : Z;
  nr_accessible : bool
}.

(** The order of [sort((a, b) => a.nearest - b.nearest)]. *)
Definition nearer (a b : Resource) : Prop :=
  Qle_bool (res_nearest a) (res_nearest b) = true.

Global Instance nearer_dec : RelDecision nearer.
Proof. intros a b. unfold nearer. apply _. Defined.

(** An entry of [analyzeClearPaths]. *)
Record ClearPath := {
  cp_direction : Z * Z;
  cp_distance : Z;
  hasObstacles : bool
}.

(** What [analyzeTerrain] of the scanner returns.  The elevations are
    heights of blocks, which are integers. *)
Record Terrain := {
  elevation : gmap string Z;
  waterBodies : list Vec3.t;
  clearings : list Vec3.t;
  terrain_obstacles : list Vec3.t
}.

(** What [summarizeContext] returns; [None] is [null]. *)
Record ContextSummary := {
  cs_position : option string;
  cs_biome : option string;
  cs_nearbyBlocks : list string;
  cs_visibleLandmarks : list VisibleLandmark;
  contextAge : string
}.

Module MemoryQueries.
Import EnhancedMemoryBank.

(** [getKnownPaths()], in the order of the keys. *)
Definition getKnownPaths (m : t) : list KnownPath :=
  (λ entry : string * PathRecord,
     {| kp_route := entry.1; kp_lastUsed := lastUsed entry.2;
        kp_useCount := useCount entry.2 |}) <$> map_to_list (paths m).

(** [analyzeNearestResources(resources)].  [None] is an argument that is
    no array; an entry [None] of the array is a falsy entry.  Resources at
    the same distance may come in another order than by the source. *)
Definition analyzeNearestResources (resources : option (list (option Resource)))
    : list NearestResource :=
  match resources with
  | None => []
  | Some resources =>
      (λ r, {| nr_name := res_name r; nr_distance := res_nearest r;
               nr_quantity := res_count r; nr_accessible := true |})
        <$> merge_sort nearer
              (omap (λ r : option Resource,
                       r ≫= λ r, if Qle_bool (res_nearest r) 32 then Some r else None)
                 resources)
  end.

(** [analyzeClearPaths(sightlines)]; [None] is an argument that is falsy
    or has no [clearPaths]. *)
Definition analyzeClearPaths (sightlines : option Sightlines) : list ClearPath :=
  match sightlines with
  | None => []
  | Some sightlines =>
      (λ path, {| cp_direction := direction path; cp_distance := distance path;
                  hasObstacles := negb (clear path) |}) <$> clearPaths sightlines
  end.

(** [Math.max(...l)] and [Math.min(...l)] of the array [e :: l]. *)
Definition Math_max (e : Z) (l : list Z) : Z := fold_left Z.max l e.
Definition Math_min (e : Z) (l : list Z) : Z := fold_left Z.min l e.

(** [analyzeTerrainDifficulty(terrain)]; [None] is an argument that is
    falsy or has no [elevation]. *)
Definition analyzeTerrainDifficulty (terrain : option Terrain) : string :=
  match terrain with
  | None => "unknown"
  | Some terrain =>
      match (map_to_list (elevation terrain)).*2 with
      | [] => "unknown"
      | e :: elevations =>
          let maxDiff := Math_max e elevations - Math_min e elevations in
          if decide (maxDiff ≤ 2) then "easy"
          else if decide (maxDiff ≤ 5) then "moderate"
          else "difficult"
      end
  end.

(** The summary without a context. *)
Definition no_context : ContextSummary :=
  {| cs_position := None; cs_biome := None; cs_nearbyBlocks := [];
     cs_visibleLandmarks := []; contextAge := "No context available" |}.

(** [summarizeContext()].  The stored context is an object and so truthy;
    [lastUpdate] is falsy when it is [null] or [0]. *)
Definition summarizeContext (now : Z) (m : t) : ContextSummary :=
  match lastUpdate m with
  | None => no_context
  | Some updated =>
      if decide (updated = 0) then no_context
      else
        let timeSinceUpdate := (inject_Z (now - updated) / 1000)%Q in
        {| cs_position :=
             (λ ctx,
                let pos := sc_position ctx in
                "(" +:+ pretty (Math_floor (Vec3.x pos)) +:+ ", "
                    +:+ pretty (Math_floor (Vec3.y pos)) +:+ ", "
                    +:+ pretty (Math_floor (Vec3.z pos)) +:+ ")")
               <$> spatialContext m;
           cs_biome :=
             spatialContext m ≫= λ ctx,
               if decide (sc_biome ctx = "") then None else Some (sc_biome ctx);
           cs_nearbyBlocks :=
             from_option (λ ctx, take 5 (sc_nearbyBlocks ctx)) [] (spatialContext m);
           cs_visibleLandmarks :=
             from_option (λ ctx, take 3 (sc_visibleLandmarks ctx)) []
               (spatialContext m);
           contextAge := pretty (Math_floor timeSinceUpdate) +:+ "s ago" |}
  end.

Section WithBot.
Context {W : Type} `{Bot W}.

(** [getNearbyLandmarks(position, radius)]; the radius [None] is the
    default.  The order of landmarks at the same distance is as for
    [getVisibleLandmarks]. *)
Definition getNearbyLandmarks (position : Vec3.t) (radius : option Q) (m : t)
    : list VisibleLandmark :=
  let radius := default 16%Q radius in
  merge_sort closer
    (List.filter (λ landmark, Qle_bool (vl_distance landmark) radius)
       ((λ entry : string * Landmark,
           {| vl_name := entry.1;
              vl_distance := calculateDistance position (lm_position entry.2);
              vl_landmark := entry.2 |}) <$> map_to_list (landmarks m))).

End WithBot.
End MemoryQueries.

(** ** Environment scanner: terrain *)

Module TerrainScanner.
Section Scanner.
Context {W : Type} `{Bot W}.

Definition scanRadius : Z := 32.
Definition heightRange : Z := 10.

(** [new Vec3(x, y, z)] at an integer height. *)
Definition column (x : Q) (y : Z) (z : Q) : Vec3.t :=
  {| Vec3.x := x; Vec3.y := inject_Z y; Vec3.z := z |}.

(** The loop of [findSurface] over the heights [ys] still to visit. *)
Fixpoint surface_scan (w : W) (x z : Q) (ys : list Z) : option Z :=
  match ys with
  | [] => None
  | y :: ys' =>
      match blockAt w (column x y z), blockAt w (column x (y - 1) z) with
      | Some block, Some blockBelow =>
          if bool_decide (name block = "air") && bool_decide (name blockBelow ≠ "air")
          then Some (y - 1)
          else surface_scan w x z ys'
      | _, _ => surface_scan w x z ys'
      end
  end.

(** The heights of [for (let y = startY; y >= startY - heightRange * 2; y--)]. *)
Definition heights (startY : Z) : list Z :=
  (λ k, startY - k) <$> seqZ 0 (heightRange * 2 + 1).

(** [findSurface(x, z)]; [None] is [null]. *)
Definition findSurface (w : W) (x z : Q) : option Z :=
  let startY := Math_floor (Vec3.y (entity_position w)) + heightRange in
  surface_scan w x z (heights startY).

(** The offsets of
    [for (let x = -this.scanRadius; x <= this.scanRadius; x += 4)]. *)
Definition offsets : list Z :=
  (λ k, - scanRadius + 4 * k) <$> seqZ 0 (2 * scanRadius `div` 4 + 1).

(** The key [`${x},${z}`] *)
Definition offset_key (x z : Z) : string := pretty x +:+ "," +:+ pretty z.

(** [analyzeTerrain()] *)
Definition analyzeTerrain (w : W) : Terrain :=
  let pos := entity_position w in
  {| elevation :=
       fold_left
         (λ elevation x,
            fold_left
              (λ elevation z,
                 match findSurface w (Vec3.x pos + inject_Z x)
                                     (Vec3.z pos + inject_Z z) with
                 | Some surfaceY => <[offset_key x z := surfaceY]> elevation
                 | None => elevation
                 end)
              offsets elevation)
         offsets ∅;
     waterBodies := []; clearings := []; terrain_obstacles := [] |}.

End Scanner.
End TerrainScanner.

(** ** Scenarios *)

Module GoalScenario.
Import GoalSystem.

(** A main goal and two subgoals. *)
Definition start : GoalSystem.t * (string * string * string) :=
  let '(gs0, main) := setMainGoal 1000 "build a shelter" ∅ new in
  let '(gs1, a) := addSubGoal 1001 "gather wood" [] [] gs0 in
  let '(gs2, b) := addSubGoal 1002 "craft planks" [] [] gs1 in
  (gs2, (main, a, b)).

Definition main_id : string := start.2.1.1.
Definition a_id : string := start.2.1.2.
Definition b_id : string := start.2.2.

(** The subgoals are brought to progress 40 and 60. *)
Definition at_40_60 : GoalSystem.t :=
  updateGoalProgress 1004 b_id 60 ∅
    (updateGoalProgress 1003 a_id 40 ∅ start.1).

(** Then the first subgoal is completed. *)
Definition a_completed : GoalSystem.t := completeGoal 1005 a_id at_40_60.

(** A subgoal whose only prerequisite is an id that no goal has. *)
Definition with_ghost_prerequisite : GoalSystem.t * string :=
  addSubGoal 2000 "smelt iron" ["subgoal_0_99"] [] start.1.

(** A subgoal whose only dependency is an id that no goal has. *)
Definition with_ghost_dependency : GoalSystem.t * string :=
  addSubGoal 2000 "smelt iron" [] ["subgoal_0_99"] start.1.

(** The main goal is pushed beyond 100. *)
Definition out_of_range_calls : list (Z * Op) :=
  [(1000, OpSetMainGoal "build a shelter" ∅);
   (1001, OpUpdateGoalProgress "goal_1000" 150 ∅)].

(** The calls of the scenario of the specification, with every progress
    argument within [0,100]. *)
Definition in_range_calls : list (Z * Op) :=
  [(1000, OpSetMainGoal "build a shelter" ∅);
   (1001, OpAddSubGoal "gather wood" [] []);
   (1002, OpAddSubGoal "craft planks" [] []);
   (1003, OpUpdateGoalProgress "subgoal_1001_0" 40 ∅);
   (1004, OpUpdateGoalProgress "subgoal_1002_1" 60 ∅);
   (1005, OpCompleteGoal "subgoal_1001_0");
   (1006, OpFailGoal "subgoal_1002_1" "no planks")].

(** Four failures of the first subgoal. *)
Definition four_failures : list (Z * Op) :=
  [(3001, OpRecordFailedAttempt a_id "no axe");
   (3002, OpRecordFailedAttempt a_id "no trees");
   (3003, OpRecordFailedAttempt a_id "night");
   (3004, OpRecordFailedAttempt a_id "creeper")].

End GoalScenario.

(** ** Vocabulary of the statements about the goal tracker *)

Module GoalSpec.
Import GoalSystem.

Definition in_range (g : Goal.t) : Prop := 0 ≤ Goal.progress g ≤ 100.

(** Every goal the tracker holds has its progress within [0,100]. *)
Definition progress_in_range (gs : GoalSystem.t) : Prop :=
  Forall in_range (all_goals gs).

(** The progress argument of a call, when it has one, is within [0,100]. *)
Definition argument_in_range (call : Z * Op) : Prop :=
  match call.2 with
  | OpUpdateGoalProgress _ p _ => 0 ≤ p ≤ 100
  | _ => True
  end.

(** [reason || 'Too many failures'] *)
Definition adaptation_reason (reason : string) : string :=
  if decide (reason = "") then "Too many failures" else reason.

(** The adaptation records of the log that reference a goal id. *)
Definition adaptations_of (g : string) (gs : GoalSystem.t) : list Adaptation :=
  List.filter (λ a, bool_decide (goalId a = g)) (strategyAdaptations gs).

(** The progress of the main goal. *)
Definition main_progress (gs : GoalSystem.t) : option Z :=
  Goal.progress <$> mainGoal gs.

End GoalSpec.

(** ** Vocabulary of the statements about sightlines *)

Module SightSpec.
Section Spec.
Context {W : Type} `{Bot W}.

(** The positions that [checkSightline] queries at the step [dist] of the
    ray from [start] in the direction [(dx, dz)], in the order of the
    queries: one below the height of [start], that height, and the two
    above. *)
Definition slab (start : Vec3.t) (dx dz dist : Z) : list Vec3.t :=
  let sy := Vec3.y start in
  (λ y, {| Vec3.x := inject_Z (Math_floor (Vec3.x start + inject_Z (dx * dist)));
           Vec3.y := y;
           Vec3.z := inject_Z (Math_floor (Vec3.z start + inject_Z (dz * dist))) |})
    <$> [(sy - 1)%Q; (sy - 1 + 1)%Q; (sy - 1 + 1 + 1)%Q; (sy - 1 + 1 + 1 + 1)%Q].

(** No block, air or cave air. *)
Definition passable (w : W) (p : Vec3.t) : Prop :=
  match blockAt w p with
  | None => True
  | Some b => name b = "air" ∨ name b = "cave_air"
  end.

(** [block] is the first block of the positions [ps], in their order,
    that is neither air nor cave air. *)
Definition first_blocker (w : W) (ps : list Vec3.t) (block : Block) : Prop :=
  ∃ (i : nat) (p : Vec3.t),
    ps !! i = Some p ∧ blockAt w p = Some block ∧
    name block ≠ "air" ∧ name block ≠ "cave_air" ∧
    ∀ (j : nat) (q : Vec3.t), (j < i)%nat → ps !! j = Some q → passable w q.

(** The position at the height [y] of the column at [(x, z)]. *)
Definition at_height (x z : Z) (y : Q) : Vec3.t :=
  {| Vec3.x := inject_Z x; Vec3.y := y; Vec3.z := inject_Z z |}.

(** What the inner loop of [checkSightline] finds at a distance. *)
Definition column_at (w : W) (start : Vec3.t) (dx dz dist : Z) : option Block :=
  EnvironmentScanner.check_column w
    (Math_floor (Vec3.x start + inject_Z (dx * dist)))
    (Math_floor (Vec3.z start + inject_Z (dz * dist)))
    (for_y (Vec3.y start - 1) (Vec3.y start + 2)).

(** What [checkSightline] reports for a ray. *)
Definition sightline_report (w : W) (start : Vec3.t) (dx dz : Z)
    (r : Sightline) : Prop :=
  direction r = (dx, dz) ∧
  ((clear r = true ∧ distance r = 16 ∧ obstacle r = None ∧
    ∀ d, 1 ≤ d ≤ 16 → Forall (passable w) (slab start dx dz d))
   ∨
   (∃ (dist : Z) (block : Block),
      clear r = false ∧ distance r = dist ∧
      obstacle r = Some {| so_block := block; so_position := position block;
                           so_distance := dist |} ∧
      1 ≤ dist ≤ 16 ∧
      first_blocker w (slab start dx dz dist) block ∧
      ∀ d, 1 ≤ d < dist → Forall (passable w) (slab start dx dz d))).

End Spec.
End SightSpec.

(** ** A small world for the scenarios *)

Module Demo.

Record World := {
  blocks : Vec3.t → option Block;
  (** where the bot is *)
  standing : Vec3.t;
  time : Z;
  (** what the route search answers *)
  route : result PathfinderResult;
  (** how often the timers fire while a [goto] is pending *)
  firings : nat;
  (** the error of a [goto], if it fails *)
  failure : option string;
  interrupt : bool
}.

Definition origin : Vec3.t := {| Vec3.x := 0; Vec3.y := 0; Vec3.z := 0 |}.

Definition air (p : Vec3.t) : option Block :=
  Some {| name := "air"; position := p |}.


(** The bot is carried to the goal of a [goto] that succeeds. *)
Definition arrive (w : World) (goal : GoalNear) : World :=
  {| blocks := blocks w;
     standing := match failure w with
                 | Some _ => standing w
                 | None => {| Vec3.x := gx goal; Vec3.y := gy goal;
                              Vec3.z := gz goal |}
                 end;
     time := time w; route := route w; firings := firings w;
     failure := failure w; interrupt := interrupt w |}.

(** The collaborators of the scenarios.  The square root is exact on
    the perfect squares, and the scenarios take it of nothing else.  A
    route whose end is its start makes the quotient of the progress
    [0 / 0], which is [NaN] in the source and has no counterpart in [Q]:
    no scenario samples the progress on such a route. *)
Global Instance bot : Bot World := {|
  clock := time;
  entity_position := standing;
  getPosition := standing;
  blockAt := blocks;
  getBiomeName := λ _, "plains";
  getNearbyBlockTypes := λ _ _, [];
  getNearbyEntityTypes := λ _, [];
  getNearestBlock := λ _ _ _, None;
  interrupt_code := interrupt;
  getPathTo := λ w _ _ _, (w, route w);
  goto := λ w goal, {| ticks := replicate (firings w) w;
                       settled := arrive w goal;
                       rejected := failure w |};
  Math_sqrt := λ q, inject_Z (Z.sqrt (Qfloor q));
  clamped_complement := λ a b,
    if Qeq_bool b 0 then 0%Q
    else Qmax 0 (Qmin 1 (1 - a / b))
|}.

(** The same collaborators, but no timer fires while a [goto] is
    pending. *)
Definition quiet_bot : Bot World := {|
  clock := time;
  entity_position := standing;
  getPosition := standing;
  blockAt := blocks;
  getBiomeName := λ _, "plains";
  getNearbyBlockTypes := λ _ _, [];
  getNearbyEntityTypes := λ _, [];
  getNearestBlock := λ _ _ _, None;
  interrupt_code := interrupt;
  getPathTo := λ w _ _ _, (w, route w);
  goto := λ w goal, {| ticks := [];
                       settled := arrive w goal;
                       rejected := failure w |};
  Math_sqrt := λ q, inject_Z (Z.sqrt (Qfloor q));
  clamped_complement := λ a b,
    if Qeq_bool b 0 then 0%Q
    else Qmax 0 (Qmin 1 (1 - a / b))
|}.

(** A world of air in which the route search answers [r] and the timers
    fire [n] times during each [goto]. *)
Definition world (r : result PathfinderResult) (n : nat) : World :=
  {| blocks := air; standing := origin; time := 0; route := r;
     firings := n; failure := None; interrupt := false |}.



End Demo.

(** ** Vocabulary of the statements about the navigator *)

Module NavSpec.
Import EnhancedNavigation.
Section Spec.
Context {W : Type} `{Bot W}.

(** A method leaves a component of the state as it was, whether it
    returns or throws. *)
Definition preserves {A B} (proj : St W → B) (m : M W A) : Prop :=
  ∀ s, proj (m s).1 = proj s.

(** The components of the state that the statements are about. *)
Definition timers (s : St W) : gset nat * nat :=
  (intervals (rt s), next_interval (rt s)).
Definition moved (s : St W) : list GoalNear := moves (rt s).
Definition stuck (s : St W) : StuckDetection := stuckDetection (this s).
Definition history (s : St W) : list PathEntry := pathHistory (this s).
Definition installed (s : St W) : option Path := currentPath (this s).
Definition cache (s : St W) : gmap string PathRecord :=
  EnhancedMemoryBank.paths (memory (this s)).

(** The goal that [moveToCheckpoint] gives to the pathfinder. *)
Definition checkpoint_goal (cp : Vec3.t) : GoalNear :=
  {| gx := Vec3.x cp; gy := Vec3.y cp; gz := Vec3.z cp; grange := 1 |}.

(** The entry of the path history for a successful run. *)
Definition success_entry (start : Vec3.t) (end_ : option Vec3.t) (now : Z)
    : PathEntry :=
  {| pe_start := start; pe_end := end_; pe_timestamp := now;
     successful := true; pe_error := None |}.

(** The plan without waypoints that [planPathWithContext] starts from. *)
Definition empty_plan : Path :=
  {| waypoints := []; checkpoints := []; path_obstacles := [];
     contextualMarkers := [] |}.

(** The route search threw, or answered with a status other than
    ['success']. *)
Definition search_failed (res : result PathfinderResult) : Prop :=
  match res with
  | Ok r => pf_status r ≠ "success"
  | Throw _ => True
  end.

End Spec.
End NavSpec.

(** ** Scenarios of the navigator *)

Module NavScenario.
Import EnhancedNavigation.

Definition no_options : Options :=
  {| opt_canDig := None; opt_canPlace := None; opt_range := None;
     opt_checkpointInterval := None; opt_updateInterval := None |}.

(** A navigator that was just constructed, in the world [w]. *)
Definition idle (w : Demo.World) : St Demo.World :=
  {| world := w; this := new EnhancedMemoryBank.new;
     rt := {| intervals := ∅; next_interval := 0; console := [];
              moves := [] |} |}.

Definition east (i : Z) : Vec3.t :=
  {| Vec3.x := inject_Z i; Vec3.y := 0; Vec3.z := 0 |}.

(** A route of seven waypoints to the east. *)
Definition seven : list Vec3.t := east <$> seqZ 0 7.

Definition found (ws : list Vec3.t) : result PathfinderResult :=
  Ok {| pf_status := "success"; pf_path := ws |}.

(** The route search gives up and reports the part it has found. *)
Definition gave_up : result PathfinderResult :=
  Ok {| pf_status := "timeout"; pf_path := [east 0; east 1] |}.

(** A navigation along the seven waypoints. *)
Definition along_seven : St Demo.World * result bool :=
  moveToLocation (TargetPoint (east 6)) no_options
    (idle (Demo.world (found seven) 0)).

(** A route of two waypoints, from the origin to three blocks east of
    it.  Its only checkpoint is the first waypoint, where the bot stands:
    the distance from start to end is [Math.sqrt(9) = 3], and as long as
    the bot is at the origin the progress is [1 - 3 / 3 = 0], in doubles
    as here. *)
Definition short : list Vec3.t := [east 0; east 3].

(** A first navigation during which the progress monitor samples four
    times without progress. *)
Definition first_navigation : St Demo.World * result bool :=
  moveToLocation (TargetPoint (east 3)) no_options
    (idle (Demo.world (found short) 4)).

(** A second navigation of the same navigator, during which the monitor
    does not sample. *)
Definition second_navigation : St Demo.World * result bool :=
  moveToLocation (TargetPoint (east 3)) no_options
    (with_world (Demo.world (found short) 0) first_navigation.1).

(** A second navigation during which the monitor samples once. *)
Definition second_navigation_one_sample : St Demo.World * result bool :=
  moveToLocation (TargetPoint (east 3)) no_options
    (with_world (Demo.world (found short) 1) first_navigation.1).

End NavScenario.

(** ** Further vocabulary of the statements about the goal tracker *)

Module GoalMoreSpec.
Import GoalSystem.

(** The goal id that a call names, when it names one. *)
Definition op_goalId (op : Op) : option string :=
  match op with
  | OpSetMainGoal _ _ | OpAddSubGoal _ _ _ => None
  | OpUpdateGoalProgress g _ _ | OpRecordFailedAttempt g _
  | OpCompleteGoal g | OpFailGoal g _ => Some g
  end.

(** Neither completed nor failed. *)
Definition live (g : Goal.t) : Prop :=
  Goal.status g ≠ completed ∧ Goal.status g ≠ failed.

(** Pending or marked for revision. *)
Definition kept (g : Goal.t) : Prop :=
  Goal.status g = pending ∨ Goal.status g = needs_revision.

(** [goalId] is not the id of the main goal. *)
Definition not_main (goalId : string) (gs : GoalSystem.t) : Prop :=
  ∀ mg, mainGoal gs = Some mg → Goal.id mg ≠ goalId.

(** The subgoals whose id is not [goalId]. *)
Definition others (goalId : string) (l : list Goal.t) : list Goal.t :=
  List.filter (λ g, bool_decide (Goal.id g ≠ goalId)) l.

(** Failures of the goal [g], recorded one after the other. *)
Definition record_failures (g : string) (failures : list (Z * string))
    (gs : GoalSystem.t) : GoalSystem.t :=
  fold_left (λ s f, recordFailedAttempt f.1 g f.2 s) failures gs.

(** The sum of the stored progress of goals. *)
Definition total_progress (l : list Goal.t) : Z :=
  fold_left (λ sum goal, sum + Goal.progress goal) l 0.

(** The number of the attempts [a + 1 .. a + n] that exceed the threshold
    of three. *)
Definition beyond_threshold (a : Z) (n : nat) : nat :=
  Z.to_nat (Z.max 3 (a + Z.of_nat n) - Z.max 3 a).

(** A subgoal that depends on the main goal, which is then completed. *)
Definition waiting_for_main : list (Z * Op) :=
  [(1000, OpSetMainGoal "build a shelter" ∅);
   (1001, OpAddSubGoal "move in" [] ["goal_1000"]);
   (1002, OpCompleteGoal "goal_1000")].
End GoalMoreSpec.

(** ** Vocabulary of the statements about the memory and the terrain *)

Module MemorySpec.
Import EnhancedMemoryBank.

(** [rememberPath] of the same route, once for each use. *)
Definition remember_route (from to : string)
    (uses : list (Z * option (list Vec3.t) * option (list PathObstacle)))
    (m : t) : t :=
  fold_left (λ m use, rememberPath use.1.1 from to use.1.2 use.2 m) uses m.

(** How often a route was used, as the bank has it. *)
Definition uses_of (key : string) (m : t) : Z :=
  match paths m !! key with
  | Some p => useCount p
  | None => 0
  end.

(** The elevations of a terrain differ by at most [k]. *)
Definition spread_within (k : Z) (terrain : Terrain) : Prop :=
  ∀ key1 key2 y1 y2,
    elevation terrain !! key1 = Some y1 →
    elevation terrain !! key2 = Some y2 →
    y1 - y2 ≤ k.

(** The entry that [analyzeNearestResources] makes of a resource. *)
Definition resource_entry (r : Resource) : NearestResource :=
  {| nr_name := res_name r; nr_distance := res_nearest r;
     nr_quantity := res_count r; nr_accessible := true |}.

(** The order of the entries by distance. *)
Definition not_farther (a b : NearestResource) : Prop :=
  (nr_distance a <= nr_distance b)%Q.

(** The entries of an array that are truthy. *)
Definition truthy {A} (l : list (option A)) : list A := omap id l.

Section Spec.
Context {W : Type} `{Bot W}.

(** The entry of a landmark in the result of a query from [position]. *)
Definition landmark_entry (position : Vec3.t) (name : string) (l : Landmark)
    : VisibleLandmark :=
  {| vl_name := name;
     vl_distance := calculateDistance position (lm_position l);
     vl_landmark := l |}.

(** At the height [y] of the column at [(x, z)], air lies on a block that
    is not air. *)
Definition surface_at (w : W) (x z : Q) (y : Z) : Prop :=
  ∃ block blockBelow,
    blockAt w (TerrainScanner.column x y z) = Some block ∧
    blockAt w (TerrainScanner.column x (y - 1) z) = Some blockBelow ∧
    name block = "air" ∧ name blockBelow ≠ "air".

End Spec.

(** A world whose clock has started. *)
Definition later : Demo.World :=
  {| Demo.blocks := Demo.air; Demo.standing := Demo.origin; Demo.time := 7500;
     Demo.route := Throw (Error "No path"); Demo.firings := 0;
     Demo.failure := None; Demo.interrupt := false |}.

(** A bank with five landmarks along the axis to the east. *)
Definition five_landmarks : EnhancedMemoryBank.t :=
  addLandmark 5 "beacon" (100, 0, 0)%Q "a beacon far away" "built"
    (addLandmark 4 "mine" (6, 0, 0)%Q "an old mine" "natural"
       (addLandmark 3 "gate" (1, 0, 0)%Q "the village gate" "built"
          (addLandmark 2 "well" (10, 0, 0)%Q "a well" "built"
             (addLandmark 1 "tower" (3, 0, 0)%Q "a stone tower" "built"
                EnhancedMemoryBank.new)))).

End MemorySpec.

(** ** Vocabulary of further statements about the navigator *)

Module NavRunSpec.
Import EnhancedNavigation NavSpec.

(** The entry of the path history for a run that failed. *)
Definition failure_entry (start : Vec3.t) (end_ : option Vec3.t) (now : Z)
    (error : string) : PathEntry :=
  {| pe_start := start; pe_end := end_; pe_timestamp := now;
     successful := false; pe_error := Some error |}.

(** The errors that the loop over the checkpoints throws. *)
Definition navigation_error (e : JsError) : Prop :=
  e = Error "Navigation interrupted" ∨
  (∃ msg, e = Error ("Failed to reach checkpoint: " +:+ msg)) ∨
  e = Error "Navigation verification failed: Off course".

(** Of [n] samples in a row, those (counted from 1) at which the stuck
    time has reached the threshold, when every sample adds a second. *)
Definition warned (sd : StuckDetection) (n : nat) : list Z :=
  List.filter (λ k, bool_decide (stuckThreshold sd ≤ stuckTime sd + 1000 * k))
    (seqZ 1 (Z.of_nat n)).

(** The call [console.warn('Bot appears to be stuck in navigation')]. *)
Definition stuck_warning : list ConsoleArg :=
  [Text "Bot appears to be stuck in navigation"].

Section Spec.
Context {W : Type} `{Bot W}.

(** The progress monitor fires [n] times in a row. *)
Definition samples (n : nat) : M W unit :=
  for_of (replicate n ()) (λ _, updateNavigationProgress).

End Spec.

(** A world in which the route is found and every [goto] fails. *)
Definition blocked : Demo.World :=
  {| Demo.blocks := Demo.air; Demo.standing := Demo.origin; Demo.time := 7500;
     Demo.route := NavScenario.found NavScenario.seven; Demo.firings := 0;
     Demo.failure := Some "No path to the goal"; Demo.interrupt := false |}.

(** A world in which the route is found and the bot is interrupted. *)
Definition interrupted : Demo.World :=
  {| Demo.blocks := Demo.air; Demo.standing := Demo.origin; Demo.time := 7500;
     Demo.route := NavScenario.found NavScenario.seven; Demo.firings := 0;
     Demo.failure := None; Demo.interrupt := true |}.

(** The plan along the seven waypoints. *)
Definition plan_seven : Path :=
  {| waypoints := NavScenario.seven;
     checkpoints := checkpoints_from NavScenario.seven 5 0;
     path_obstacles := []; contextualMarkers := [] |}.

(** A navigator on its way along the seven waypoints, at the origin. *)
Definition under_way : St Demo.World :=
  {| world := Demo.world (NavScenario.found NavScenario.seven) 0;
     this := set_lastPosition (Some Demo.origin)
               (set_currentPath (Some plan_seven) (new EnhancedMemoryBank.new));
     rt := {| intervals := {[0%nat]}; next_interval := 1; console := [];
              moves := [] |} |}.

End NavRunSpec.

(** * Properties *)

(** ** Goal tracker *)

Module GoalSystemProps.
Import GoalSystem GoalSpec.

(** *** References *)

Lemma find_index_ids goalId l l' k :
  Goal.id <$> l = Goal.id <$> l' → find_index goalId l k = find_index goalId l' k.
Proof.
  revert l' k. induction l as [|a l IH]; intros [|a' l'] k Heq;
    simplify_eq/=; auto.
  rewrite H. destruct (decide _); auto.
Qed.

Lemma find_index_bound goalId l k i :
  find_index goalId l k = Some i → (k ≤ i < k + length l)%nat.
Proof.
  revert k. induction l as [|a l IH]; intros k Hf; simplify_eq/=.
  destruct (decide _); simplify_eq; [lia|].
  apply IH in Hf. lia.
Qed.

Lemma find_index_lookup goalId l k i :
  find_index goalId l k = Some i →
  ∃ g, l !! (i - k)%nat = Some g ∧ Goal.id g = goalId.
Proof.
  revert k. induction l as [|a l IH]; intros k Hf; simplify_eq/=.
  destruct (decide _) as [Heq|Hne]; simplify_eq.
  - replace (i - i)%nat with 0%nat by lia. eauto.
  - pose proof (find_index_bound _ _ _ _ Hf) as Hb.
    destruct (IH _ Hf) as (g & Hl & Hid).
    exists g. split; [|done].
    replace (i - k)%nat with (S (i - S k)) by lia. done.
Qed.

(** A reference that [findGoal] returns points to a goal with that id. *)
Lemma findGoalRef_deref goalId gs r :
  findGoalRef goalId gs = Some r →
  ∃ g, deref r gs = Some g ∧ Goal.id g = goalId.
Proof.
  unfold findGoalRef. intros Hf.
  assert (Hsub : RefSub <$> find_index goalId (subGoals gs) 0 = Some r →
                 ∃ g, deref r gs = Some g ∧ Goal.id g = goalId).
  { intros Hs. destruct (find_index _ _ _) as [i|] eqn:Hi; simplify_eq/=.
    apply find_index_lookup in Hi. by rewrite Nat.sub_0_r in Hi. }
  destruct (mainGoal gs) as [mg|] eqn:Hm; [|auto].
  destruct (decide _); [|auto]. simplify_eq/=. eauto.
Qed.

Lemma deref_mutate r f gs : deref r (mutate r f gs) = f <$> deref r gs.
Proof. destruct r; simpl; [done|]. apply list_lookup_alter_eq. Qed.

Lemma findGoalRef_mutate goalId r f gs :
  (∀ g, Goal.id (f g) = Goal.id g) →
  findGoalRef goalId (mutate r f gs) = findGoalRef goalId gs.
Proof.
  intros Hid. unfold findGoalRef. destruct r as [|i]; simpl.
  - destruct (mainGoal gs); simpl; [|done]. by rewrite Hid.
  - rewrite (find_index_ids goalId (alter f i (subGoals gs)) (subGoals gs)); [done|].
    rewrite (list_fmap_alter Goal.id f (λ x, x)).
    + clear. revert i. induction (subGoals gs) as [|a l IH]; intros [|i]; simpl; auto.
      f_equal. apply IH.
    + apply Forall_forall. auto.
Qed.

Lemma strategyAdaptations_mutate r f gs :
  strategyAdaptations (mutate r f gs) = strategyAdaptations gs.
Proof. by destruct r. Qed.

(** *** Failed attempts *)

(** One call of [recordFailedAttempt] on a goal that exists. *)
Lemma recordFailedAttempt_spec now g reason gs r goal :
  findGoalRef g gs = Some r → deref r gs = Some goal →
  let gs' := recordFailedAttempt now g reason gs in
  findGoalRef g gs' = Some r ∧
  ∃ goal', deref r gs' = Some goal' ∧
    Goal.attempts goal' = Goal.attempts goal + 1 ∧
    Goal.id goal' = Goal.id goal ∧
    if decide (3 < Goal.attempts goal + 1) then
      Goal.status goal' = needs_revision ∧
      strategyAdaptations gs' =
        strategyAdaptations gs ++
          [{| goalId := Goal.id goal; timestamp := now;
              previousAttempts := Goal.attempts goal + 1;
              reason := adaptation_reason reason |}]
    else
      Goal.status goal' = Goal.status goal ∧
      strategyAdaptations gs' = strategyAdaptations gs.
Proof.
  intros Hr Hd gs'. subst gs'. unfold recordFailedAttempt. rewrite Hr.
  rewrite deref_mutate, Hd. simpl.
  destruct (decide (3 < Goal.attempts goal + 1)) as [Hgt|Hle].
  - unfold adaptStrategy. rewrite deref_mutate, Hd. simpl.
    split.
    + rewrite findGoalRef_mutate by done.
      etrans; [|exact Hr].
      rewrite <- (findGoalRef_mutate g r (Goal.record_attempt now reason) gs) by done.
      by destruct r.
    + eexists. split.
      { rewrite deref_mutate.
        replace (deref r _)
          with (deref r (mutate r (Goal.record_attempt now reason) gs))
          by (by destruct r).
        rewrite deref_mutate, Hd. simpl. reflexivity. }
      simpl. split_and!; try done.
      rewrite strategyAdaptations_mutate. simpl.
      by rewrite strategyAdaptations_mutate.
  - split; [by rewrite findGoalRef_mutate|].
    eexists. split; [by rewrite deref_mutate, Hd|].
    simpl. split_and!; try done. by rewrite strategyAdaptations_mutate.
Qed.

(** C8.  A goal that exists and has no recorded attempt: the first three
    calls of [recordFailedAttempt] on it leave the strategy-adaptation
    log and the status of the goal as they were; after the fourth call
    the goal has status [needs_revision] and the log has grown by exactly
    one record, which references the goal and records 4 attempts. *)
Theorem four_failed_attempts gs g goal t1 r1 t2 r2 t3 r3 t4 r4 :
  findGoal g gs = Some goal →
  Goal.attempts goal = 0 →
  let gs1 := recordFailedAttempt t1 g r1 gs in
  let gs2 := recordFailedAttempt t2 g r2 gs1 in
  let gs3 := recordFailedAttempt t3 g r3 gs2 in
  let gs4 := recordFailedAttempt t4 g r4 gs3 in
  (strategyAdaptations gs1 = strategyAdaptations gs ∧
   strategyAdaptations gs2 = strategyAdaptations gs ∧
   strategyAdaptations gs3 = strategyAdaptations gs) ∧
  (∃ goal3, findGoal g gs3 = Some goal3 ∧
            Goal.attempts goal3 = 3 ∧ Goal.status goal3 = Goal.status goal) ∧
  (∃ goal4 record,
      findGoal g gs4 = Some goal4 ∧
      Goal.attempts goal4 = 4 ∧
      Goal.status goal4 = needs_revision ∧
      strategyAdaptations gs4 = strategyAdaptations gs ++ [record] ∧
      goalId record = g ∧
      previousAttempts record = 4 ∧
      length (adaptations_of g gs4) = S (length (adaptations_of g gs))).
Proof.
  intros Hfind Hzero gs1 gs2 gs3 gs4.
  unfold findGoal in Hfind.
  destruct (findGoalRef g gs) as [r|] eqn:Hr; [|done]. simpl in Hfind.
  destruct (findGoalRef_deref _ _ _ Hr) as (goal0 & Hd0 & Hid). simplify_eq.
  destruct (recordFailedAttempt_spec t1 _ r1 _ _ _ Hr Hfind)
    as (Hr1 & goal1 & Hd1 & Ha1 & Hi1 & Hs1).
  destruct (recordFailedAttempt_spec t2 _ r2 _ _ _ Hr1 Hd1)
    as (Hr2 & goal2 & Hd2 & Ha2 & Hi2 & Hs2).
  destruct (recordFailedAttempt_spec t3 _ r3 _ _ _ Hr2 Hd2)
    as (Hr3 & goal3 & Hd3 & Ha3 & Hi3 & Hs3).
  destruct (recordFailedAttempt_spec t4 _ r4 _ _ _ Hr3 Hd3)
    as (Hr4 & goal4 & Hd4 & Ha4 & Hi4 & Hs4).
  subst gs1 gs2 gs3 gs4.
  repeat case_decide; try lia.
  destruct Hs1 as [Hs1 Hl1], Hs2 as [Hs2 Hl2], Hs3 as [Hs3 Hl3], Hs4 as [Hs4 Hl4].
  split_and!.
  - done.
  - by rewrite Hl2, Hl1.
  - by rewrite Hl3, Hl2, Hl1.
  - exists goal3. unfold findGoal. rewrite Hr3. simpl.
    split_and!; [done|lia|]. by rewrite Hs3, Hs2, Hs1.
  - eexists goal4, _. unfold findGoal. rewrite Hr4. simpl.
    split_and!; [done|lia|done| | | |].
    + rewrite Hl4, Hl3, Hl2, Hl1. reflexivity.
    + simpl. by rewrite Hi3, Hi2, Hi1.
    + simpl. lia.
    + unfold adaptations_of. rewrite Hl4, Hl3, Hl2, Hl1.
      rewrite List.filter_app, length_app. simpl.
      rewrite bool_decide_true by congruence. simpl. lia.
Qed.

Lemma four_failed_attempts_witness :
  ∃ goal4 record,
    findGoal GoalScenario.a_id (run GoalScenario.four_failures GoalScenario.start.1)
      = Some goal4 ∧
    Goal.attempts goal4 = 4 ∧
    Goal.status goal4 = needs_revision ∧
    strategyAdaptations (run GoalScenario.four_failures GoalScenario.start.1)
      = strategyAdaptations GoalScenario.start.1 ++ [record] ∧
    goalId record = GoalScenario.a_id ∧
    previousAttempts record = 4 ∧
    length (adaptations_of GoalScenario.a_id
              (run GoalScenario.four_failures GoalScenario.start.1)) =
      S (length (adaptations_of GoalScenario.a_id GoalScenario.start.1)).
Proof.
  edestruct (four_failed_attempts GoalScenario.start.1 GoalScenario.a_id)
    as (_ & _ & H); [vm_compute; reflexivity | reflexivity | exact H].
Defined.

(** *** Progress of the main goal *)

Lemma filter_length_0 {A} (f : A → bool) (l : list A) :
  length (List.filter f l) = 0%nat ↔ ∀ x, x ∈ l → f x = false.
Proof.
  induction l as [|a l IH]; simpl.
  - split; [intros _ x Hx; by apply elem_of_nil in Hx|done].
  - destruct (f a) eqn:Hfa; simpl.
    + split; [done|]. intros Hall. specialize (Hall a ltac:(by apply elem_of_cons; left)).
      congruence.
    + rewrite IH. split.
      * intros Hall x Hx. apply elem_of_cons in Hx as [->|Hx]; auto.
      * intros Hall x Hx. apply Hall. apply elem_of_cons. by right.
Qed.

(** With a main goal and at least one subgoal that is neither completed
    nor failed, the recomputation is the floor of the mean over all
    subgoals. *)
Lemma updateMainGoalProgress_mean gs mg :
  mainGoal gs = Some mg →
  (∃ g, g ∈ subGoals gs ∧ is_active g = true) →
  main_progress (updateMainGoalProgress gs) =
    Some (fold_left (λ sum goal, sum + contribution goal) (subGoals gs) 0
            `div` Z.of_nat (length (subGoals gs))).
Proof.
  intros Hm (g & Hg & Ha). unfold updateMainGoalProgress. rewrite Hm.
  case_decide as Hlen.
  - rewrite filter_length_0 in Hlen. specialize (Hlen g Hg). congruence.
  - unfold main_progress. simpl. by rewrite Hm.
Qed.

(** C1.  In the scenario of the specification, the main goal is at 50
    once the two subgoals are at 40 and 60; when the first subgoal is then
    completed it is taken out of [subGoals] before the recomputation, and
    the main goal goes to 60, the progress of the one subgoal that is
    left, instead of 80. *)
Theorem scenario_completed_subgoal_not_counted :
  main_progress GoalScenario.at_40_60 = Some 50 ∧
  main_progress GoalScenario.a_completed = Some 60 ∧
  Goal.id <$> subGoals GoalScenario.a_completed = [GoalScenario.b_id] ∧
  Goal.id <$> completedGoals GoalScenario.a_completed = [GoalScenario.a_id].
Proof. vm_compute. done. Qed.

(** *** Starting a goal *)

(** What [canStartGoal] decides for a goal that has both lists. *)
Lemma canStartGoal_subgoal gs g goal pre deps :
  findGoal g gs = Some goal →
  Goal.prerequisites goal = Some pre →
  Goal.dependencies goal = Some deps →
  ∃ b, canStartGoal g gs = Ok b ∧
    (b = true ↔
     (∀ p, p ∈ pre → ∀ pg, findGoal p gs = Some pg → Goal.status pg = completed) ∧
     (∀ d, d ∈ deps → ∃ dg, findGoal d gs = Some dg ∧ Goal.status dg = completed)).
Proof.
  intros Hfind Hpre Hdeps. unfold canStartGoal, getPendingPrerequisites.
  rewrite Hfind, Hpre, Hdeps. simpl.
  set (fp := λ preReqId : string, _). set (fd := λ depId : string, _).
  assert (Hp : length (List.filter fp pre) = 0%nat ↔
               ∀ p, p ∈ pre → ∀ pg, findGoal p gs = Some pg →
                 Goal.status pg = completed).
  { rewrite filter_length_0. apply forall_proper; intros p.
    apply forall_proper; intros Hin. subst fp. simpl.
    destruct (findGoal p gs) as [pg|]; [|split; [intros _ pg' [=]|done]].
    rewrite bool_decide_eq_false. split.
    - intros Hnn pg' [= <-]. by apply dec_stable.
    - intros Hc Hne. by apply Hne, Hc. }
  assert (Hd : length (List.filter fd deps) = 0%nat ↔
               ∀ d, d ∈ deps → ∃ dg, findGoal d gs = Some dg ∧
                 Goal.status dg = completed).
  { rewrite filter_length_0. apply forall_proper; intros d.
    apply forall_proper; intros Hin. subst fd. simpl.
    destruct (findGoal d gs) as [dg|];
      [|split; [done|intros (dg' & [=] & _)]].
    rewrite bool_decide_eq_false. split.
    - intros Hnn. exists dg. split; [done|]. by apply dec_stable.
    - intros (dg' & [= <-] & Hc) Hne. by apply Hne. }
  case_decide as Hlen.
  - eexists. split; [done|]. split; [done|]. intros [Hall _].
    apply Hp in Hall. lia.
  - eexists. split; [done|]. rewrite bool_decide_eq_true, Hd.
    split; [|by intros [_ HD]]. intros Hdeps'. split; [|done].
    apply Hp. lia.
Qed.

(** On the main goal, which has no list of prerequisites, [canStartGoal]
    throws. *)
Lemma canStartGoal_main_goal_throws :
  ∃ msg, canStartGoal GoalScenario.main_id GoalScenario.start.1 = Throw (TypeError msg).
Proof. eexists. by vm_compute. Qed.

(** C2.  A subgoal whose only prerequisite is an id that resolves to no
    goal may start: [getPendingPrerequisites] drops an id that
    [findGoal] does not resolve.  The filter of the dependencies in
    [canStartGoal] keeps such an id: the same subgoal with the id as its
    only dependency may not start. *)
Theorem canStartGoal_missing_prerequisite :
  (let (gs, g) := GoalScenario.with_ghost_prerequisite in
   findGoal "subgoal_0_99" gs = None ∧
   (Goal.prerequisites <$> findGoal g gs) = Some (Some ["subgoal_0_99"]) ∧
   getPendingPrerequisites g gs = Ok [] ∧
   canStartGoal g gs = Ok true) ∧
  (let (gs, g) := GoalScenario.with_ghost_dependency in
   findGoal "subgoal_0_99" gs = None ∧
   (Goal.dependencies <$> findGoal g gs) = Some (Some ["subgoal_0_99"]) ∧
   canStartGoal g gs = Ok false).
Proof. vm_compute. done. Qed.

(** *** Range of the stored progress *)

Lemma progress_in_range_alt gs :
  progress_in_range gs ↔
  Forall in_range (option_list (mainGoal gs)) ∧ Forall in_range (subGoals gs) ∧
  Forall in_range (completedGoals gs) ∧ Forall in_range (failedGoals gs).
Proof. unfold progress_in_range, all_goals. by rewrite !Forall_app. Qed.

Lemma mutate_in_range r f gs :
  (∀ g, in_range g → in_range (f g)) →
  progress_in_range gs → progress_in_range (mutate r f gs).
Proof.
  intros Hf. rewrite !progress_in_range_alt. intros (Hm & Hs & Hc & Hfl).
  destruct r as [|i]; simpl; split_and!; try done.
  - destruct (mainGoal gs); simpl in *; [|constructor].
    apply Forall_singleton. apply Hf. by apply Forall_inv in Hm.
  - apply Forall_alter; [done|]. intros x _. apply Hf.
Qed.

Lemma mutate_main_in_range p gs :
  0 ≤ p ≤ 100 →
  progress_in_range gs → progress_in_range (mutate RefMain (Goal.set_main_progress p) gs).
Proof.
  intros Hp. rewrite !progress_in_range_alt. intros (Hm & Hs & Hc & Hfl).
  simpl; split_and!; try done.
  destruct (mainGoal gs); simpl in *; [|constructor].
  by apply Forall_singleton.
Qed.

Lemma total_bounds l a :
  Forall in_range l →
  a ≤ fold_left (λ sum goal, sum + contribution goal) l a ≤ a + 100 * Z.of_nat (length l).
Proof.
  intros Hl. revert a. induction Hl as [|g l Hg Hl IH]; intros a; simpl; [lia|].
  specialize (IH (a + contribution g)).
  assert (0 ≤ contribution g ≤ 100).
  { unfold contribution. case_decide; [lia|exact Hg]. }
  lia.
Qed.

Lemma updateMainGoalProgress_in_range gs :
  progress_in_range gs → progress_in_range (updateMainGoalProgress gs).
Proof.
  intros Hinv. unfold updateMainGoalProgress.
  destruct (mainGoal gs) as [mg|] eqn:Hm; [|done].
  assert (Hmg : in_range mg).
  { apply progress_in_range_alt in Hinv as (H & _). rewrite Hm in H.
    by apply Forall_inv in H. }
  case_decide.
  - apply mutate_main_in_range; [|done]. case_decide; [lia|exact Hmg].
  - apply mutate_main_in_range; [|done].
    apply progress_in_range_alt in Hinv as (_ & Hs & _).
    pose proof (total_bounds _ 0 Hs) as Hb.
    destruct (subGoals gs) as [|g l] eqn:Hsub; [done|].
    set (n := Z.of_nat (length (g :: l))) in *.
    assert (0 < n) by (subst n; simpl; lia).
    split.
    + apply Z.div_pos; lia.
    + apply Z.div_le_upper_bound; lia.
Qed.

Lemma remove_subgoal_in_range g gs :
  progress_in_range gs → progress_in_range (remove_subgoal g gs).
Proof.
  rewrite !progress_in_range_alt. intros (Hm & Hs & Hc & Hfl).
  assert (Hflt : Forall in_range (List.filter (λ g0, bool_decide (Goal.id g0 ≠ g)) (subGoals gs))).
  { apply Forall_forall. intros x Hx. apply list_elem_of_In, List.filter_In in Hx as [Hx _].
    rewrite Forall_forall in Hs. apply Hs. by apply list_elem_of_In. }
  unfold remove_subgoal. destruct (mainGoal gs) eqn:Hmain; [case_decide|]; simpl; rewrite ?Hmain; split_and!; try done.
  all: by rewrite Hmain in Hm.
Qed.

Lemma deref_in_range r gs :
  progress_in_range gs → Forall in_range (option_list (deref r gs)).
Proof.
  rewrite progress_in_range_alt. intros (Hm & Hs & _).
  destruct r as [|i]; simpl; [done|].
  destruct (subGoals gs !! i) as [g|] eqn:Hg; simpl; [|done].
  apply Forall_singleton. rewrite Forall_forall in Hs. apply Hs.
  by eapply list_elem_of_lookup_2.
Qed.

Lemma step_in_range gs call :
  argument_in_range call → progress_in_range gs → progress_in_range (step gs call).
Proof.
  destruct call as [now op]. intros Harg Hinv.
  destruct op as [goal ctx|d p q|g progress ctx|g why|g|g why]; simpl in *.
  - (* setMainGoal *)
    apply progress_in_range_alt in Hinv as (Hm & Hs & Hc & Hfl).
    apply progress_in_range_alt; simpl; split_and!; try done.
    apply Forall_singleton. unfold in_range; simpl; lia.
  - (* addSubGoal *)
    apply progress_in_range_alt in Hinv as (Hm & Hs & Hc & Hfl).
    apply progress_in_range_alt; simpl; split_and!; try done.
    apply Forall_app; split; [done|]. apply Forall_singleton.
    unfold in_range; simpl; lia.
  - (* updateGoalProgress *)
    unfold updateGoalProgress. destruct (findGoalRef _ _) as [r|]; [|done].
    assert (Hinv1 : progress_in_range (mutate r (Goal.set_progress progress now ctx) gs)).
    { apply mutate_in_range; [|done]. intros x _. exact Harg. }
    destruct (mainGoal _); [|done]. case_decide; [|done].
    by apply updateMainGoalProgress_in_range.
  - (* recordFailedAttempt *)
    unfold recordFailedAttempt. destruct (findGoalRef _ _) as [r|]; [|done].
    assert (Hinv1 : progress_in_range (mutate r (Goal.record_attempt now why) gs)).
    { apply mutate_in_range; [|done]. by intros x Hx. }
    destruct (deref _ _) as [goal|] eqn:Hd; [|done]. case_decide; [|done].
    unfold adaptStrategy. rewrite Hd.
    apply mutate_in_range; [by intros x Hx|].
    apply progress_in_range_alt in Hinv1 as (Hm & Hs & Hc & Hfl).
    by apply progress_in_range_alt.
  - (* completeGoal *)
    unfold completeGoal. destruct (findGoalRef _ _) as [r|]; [|done].
    assert (Hinv1 : progress_in_range (mutate r (Goal.mark_completed now) gs)).
    { apply mutate_in_range; [|done]. by intros x Hx. }
    apply updateMainGoalProgress_in_range, remove_subgoal_in_range.
    pose proof (deref_in_range r _ Hinv1) as Hd.
    apply progress_in_range_alt in Hinv1 as (Hm & Hs & Hc & Hfl).
    apply progress_in_range_alt; simpl; split_and!; try done.
    by apply Forall_app.
  - (* failGoal *)
    unfold failGoal. destruct (findGoalRef _ _) as [r|]; [|done].
    assert (Hinv1 : progress_in_range (mutate r (Goal.mark_failed now why) gs)).
    { apply mutate_in_range; [|done]. by intros x Hx. }
    apply updateMainGoalProgress_in_range, remove_subgoal_in_range.
    pose proof (deref_in_range r _ Hinv1) as Hd.
    apply progress_in_range_alt in Hinv1 as (Hm & Hs & Hc & Hfl).
    apply progress_in_range_alt; simpl; split_and!; try done.
    by apply Forall_app.
Qed.

(** C3, as the code has it.  [updateGoalProgress] stores its argument as
    it is; nothing clamps.  When every progress argument passed to
    [updateGoalProgress] is within [0,100], the stored progress of every
    goal (the main goal, the subgoals and the snapshots kept in
    [completedGoals] and [failedGoals]) is within [0,100] after every
    sequence of calls on a new tracker. *)
Theorem progress_in_range_when_arguments_are calls :
  Forall argument_in_range calls → progress_in_range (run calls new).
Proof.
  intros Hcalls. unfold run.
  assert (Hnew : progress_in_range new) by (by apply progress_in_range_alt).
  revert Hnew. generalize new.
  induction Hcalls as [|call calls Hcall Hcalls IH]; intros gs Hgs; simpl; [done|].
  apply IH. by apply step_in_range.
Qed.

Lemma progress_in_range_when_arguments_are_witness :
  progress_in_range (run GoalScenario.in_range_calls new).
Proof.
  apply progress_in_range_when_arguments_are.
  repeat constructor; simpl; lia.
Defined.

(** C3, as the specification has it, fails: a progress argument of 150 is
    stored as 150. *)
Lemma progress_not_clamped :
  main_progress (run GoalScenario.out_of_range_calls new) = Some 150 ∧
  ¬ (∀ calls, progress_in_range (run calls new)).
Proof.
  split; [by vm_compute|].
  intros Hall. specialize (Hall GoalScenario.out_of_range_calls).
  apply Forall_inv in Hall. destruct Hall as [_ Hle].
  vm_compute in Hle. by apply Hle.
Qed.

End GoalSystemProps.

(** ** Sightlines *)

Module ScannerProps.
Import EnvironmentScanner SightSpec.

Section WithBot.
Context {W : Type} `{Bot W}.

Lemma for_y_column (sy : Q) :
  for_y (sy - 1) (sy + 2) =
  [(sy - 1)%Q; (sy - 1 + 1)%Q; (sy - 1 + 1 + 1)%Q; (sy - 1 + 1 + 1 + 1)%Q].
Proof.
  do 5 (simp for_y; destruct (Qlt_le_dec _ _); simpl; try (exfalso; lra)).
  reflexivity.
Qed.

Lemma blocks_sight_true b :
  blocks_sight b = true ↔ name b ≠ "air" ∧ name b ≠ "cave_air".
Proof.
  unfold blocks_sight. rewrite andb_true_iff, !bool_decide_eq_true. done.
Qed.

Lemma blocks_sight_false b :
  blocks_sight b = false ↔ name b = "air" ∨ name b = "cave_air".
Proof.
  unfold blocks_sight. rewrite andb_false_iff, !bool_decide_eq_false.
  split; (intros [Hn|Hn]; [left|right]);
    first [ by apply dec_stable | by intros Hne ].
Qed.

Lemma check_column_Some w x z ys block :
  check_column w x z ys = Some block →
  first_blocker w (at_height x z <$> ys) block.
Proof.
  induction ys as [|y ys IH]; simpl; [done|].
  destruct (blockAt w _) as [b|] eqn:Hb.
  - destruct (blocks_sight b) eqn:Hs.
    + intros [= ->]. apply blocks_sight_true in Hs as [? ?].
      exists 0%nat, (at_height x z y). split_and!; try done. intros j q Hj. lia.
    + intros Hrest. destruct (IH Hrest) as (i & p & Hi & Hp & Hn1 & Hn2 & Hbefore).
      exists (S i), p. split_and!; try done.
      intros [|j] q Hj Hq; simplify_eq/=.
      * unfold passable. unfold at_height. rewrite Hb. by apply blocks_sight_false.
      * apply (Hbefore j); [lia|done].
  - intros Hrest. destruct (IH Hrest) as (i & p & Hi & Hp & Hn1 & Hn2 & Hbefore).
    exists (S i), p. split_and!; try done.
    intros [|j] q Hj Hq; simplify_eq/=.
    * unfold passable. unfold at_height. by rewrite Hb.
    * apply (Hbefore j); [lia|done].
Qed.

Lemma check_column_None w x z ys :
  check_column w x z ys = None →
  Forall (passable w) (at_height x z <$> ys).
Proof.
  induction ys as [|y ys IH]; simpl; [constructor|].
  destruct (blockAt w _) as [b|] eqn:Hb.
  - destruct (blocks_sight b) eqn:Hs; [done|].
    intros Hrest. constructor; [|auto].
    unfold passable, at_height. rewrite Hb. by apply blocks_sight_false.
  - intros Hrest. constructor; [|auto].
    unfold passable, at_height. by rewrite Hb.
Qed.

Lemma march_Some w start dx dz dists dist block :
  march w start dx dz dists = Some (dist, block) →
  ∃ i : nat, dists !! i = Some dist ∧
    column_at w start dx dz dist = Some block ∧
    ∀ (j : nat) d, (j < i)%nat → dists !! j = Some d →
      column_at w start dx dz d = None.
Proof.
  induction dists as [|d0 dists IH]; cbn [march]; [done|].
  fold (column_at w start dx dz d0).
  destruct (column_at w start dx dz d0) as [b|] eqn:Hc.
  - intros ?; simplify_eq. exists 0%nat. split_and!; try done. intros; lia.
  - intros Hrest. destruct (IH Hrest) as (i & Hi & Hcol & Hbefore).
    exists (S i). split_and!; try done.
    intros [|j] d Hj Hd; simplify_eq/=; [done|].
    apply (Hbefore j); [lia|done].
Qed.

Lemma march_None w start dx dz dists :
  march w start dx dz dists = None →
  ∀ d, d ∈ dists → column_at w start dx dz d = None.
Proof.
  induction dists as [|d0 dists IH]; cbn [march];
    [intros _ d Hd; by apply elem_of_nil in Hd|].
  fold (column_at w start dx dz d0).
  destruct (column_at w start dx dz d0) as [b|] eqn:Hc; [done|].
  intros Hrest d Hd. apply elem_of_cons in Hd as [->|Hd]; auto.
Qed.

Lemma slab_column start dx dz dist :
  slab start dx dz dist =
  at_height (Math_floor (Vec3.x start + inject_Z (dx * dist)))
            (Math_floor (Vec3.z start + inject_Z (dz * dist)))
    <$> for_y (Vec3.y start - 1) (Vec3.y start + 2).
Proof. by rewrite for_y_column. Qed.

Lemma checkSightline_report w start dx dz :
  sightline_report w start dx dz (checkSightline w start dx dz).
Proof.
  unfold checkSightline, sightline_report.
  destruct (march _ _ _ _ _) as [[dist block]|] eqn:Hm; simpl.
  - split; [done|]. right. exists dist, block.
    apply march_Some in Hm as (i & Hi & Hcol & Hbefore).
    apply lookup_seqZ in Hi as [-> Hi]. unfold maxDist in Hi.
    split_and!; try done; try lia.
    + rewrite slab_column. by apply check_column_Some.
    + intros d Hd. rewrite slab_column. apply check_column_None.
      apply (Hbefore (Z.to_nat (d - 1))); [lia|].
      apply lookup_seqZ. unfold maxDist. lia.
  - split; [done|]. left. split_and!; try done.
    intros d Hd. rewrite slab_column. apply check_column_None.
    apply (march_None _ _ _ _ _ Hm). apply elem_of_seqZ. unfold maxDist. lia.
Qed.





End WithBot.



End ScannerProps.

(** ** Spatial memory *)

Module MemoryProps.
Import EnhancedMemoryBank.

(** C9.  Loading the snapshot of a memory [m] into any memory bank gives
    that bank the four tables of [m] and leaves its spatial context and
    its time of last update as they were.  For every argument of
    [loadJson], a table whose key is present replaces the table of the
    bank, and a table whose key is absent leaves it unchanged. *)
Theorem getJson_loadJson_roundtrip (m bank : EnhancedMemoryBank.t) (json : MemoryJson) :
  (locations (loadJson (getJson m) bank) = locations m ∧
   regions (loadJson (getJson m) bank) = regions m ∧
   landmarks (loadJson (getJson m) bank) = landmarks m ∧
   paths (loadJson (getJson m) bank) = paths m ∧
   spatialContext (loadJson (getJson m) bank) = spatialContext bank ∧
   lastUpdate (loadJson (getJson m) bank) = lastUpdate bank) ∧
  (locations (loadJson json bank) = default (locations bank) (json_locations json) ∧
   regions (loadJson json bank) = default (regions bank) (json_regions json) ∧
   landmarks (loadJson json bank) = default (landmarks bank) (json_landmarks json) ∧
   paths (loadJson json bank) = default (paths bank) (json_paths json) ∧
   spatialContext (loadJson json bank) = spatialContext bank ∧
   lastUpdate (loadJson json bank) = lastUpdate bank).
Proof.
  split; [done|].
  destruct json as [[l|] [r|] [k|] [p|]]; done.
Qed.

(** A snapshot that is loaded into the memory it was taken from changes
    nothing. *)
Lemma loadJson_getJson_id (m : EnhancedMemoryBank.t) : loadJson (getJson m) m = m.
Proof. by destruct m. Qed.

End MemoryProps.

(** ** Navigator *)

Module NavigationProps.
Import EnhancedNavigation NavSpec.

Section Frames.
Context {W : Type} `{Bot W}.

Lemma preserves_ret {A B} (proj : St W → B) (a : A) : preserves proj (ret a).
Proof. by intros s. Qed.

Lemma preserves_throw {A B} (proj : St W → B) e : preserves proj (throw (A:=A) e).
Proof. by intros s. Qed.

Lemma preserves_get {B} (proj : St W → B) : preserves proj get.
Proof. by intros s. Qed.

Lemma preserves_bind {A A' B} (proj : St W → B) (m : M W A) (k : A → M W A') :
  preserves proj m → (∀ a, preserves proj (k a)) → preserves proj (bind m k).
Proof.
  intros Hm Hk s. unfold bind. specialize (Hm s).
  destruct (m s) as [s1 [a|e]]; simpl in *; [|done].
  by rewrite Hk.
Qed.

Lemma preserves_try_catch {A B} (proj : St W → B) (m : M W A) h :
  preserves proj m → (∀ e, preserves proj (h e)) → preserves proj (try_catch m h).
Proof.
  intros Hm Hh s. unfold try_catch. specialize (Hm s).
  destruct (m s) as [s1 [a|e]]; simpl in *; [done|].
  by rewrite Hh.
Qed.

Lemma preserves_finally {A B} (proj : St W → B) (m : M W A) f :
  preserves proj m → preserves proj f → preserves proj (finally m f).
Proof.
  intros Hm Hf s. unfold finally. specialize (Hm s).
  destruct (m s) as [s1 r]. specialize (Hf s1).
  destruct (f s1) as [s2 [[]|e]]; simpl in *; congruence.
Qed.

Lemma preserves_for_of {A B} (proj : St W → B) (l : list A) body :
  (∀ a, preserves proj (body a)) → preserves proj (for_of l body).
Proof.
  intros Hb. induction l as [|a l IH]; simpl.
  - apply preserves_ret.
  - apply preserves_bind; auto.
Qed.

Lemma preserves_getPathTo {B} (proj : St W → B) mv goal timeout :
  (∀ w s, proj (with_world w s) = proj s) →
  preserves proj (pathfinder_getPathTo mv goal timeout).
Proof.
  intros Hw s. unfold pathfinder_getPathTo.
  destruct (getPathTo _ _ _ _) as [w r]. simpl. apply Hw.
Qed.

End Frames.

(** Splits a method into its primitive steps and shows that each of them
    leaves the component as it was. *)
Ltac frame_with tac :=
  repeat first
    [ tac
    | apply preserves_ret | apply preserves_throw | apply preserves_get
    | apply preserves_bind | apply preserves_try_catch
    | apply preserves_finally | apply preserves_for_of
    | apply preserves_getPathTo; solve [done]
    | progress intros
    | progress cbv zeta
    | case_match
    | solve [intros ?; done] ].

Ltac frame := frame_with fail.

Section Navigation.
Context {W : Type} `{Bot W}.

(** *** Timers *)

Lemma updateNavigationProgress_timers : preserves timers updateNavigationProgress.
Proof. unfold updateNavigationProgress, handleStuckState. frame. Qed.

Lemma pathfinder_goto_timers goal : preserves timers (pathfinder_goto goal).
Proof.
  unfold pathfinder_goto, run_timers.
  frame_with ltac:(apply updateNavigationProgress_timers).
Qed.

Lemma visit_checkpoint_timers options cp : preserves timers (visit_checkpoint options cp).
Proof.
  unfold visit_checkpoint, moveToCheckpoint, verifyAndUpdateContext.
  frame_with ltac:(apply pathfinder_goto_timers).
Qed.

Lemma record_timers start end_ :
  preserves timers (recordSuccessfulPath start end_) ∧
  ∀ e, preserves timers (recordFailedPath start end_ e).
Proof. split; [|intros e]; unfold recordSuccessfulPath, recordFailedPath; frame. Qed.

(** C5.  Whatever the world does and however [executePathWithContext]
    ends (it returns, a checkpoint is not verified, the pathfinder
    fails, the interrupt flag is set), every timer that is registered
    afterwards was registered before the call.  When the path has
    waypoints, the timer that the call created is not registered any
    more and [currentPath] is [null]; when it has none, the call throws
    before it touches the state. *)
Theorem executePathWithContext_releases path startContext options (s : St W) :
  let s' := (executePathWithContext path startContext options s).1 in
  intervals (rt s') ⊆ intervals (rt s) ∧
  (if decide (waypoints path = []) then (s' = s)
   else (next_interval (rt s) ∉ intervals (rt s')) ∧
        next_interval (rt s') = S (next_interval (rt s)) ∧
        currentPath (this s') = None).
Proof.
  intros s'. subst s'.
  destruct (executePathWithContext path startContext options s) as [s' r] eqn:Hexec.
  simpl. unfold executePathWithContext in Hexec.
  case_decide as Hw; [unfold throw in Hexec; by simplify_eq|].
  set (body := try_catch _ _) in Hexec.
  assert (Hbody : preserves timers body).
  { subst body.
    frame_with ltac:(first [ apply visit_checkpoint_timers
                           | apply record_timers ]). }
  unfold bind, get, modify_this, setInterval, finally, clearInterval, modify_rt
    in Hexec.
  simpl in Hexec.
  match type of Hexec with context [body ?s0] =>
    specialize (Hbody s0); destruct (body s0) as [s1 r1] end.
  unfold timers in Hbody. simplify_eq/=.
  split_and!; [|apply not_elem_of_difference; right; by apply elem_of_singleton|done|done].
  intros i Hi. apply elem_of_difference in Hi as [Hi Hne].
  match goal with Heq : intervals (rt s1) = _ |- _ => rewrite Heq in Hi end.
  apply elem_of_union in Hi as [Hi|Hi]; done.
Qed.

(** *** Planning failures *)

Lemma planPathWithContext_failure target options (s : St W) w1 res :
  getPathTo (world s) (plan_movements options) (plan_goal target options) 100
    = (w1, res) →
  search_failed res →
  ∃ rt1,
    planPathWithContext target options s =
      ({| world := w1; this := this s; rt := rt1 |},
       match res with
       | Throw e => Throw (Error ("Failed to plan path: " +:+ message e))
       | Ok _ => Ok empty_plan
       end) ∧
    intervals rt1 = intervals (rt s) ∧
    next_interval rt1 = next_interval (rt s) ∧
    moves rt1 = moves (rt s).
Proof.
  intros Hget Hfail.
  unfold planPathWithContext, try_catch, bind, pathfinder_getPathTo.
  rewrite Hget. destruct res as [r|e]; cbn [search_failed] in Hfail.
  - rewrite decide_False by done. by eexists.
  - by eexists.
Qed.

(** C4, as the code has it.  When the route search throws, planning
    raises ['Failed to plan path: '] followed by the message of the
    search, and this is the error of [moveToLocation].  When the route
    search answers with a status other than ['success'], planning raises
    nothing: it returns the plan without waypoints, whatever part of a
    route the search sent, and [moveToLocation] fails on the guard of
    [executePathWithContext] with ['Invalid path provided'].  In both
    cases the navigator object is as before the call, no timer was
    registered and the pathfinder was not asked to move. *)
Theorem planning_failure_raises target options (s : St W) w1 res :
  getPathTo (world s) (plan_movements options) (plan_goal target options) 100
    = (w1, res) →
  search_failed res →
  let planned := planPathWithContext target options s in
  let out := moveToLocation target options s in
  match res with
  | Throw e =>
      planned.2 = Throw (Error ("Failed to plan path: " +:+ message e)) ∧
      out.2 = Throw (Error ("Failed to plan path: " +:+ message e))
  | Ok _ =>
      planned.2 = Ok empty_plan ∧
      out.2 = Throw (Error "Invalid path provided")
  end ∧
  this planned.1 = this s ∧
  this out.1 = this s ∧
  intervals (rt out.1) = intervals (rt s) ∧
  next_interval (rt out.1) = next_interval (rt s) ∧
  moves (rt out.1) = moves (rt s).
Proof.
  intros Hget Hfail. cbv zeta.
  destruct (planPathWithContext_failure target options s w1 res Hget Hfail)
    as (rt1 & Hplan & Hint & Hnext & Hmoves).
  assert (Hrun : moveToLocation target options s =
            ({| world := w1; this := this s; rt := rt1 |},
             match res with
             | Throw e => Throw (Error ("Failed to plan path: " +:+ message e))
             | Ok _ => Throw (Error "Invalid path provided")
             end)).
  { unfold moveToLocation. unfold bind at 1, get. unfold bind at 1.
    rewrite Hplan. destruct res as [r|e]; [|done].
    unfold executePathWithContext. by rewrite decide_True. }
  rewrite Hplan, Hrun. cbn [fst snd this rt].
  destruct res; done.
Qed.

(** *** Stuck detection *)

Lemma pathfinder_goto_stuck goal :
  (∀ w g, ticks (goto w g) = []) → preserves stuck (pathfinder_goto goal).
Proof.
  intros Hno. unfold pathfinder_goto. apply preserves_bind; [frame|].
  intros s. rewrite Hno. simpl. frame.
Qed.

Lemma planPathWithContext_stuck target options :
  preserves stuck (planPathWithContext target options).
Proof. unfold planPathWithContext. frame. Qed.

Lemma executePathWithContext_stuck path startContext options :
  (∀ w g, ticks (goto w g) = []) →
  preserves stuck (executePathWithContext path startContext options).
Proof.
  intros Hno.
  unfold executePathWithContext, visit_checkpoint, moveToCheckpoint,
    verifyAndUpdateContext, recordSuccessfulPath, recordFailedPath.
  frame_with ltac:(apply (pathfinder_goto_stuck _ Hno)).
Qed.

(** C6, as the code has it.  The stuck-detection record is set when the
    navigator is constructed and [moveToLocation] does not reset it:
    only the samples of the progress monitor write it, so a navigation
    during which the monitor does not fire leaves the record of the
    previous navigation as it was. *)
Theorem stuck_state_carried_over target options (s : St W) :
  (∀ w g, ticks (goto w g) = []) →
  (∀ m, stuckDetection (new m) =
          {| lastProgress := 0; stuckTime := 0; stuckThreshold := 5000 |}) ∧
  stuckDetection (this (moveToLocation target options s).1) =
    stuckDetection (this s).
Proof.
  intros Hno. split; [done|].
  change (stuck (moveToLocation target options s).1 = stuck s).
  revert s. change (preserves stuck (moveToLocation target options)).
  unfold moveToLocation.
  frame_with ltac:(first [ apply planPathWithContext_stuck
                         | apply (executePathWithContext_stuck _ _ _ Hno) ]).
Qed.


(** *** Checkpoints *)

Lemma checkpoints_from_lookup ws N i j :
  checkpoints_from ws N i !! j = ws !! (i + j * Pos.to_nat N)%nat.
Proof.
  revert j. funelim (checkpoints_from ws N i); intros j.
  - destruct (ws !! i) as [p|] eqn:Hp; [|apply lookup_ge_None in Hp; lia].
    simpl. destruct j as [|j]; simpl.
    + by rewrite Nat.add_0_r.
    + match goal with IH : ∀ j : nat, _ !! j = _ |- _ => rewrite IH end.
      f_equal. lia.
  - simpl. symmetry. apply lookup_ge_None. lia.
Qed.

Lemma checkpoints_from_length ws N :
  ∀ j, (j < length (checkpoints_from ws N 0))%nat ↔ (j * Pos.to_nat N < length ws)%nat.
Proof.
  intros j. rewrite <- !lookup_lt_is_Some, checkpoints_from_lookup. done.
Qed.

Lemma updateNavigationProgress_frame :
  preserves moved updateNavigationProgress ∧
  preserves history updateNavigationProgress ∧
  preserves installed updateNavigationProgress ∧
  preserves cache updateNavigationProgress.
Proof. split_and!; unfold updateNavigationProgress, handleStuckState; frame. Qed.

Lemma run_timers_frame w :
  preserves moved (run_timers w) ∧
  preserves history (run_timers w) ∧
  preserves installed (run_timers w) ∧
  preserves cache (run_timers w).
Proof.
  split_and!; unfold run_timers;
    frame_with ltac:(apply updateNavigationProgress_frame).
Qed.

Lemma moveToCheckpoint_moved cp options (s : St W) :
  moved (moveToCheckpoint cp options s).1 = moved s ++ [checkpoint_goal cp].
Proof.
  unfold moveToCheckpoint, try_catch, pathfinder_goto.
  unfold bind at 1, get. simpl. unfold bind at 1. simpl.
  set (s0 := {| world := world s; this := this s; rt := _ |}).
  assert (Hticks : ∀ l (t : St W), moved (for_of l run_timers t).1 = moved t).
  { intros l. apply preserves_for_of. intros w. apply run_timers_frame. }
  unfold bind. specialize (Hticks (ticks (goto (world s) (checkpoint_goal cp))) s0).
  change {| gx := Vec3.x cp; gy := Vec3.y cp; gz := Vec3.z cp; grange := 1 |}
    with (checkpoint_goal cp).
  destruct (for_of _ _ s0) as [s1 [[]|e]]; simpl in *.
  - destruct (rejected _); simpl; unfold moved in *; simpl; by rewrite Hticks.
  - unfold moved in *; simpl; by rewrite Hticks.
Qed.

Lemma moveToCheckpoint_frame cp options :
  preserves history (moveToCheckpoint cp options) ∧
  preserves installed (moveToCheckpoint cp options) ∧
  preserves cache (moveToCheckpoint cp options).
Proof.
  split_and!; unfold moveToCheckpoint, pathfinder_goto;
    frame_with ltac:(apply run_timers_frame).
Qed.

Lemma verifyAndUpdateContext_frame cp :
  preserves moved (verifyAndUpdateContext cp) ∧
  preserves history (verifyAndUpdateContext cp) ∧
  preserves installed (verifyAndUpdateContext cp) ∧
  preserves cache (verifyAndUpdateContext cp).
Proof. split_and!; unfold verifyAndUpdateContext; frame. Qed.

Lemma visit_checkpoint_frame options cp :
  preserves history (visit_checkpoint options cp) ∧
  preserves installed (visit_checkpoint options cp) ∧
  preserves cache (visit_checkpoint options cp).
Proof.
  split_and!; unfold visit_checkpoint;
    frame_with ltac:(first [ apply moveToCheckpoint_frame
                           | apply verifyAndUpdateContext_frame ]).
Qed.

Lemma visit_checkpoint_moved options cp (s s' : St W) r :
  visit_checkpoint options cp s = (s', r) →
  (r = Ok tt ∧ moved s' = moved s ++ [checkpoint_goal cp]) ∨
  ((∃ e, r = Throw e) ∧
   (moved s' = moved s ∨ moved s' = moved s ++ [checkpoint_goal cp])).
Proof.
  unfold visit_checkpoint. unfold bind at 1, get.
  destruct (interrupt_code (world s)).
  { unfold throw. intros ?; simplify_eq. right. eauto. }
  unfold bind at 1.
  pose proof (moveToCheckpoint_moved cp options s) as Hm.
  destruct (moveToCheckpoint cp options s) as [s1 [[]|e]]; simpl in Hm;
    [|intros ?; simplify_eq; right; eauto].
  unfold bind.
  pose proof (proj1 (verifyAndUpdateContext_frame cp) s1) as Hv.
  destruct (verifyAndUpdateContext cp s1) as [s2 [b|e]]; simpl in Hv;
    unfold ret; intros ?; simplify_eq; rewrite Hv, Hm; [left|right]; eauto.
Qed.

(** A bot that is not interrupted is sent to the checkpoint. *)
Lemma visit_checkpoint_moved_first options cp (s : St W) :
  interrupt_code (world s) = false →
  moved (visit_checkpoint options cp s).1 = moved s ++ [checkpoint_goal cp].
Proof.
  intros Hint. unfold visit_checkpoint. unfold bind at 1, get. rewrite Hint.
  unfold bind at 1.
  pose proof (moveToCheckpoint_moved cp options s) as Hm.
  destruct (moveToCheckpoint cp options s) as [s1 [[]|e]]; simpl in Hm; [|done].
  unfold bind.
  pose proof (proj1 (verifyAndUpdateContext_frame cp) s1) as Hv.
  destruct (verifyAndUpdateContext cp s1) as [s2 [b|e]]; simpl in Hv;
    unfold ret; simpl; by rewrite Hv, Hm.
Qed.

Lemma for_of_checkpoints_moved options cps (s s' : St W) r :
  for_of cps (visit_checkpoint options) s = (s', r) →
  ∃ k : nat,
    moved s' = moved s ++ (checkpoint_goal <$> take k cps) ∧
    (r = Ok tt → k = length cps) ∧
    (interrupt_code (world s) = false → cps ≠ [] → (1 ≤ k)%nat).
Proof.
  revert s. induction cps as [|cp cps IH]; intros s; cbn [for_of].
  - unfold ret. intros ?; simplify_eq. exists 0%nat. by rewrite app_nil_r.
  - unfold bind.
    destruct (visit_checkpoint options cp s) as [s1 r1] eqn:Hvisit.
    destruct (visit_checkpoint_moved _ _ _ _ _ Hvisit) as [[-> Hm]|[[e ->] Hm]].
    + intros Hrest. destruct (IH _ Hrest) as (k & Hk & Hlen & _). exists (S k).
      rewrite Hk, Hm, <- app_assoc. split; [done|]. split; [|intros; lia].
      intros Hok. simpl. by rewrite Hlen.
    + intros ?; simplify_eq.
      destruct (interrupt_code (world s)) eqn:Hint.
      * destruct Hm as [Hm|Hm]; [exists 0%nat|exists 1%nat]; simpl;
          rewrite Hm, ?take_0, ?app_nil_r; done.
      * exists 1%nat. pose proof (visit_checkpoint_moved_first options cp s Hint) as Hm1.
        rewrite Hvisit in Hm1. simpl in *. rewrite Hm1, ?take_0. done.
Qed.


Lemma for_of_checkpoints_frame options cps :
  preserves history (for_of cps (visit_checkpoint options)) ∧
  preserves installed (for_of cps (visit_checkpoint options)) ∧
  preserves cache (for_of cps (visit_checkpoint options)).
Proof.
  split_and!; apply preserves_for_of; intros cp; apply visit_checkpoint_frame.
Qed.

Lemma executePathWithContext_moves path sc options (s s' : St W) r :
  executePathWithContext path sc options s = (s', r) →
  waypoints path ≠ [] →
  ∃ k : nat,
    moved s' = moved s ++ (checkpoint_goal <$> take k (checkpoints path)) ∧
    (interrupt_code (world s) = false → checkpoints path ≠ [] → (1 ≤ k)%nat) ∧
    (r = Ok true →
     k = length (checkpoints path) ∧
     history s' = history s ++
       [success_entry (start_position sc) (last (waypoints path))
          (clock (world s'))] ∧
     ∃ e rec,
       last (waypoints path) = Some e ∧
       cache s' !! (coord_key (start_position sc) +:+ "->" +:+ coord_key e)
         = Some rec ∧
       pr_waypoints rec = Some (waypoints path)).
Proof.
  intros Hexec Hws. unfold executePathWithContext in Hexec.
  case_decide; [done|].
  set (body := try_catch _ _) in Hexec.
  cbv [bind get modify_this setInterval finally clearInterval modify_rt] in Hexec.
  match type of Hexec with context [body ?s0] => set (s2 := s0) in Hexec end.
  destruct (body s2) as [s3 r3] eqn:Hbody. simplify_eq.
  subst body. unfold try_catch in Hbody. unfold bind at 1 in Hbody.
  destruct (for_of (checkpoints path) (visit_checkpoint options) s2)
    as [s4 r4] eqn:Hloop.
  destruct (for_of_checkpoints_moved _ _ _ _ _ Hloop) as (k & Hk & Hlen & Hfirst).
  pose proof (proj1 (for_of_checkpoints_frame options (checkpoints path)) s2) as Hh.
  pose proof (proj1 (proj2 (for_of_checkpoints_frame options (checkpoints path))) s2) as Hi.
  rewrite Hloop in Hh, Hi. simpl in Hh, Hi.
  exists k. destruct r4 as [[]|e].
  - destruct (last (waypoints path)) as [e|] eqn:Hlast;
      [|by apply last_None in Hlast].
    cbv [recordSuccessfulPath bind get modify_this ret] in Hbody.
    simplify_eq. unfold moved, history, installed, cache in *. simpl in *.
    rewrite Hi. simpl. split; [done|]. split; [exact Hfirst|].
    intros _. split_and!; [by apply Hlen|by rewrite Hh|].
    eexists e, _. split_and!; [done|apply lookup_insert_eq|done].
  - cbv [recordFailedPath console_log bind get modify_this modify_rt throw] in Hbody.
    simplify_eq. unfold moved in *. simpl in *. split; [done|].
    split; [exact Hfirst|done].
Qed.

Lemma planPathWithContext_success target options (s : St W) w1 ws :
  getPathTo (world s) (plan_movements options) (plan_goal target options) 100
    = (w1, Ok {| pf_status := "success"; pf_path := ws |}) →
  ∃ obs markers,
    planPathWithContext target options s =
      (with_world w1 s,
       Ok {| waypoints := ws;
             checkpoints := checkpoints_from ws (checkpointInterval options) 0;
             path_obstacles := obs; contextualMarkers := markers |}).
Proof.
  intros Hget. unfold planPathWithContext, try_catch, bind, pathfinder_getPathTo.
  rewrite Hget. simpl. eauto.
Qed.

Lemma last_index_is_checkpoint (ws : list Vec3.t) (N : positive) :
  ws ≠ [] →
  (∃ j : nat, (j < length (checkpoints_from ws N 0))%nat ∧
              (j * Pos.to_nat N = length ws - 1)%nat) ↔
  ((length ws - 1) `mod` Pos.to_nat N = 0)%nat.
Proof.
  intros Hws. assert (0 < length ws)%nat by (destruct ws; simpl; [done|lia]).
  pose proof (Pos2Nat.is_pos N) as HN.
  split.
  - intros (j & _ & Hj). rewrite <- Hj. apply Nat.Div0.mod_mul.
  - intros Hmod. apply Nat.Div0.div_exact in Hmod.
    exists ((length ws - 1) / Pos.to_nat N)%nat. split; [|lia].
    apply checkpoints_from_length. lia.
Qed.

(** C10.  When the route search succeeds with a non-empty list of
    waypoints and the checkpoint interval is N (5 unless the options give
    a positive one), [planPathWithContext] returns a plan with these
    waypoints whose j-th checkpoint is the waypoint of index j * N: the
    first waypoint is a checkpoint, and the index of the last waypoint is
    the index of a checkpoint exactly when N divides it.  The goals that
    [moveToLocation] gives to the pathfinder are those of the checkpoints
    of the plan, in order: all of them when it returns [true], a prefix
    of them otherwise, which holds the first checkpoint unless the bot is
    interrupted.  A run that returns [true] appends to the path history an
    entry that ends at the last waypoint and stores the waypoints in the
    path cache under the key of the start and that last waypoint. *)
Theorem checkpoints_are_every_Nth_waypoint target options (s : St W) w1 ws :
  getPathTo (world s) (plan_movements options) (plan_goal target options) 100
    = (w1, Ok {| pf_status := "success"; pf_path := ws |}) →
  ws ≠ [] →
  let N := Pos.to_nat (checkpointInterval options) in
  let out := moveToLocation target options s in
  ∃ path : Path,
    planPathWithContext target options s = (with_world w1 s, Ok path) ∧
    waypoints path = ws ∧
    (∀ j : nat, checkpoints path !! j = ws !! (j * N)%nat) ∧
    head (checkpoints path) = head ws ∧
    ((∃ j : nat, (j < length (checkpoints path))%nat ∧
                 (j * N = length ws - 1)%nat) ↔
     ((length ws - 1) `mod` N = 0)%nat) ∧
    ∃ k : nat,
      moves (rt out.1) =
        moves (rt s) ++ (checkpoint_goal <$> take k (checkpoints path)) ∧
      (interrupt_code w1 = false → (1 ≤ k)%nat) ∧
      (out.2 = Ok true →
       k = length (checkpoints path) ∧
       pathHistory (this out.1) = pathHistory (this s) ++
         [success_entry (getPosition (world s)) (last ws) (clock (world out.1))] ∧
       ∃ e rec,
         last ws = Some e ∧
         EnhancedMemoryBank.paths (memory (this out.1))
           !! (coord_key (getPosition (world s)) +:+ "->" +:+ coord_key e)
           = Some rec ∧
         pr_waypoints rec = Some ws).
Proof.
  intros Hget Hws N out.
  destruct (planPathWithContext_success target options s w1 ws Hget)
    as (obs & markers & Hplan).
  set (cps := checkpoints_from ws (checkpointInterval options) 0) in *.
  assert (Hlookup : ∀ j : nat, cps !! j = ws !! (j * N)%nat).
  { intros j. subst cps N. by rewrite checkpoints_from_lookup. }
  eexists. split; [exact Hplan|]. cbn [waypoints checkpoints].
  split; [done|]. split; [exact Hlookup|]. split_and!.
  - rewrite !head_lookup. apply (Hlookup 0%nat).
  - by apply last_index_is_checkpoint.
  - subst out. unfold moveToLocation. unfold bind at 1, get. unfold bind.
    rewrite Hplan.
    destruct (executePathWithContext _ _ _ _) as [s' r] eqn:Hexec. simpl.
    destruct (executePathWithContext_moves _ _ _ _ _ _ Hexec Hws)
      as (k & Hk & Hfirst & Hok).
    exists k. split; [exact Hk|]. split; [|exact Hok].
    intros Hint. apply Hfirst; [exact Hint|]. cbn [checkpoints].
    intros Hnil. specialize (Hlookup 0%nat). rewrite Hnil in Hlookup.
    destruct ws; [done|]. discriminate Hlookup.
Qed.
End Navigation.

Import NavScenario.

Lemma checkpoints_are_every_Nth_waypoint_witness :
  let s := idle (Demo.world (found seven) 0) in
  let out := along_seven in
  ∃ path : Path,
    planPathWithContext (TargetPoint (east 6)) no_options s =
      (with_world (Demo.world (found seven) 0) s, Ok path) ∧
    waypoints path = seven ∧
    (∀ j : nat, checkpoints path !! j = seven !! (j * 5)%nat) ∧
    head (checkpoints path) = head seven ∧
    ((∃ j : nat, (j < length (checkpoints path))%nat ∧
                 (j * 5 = length seven - 1)%nat) ↔
     ((length seven - 1) `mod` 5 = 0)%nat) ∧
    ∃ k : nat,
      moves (rt out.1) =
        moves (rt s) ++ (checkpoint_goal <$> take k (checkpoints path)) ∧
      (interrupt_code (Demo.world (found seven) 0) = false → (1 ≤ k)%nat) ∧
      (out.2 = Ok true →
       k = length (checkpoints path) ∧
       pathHistory (this out.1) = pathHistory (this s) ++
         [success_entry (getPosition (world s)) (last seven) (clock (world out.1))] ∧
       ∃ e rec,
         last seven = Some e ∧
         EnhancedMemoryBank.paths (memory (this out.1))
           !! (coord_key (getPosition (world s)) +:+ "->" +:+ coord_key e)
           = Some rec ∧
         pr_waypoints rec = Some seven).
Proof.
  exact (checkpoints_are_every_Nth_waypoint (TargetPoint (east 6)) no_options
           (idle (Demo.world (found seven) 0)) _ seven eq_refl
           ltac:(discriminate)).
Defined.

(** The run along seven waypoints moves to the waypoints 0 and 5 and
    records a path that ends at waypoint 6. *)
Example along_seven_moves :
  along_seven.2 = Ok true ∧
  moves (rt along_seven.1) = [checkpoint_goal (east 0); checkpoint_goal (east 5)] ∧
  pe_end <$> pathHistory (this along_seven.1) = [Some (east 6)] ∧
  intervals (rt along_seven.1) = ∅ ∧
  currentPath (this along_seven.1) = None.
Proof. vm_compute. done. Qed.

Lemma planning_failure_raises_witness :
  let s := idle (Demo.world gave_up 0) in
  let planned := planPathWithContext (TargetPoint (east 6)) no_options s in
  let out := moveToLocation (TargetPoint (east 6)) no_options s in
  (planned.2 = Ok empty_plan ∧
   out.2 = Throw (Error "Invalid path provided")) ∧
  this planned.1 = this s ∧
  this out.1 = this s ∧
  intervals (rt out.1) = intervals (rt s) ∧
  next_interval (rt out.1) = next_interval (rt s) ∧
  moves (rt out.1) = moves (rt s).
Proof.
  apply (planning_failure_raises (TargetPoint (east 6)) no_options
           (idle (Demo.world gave_up 0)) (Demo.world gave_up 0) gave_up).
  - reflexivity.
  - cbn. discriminate.
Defined.

(** C4, as the specification has it, fails for a search that gives up:
    planning raises no error but returns the plan without waypoints, and
    the error that the caller of [moveToLocation] receives is the one of
    the guard of [executePathWithContext], not a planning error. *)
Lemma non_success_is_no_planning_error :
  let s := idle (Demo.world gave_up 0) in
  (planPathWithContext (TargetPoint (east 6)) no_options s).2 = Ok empty_plan ∧
  (moveToLocation (TargetPoint (east 6)) no_options s).2 =
    Throw (Error "Invalid path provided") ∧
  ¬ (∀ (s : St Demo.World) target options w1 r,
       getPathTo (world s) (plan_movements options) (plan_goal target options) 100
         = (w1, Ok r) →
       pf_status r ≠ "success" →
       ∃ e, (planPathWithContext target options s).2 = Throw e).
Proof.
  cbv zeta. split; [by vm_compute|]. split; [by vm_compute|].
  intros Hraises.
  destruct (Hraises (idle (Demo.world gave_up 0)) (TargetPoint (east 6)) no_options
              (Demo.world gave_up 0)
              {| pf_status := "timeout"; pf_path := [east 0; east 1] |}
              eq_refl ltac:(discriminate)) as [e He].
  vm_compute in He. discriminate He.
Qed.

Lemma stuck_state_carried_over_witness :
  (∀ m, stuckDetection (new m) =
          {| lastProgress := 0; stuckTime := 0; stuckThreshold := 5000 |}) ∧
  stuckDetection
    (this (@moveToLocation _ Demo.quiet_bot (TargetPoint (east 3)) no_options
             first_navigation.1).1) =
  stuckDetection (this first_navigation.1).
Proof.
  apply (@stuck_state_carried_over _ Demo.quiet_bot). intros w g. reflexivity.
Defined.

(** C6, as the specification has it, fails.  On a route whose end is
    three blocks from its start, a navigation during which the monitor
    samples four times while the bot stands at the start (progress 0 each
    time) ends with a stuck duration of 4000.  The navigator starts and
    ends the next navigation with 4000, and a single sample in it reaches
    the threshold and calls the stuck hook. *)
Lemma stuck_state_survives_navigation :
  first_navigation.2 = Ok true ∧
  stuckTime (stuckDetection (this first_navigation.1)) = 4000 ∧
  (lastProgress (stuckDetection (this first_navigation.1)) == 0)%Q ∧
  second_navigation.2 = Ok true ∧
  stuckTime (stuckDetection (this second_navigation.1)) = 4000 ∧
  stuckTime (stuckDetection (this second_navigation_one_sample.1)) = 5000 ∧
  console (rt second_navigation_one_sample.1) =
    [[Text "Bot appears to be stuck in navigation"]] ∧
  ¬ (∀ (s : St Demo.World) target options,
       Demo.firings (world s) = 0%nat →
       stuckTime (stuckDetection (this (moveToLocation target options s).1)) = 0).
Proof.
  do 7 (split; [by vm_compute|]).
  intros Hreset.
  specialize (Hreset (with_world (Demo.world (found short) 0) first_navigation.1)
                (TargetPoint (east 3)) no_options eq_refl).
  vm_compute in Hreset. discriminate Hreset.
Qed.
End NavigationProps.

(** ** Goal tracker: unresolved ids, finished subgoals, reachable states *)

Module GoalSystemMore.
Import GoalSystem GoalSpec GoalMoreSpec GoalSystemProps.

Lemma findGoalRef_None g gs : findGoal g gs = None → findGoalRef g gs = None.
Proof.
  unfold findGoal. destruct (findGoalRef g gs) as [r|] eqn:Hr; [|done].
  destruct (findGoalRef_deref _ _ _ Hr) as (goal & Hd & _). simpl. by rewrite Hd.
Qed.

(** X1.  A call of [updateGoalProgress], [recordFailedAttempt],
    [completeGoal] or [failGoal] that names an id which resolves to no
    goal leaves the tracker as it was; for such an id [canStartGoal]
    answers [false] and [getPendingPrerequisites] the empty list. *)
Theorem unresolved_id_is_no_op gs now op g :
  op_goalId op = Some g →
  findGoal g gs = None →
  step gs (now, op) = gs ∧
  canStartGoal g gs = Ok false ∧
  getPendingPrerequisites g gs = Ok [].
Proof.
  intros Hop Hnone. pose proof (findGoalRef_None _ _ Hnone) as Href.
  unfold canStartGoal, getPendingPrerequisites. rewrite Hnone.
  split; [|done].
  destruct op; simplify_eq/=;
    unfold updateGoalProgress, recordFailedAttempt, completeGoal, failGoal;
    by rewrite Href.
Qed.

Lemma unresolved_id_is_no_op_witness :
  step GoalScenario.start.1 (5000, OpCompleteGoal "subgoal_0_99") = GoalScenario.start.1 ∧
  canStartGoal "subgoal_0_99" GoalScenario.start.1 = Ok false ∧
  getPendingPrerequisites "subgoal_0_99" GoalScenario.start.1 = Ok [].
Proof.
  apply (unresolved_id_is_no_op GoalScenario.start.1 5000
           (OpCompleteGoal "subgoal_0_99") "subgoal_0_99"); reflexivity.
Defined.

(** *** Subgoals that are kept *)

Lemma findGoalRef_sub_not_main g gs i :
  findGoalRef g gs = Some (RefSub i) → not_main g gs.
Proof.
  unfold findGoalRef, not_main. intros Hr mg Hm. rewrite Hm in Hr.
  by case_decide.
Qed.

Lemma findGoalRef_main g gs :
  findGoalRef g gs = Some RefMain → ∃ mg, mainGoal gs = Some mg ∧ Goal.id mg = g.
Proof.
  intros Hr. destruct (findGoalRef_deref _ _ _ Hr) as (mg & Hd & Hid). eauto.
Qed.

Lemma remove_subgoal_main g (gs : GoalSystem.t) mg :
  mainGoal gs = Some mg → Goal.id mg = g → remove_subgoal g gs = gs.
Proof.
  intros Hm Hid. unfold remove_subgoal. rewrite Hm. case_decide; [congruence|done].
Qed.

Lemma remove_subgoal_sub g (gs : GoalSystem.t) :
  not_main g gs →
  remove_subgoal g gs =
    {| mainGoal := mainGoal gs; subGoals := others g (subGoals gs);
       completedGoals := completedGoals gs; failedGoals := failedGoals gs;
       strategyAdaptations := strategyAdaptations gs |}.
Proof.
  intros Hnm. unfold remove_subgoal. destruct (mainGoal gs) as [mg|] eqn:Hm; [|done].
  pose proof (Hnm mg Hm) as Hne. case_decide as Hd; [done|]. congruence.
Qed.

Lemma subGoals_updateMainGoalProgress gs :
  subGoals (updateMainGoalProgress gs) = subGoals gs.
Proof.
  unfold updateMainGoalProgress. destruct (mainGoal gs); [|done]. by case_decide.
Qed.

Lemma others_alter g f i (l : list Goal.t) x :
  l !! i = Some x → Goal.id x = g → Goal.id (f x) = g →
  others g (alter f i l) = others g l.
Proof.
  intros Hl Hx Hfx. revert i Hl.
  induction l as [|a l IH]; intros [|i] Hl; try done.
  - injection Hl as ->. unfold others. cbn [alter list_alter List.filter].
    rewrite !bool_decide_false; [done|by intros ?|by intros ?].
  - unfold others in *. cbn [alter list_alter List.filter].
    change (list_alter f i l) with (alter f i l). by rewrite (IH i Hl).
Qed.

Lemma others_kept g l : Forall kept l → Forall kept (others g l).
Proof.
  intros Hl. apply Forall_forall. intros x Hx.
  apply list_elem_of_In, List.filter_In in Hx as [Hx _].
  rewrite Forall_forall in Hl. apply Hl. by apply list_elem_of_In.
Qed.

Lemma find_index_others g l k : find_index g (others g l) k = None.
Proof.
  revert k. induction l as [|a l IH]; intros k; simpl; [done|].
  case_bool_decide as Hne; simpl; [|apply IH].
  case_decide; [done|apply IH].
Qed.

Lemma updateMainGoalProgress_mutate gs :
  ∃ p, updateMainGoalProgress gs = mutate RefMain (Goal.set_main_progress p) gs.
Proof.
  unfold updateMainGoalProgress. destruct (mainGoal gs) as [mg|] eqn:Hm.
  - case_decide; eauto.
  - exists 0. destruct gs; simpl in *; by subst.
Qed.

Lemma findGoal_updateMainGoalProgress_None g gs :
  findGoalRef g gs = None → findGoal g (updateMainGoalProgress gs) = None.
Proof.
  intros Hr. destruct (updateMainGoalProgress_mutate gs) as [p ->].
  unfold findGoal. by rewrite findGoalRef_mutate, Hr.
Qed.

Lemma findGoalRef_others g (gs : GoalSystem.t) done_ failed_ :
  not_main g gs →
  findGoalRef g {| mainGoal := mainGoal gs; subGoals := others g (subGoals gs);
                   completedGoals := done_; failedGoals := failed_;
                   strategyAdaptations := strategyAdaptations gs |} = None.
Proof.
  intros Hnm. unfold findGoalRef. simpl. rewrite find_index_others.
  destruct (mainGoal gs) as [mg|] eqn:Hm; [|done].
  case_decide; [|done]. by destruct (Hnm mg).
Qed.

Lemma findGoal_sub g gs goal :
  findGoal g gs = Some goal → not_main g gs →
  ∃ i, findGoalRef g gs = Some (RefSub i) ∧ subGoals gs !! i = Some goal ∧
       Goal.id goal = g.
Proof.
  unfold findGoal. intros Hf Hnm.
  destruct (findGoalRef g gs) as [[|i]|] eqn:Hr; simplify_eq/=.
  - destruct (findGoalRef_main _ _ Hr) as (mg & Hm & Hid). by destruct (Hnm mg).
  - destruct (findGoalRef_deref _ _ _ Hr) as (goal' & Hd & Hid). simplify_eq/=. eauto.
Qed.

(** X2.  Completing or failing a subgoal removes it from the tracker: its
    id no longer resolves, the subgoals of that id are dropped from
    [subGoals] and the others stay in their order, and a snapshot of the
    goal with its new status is appended to [completedGoals] (to
    [failedGoals] when it fails); the other of the two lists is not
    touched. *)
Theorem finished_subgoal_leaves_the_tracker now g why gs goal :
  findGoal g gs = Some goal →
  not_main g gs →
  (findGoal g (completeGoal now g gs) = None ∧
   subGoals (completeGoal now g gs) = others g (subGoals gs) ∧
   completedGoals (completeGoal now g gs) =
     completedGoals gs ++ [Goal.mark_completed now goal] ∧
   failedGoals (completeGoal now g gs) = failedGoals gs) ∧
  (findGoal g (failGoal now g why gs) = None ∧
   subGoals (failGoal now g why gs) = others g (subGoals gs) ∧
   failedGoals (failGoal now g why gs) =
     failedGoals gs ++ [Goal.mark_failed now why goal] ∧
   completedGoals (failGoal now g why gs) = completedGoals gs).
Proof.
  intros Hfind Hnm.
  destruct (findGoal_sub _ _ _ Hfind Hnm) as (i & Hr & Hi & Hid).
  split.
  - unfold completeGoal. rewrite Hr.
    rewrite remove_subgoal_sub by (intros mg; apply Hnm).
    cbn [subGoals mainGoal completedGoals failedGoals strategyAdaptations
         mutate deref].
    rewrite list_lookup_alter_eq, Hi. cbn [fmap option_fmap option_map option_list].
    rewrite (others_alter g _ i _ goal) by done.
    split; [apply findGoal_updateMainGoalProgress_None;
            by apply (findGoalRef_others g gs)|].
    match goal with |- context [updateMainGoalProgress ?x] =>
      destruct (updateMainGoalProgress_mutate x) as [p ->] end.
    done.
  - unfold failGoal. rewrite Hr.
    rewrite remove_subgoal_sub by (intros mg; apply Hnm).
    cbn [subGoals mainGoal completedGoals failedGoals strategyAdaptations
         mutate deref].
    rewrite list_lookup_alter_eq, Hi. cbn [fmap option_fmap option_map option_list].
    rewrite (others_alter g _ i _ goal) by done.
    split; [apply findGoal_updateMainGoalProgress_None;
            by apply (findGoalRef_others g gs)|].
    match goal with |- context [updateMainGoalProgress ?x] =>
      destruct (updateMainGoalProgress_mutate x) as [p ->] end.
    done.
Qed.

Lemma finished_subgoal_leaves_the_tracker_witness :
  findGoal GoalScenario.a_id (completeGoal 1005 GoalScenario.a_id GoalScenario.at_40_60)
    = None ∧
  findGoal GoalScenario.a_id
    (failGoal 1005 GoalScenario.a_id "no axe" GoalScenario.at_40_60) = None.
Proof.
  edestruct (finished_subgoal_leaves_the_tracker 1005 GoalScenario.a_id "no axe"
               GoalScenario.at_40_60) as [[H1 _] [H2 _]].
  - vm_compute. reflexivity.
  - intros mg Hmg. vm_compute in Hmg. injection Hmg as <-. vm_compute. discriminate.
  - split; [exact H1|exact H2].
Defined.

(** *** What is reachable *)

Lemma subGoals_finish g (gs : GoalSystem.t) r f done_ failed_ :
  findGoalRef g gs = Some r →
  (∀ x, Goal.id (f x) = Goal.id x) →
  subGoals (remove_subgoal g
              {| mainGoal := mainGoal (mutate r f gs);
                 subGoals := subGoals (mutate r f gs);
                 completedGoals := done_; failedGoals := failed_;
                 strategyAdaptations := strategyAdaptations (mutate r f gs) |})
  = match r with
    | RefMain => subGoals gs
    | RefSub _ => others g (subGoals gs)
    end.
Proof.
  intros Hr Hf. destruct r as [|i].
  - destruct (findGoalRef_main _ _ Hr) as (mg & Hm & Hid).
    erewrite remove_subgoal_main; [done| |].
    + simpl. by rewrite Hm.
    + by rewrite Hf.
  - pose proof (findGoalRef_sub_not_main _ _ _ Hr) as Hnm.
    destruct (findGoalRef_deref _ _ _ Hr) as (goal & Hd & Hid). simpl in Hd.
    rewrite remove_subgoal_sub by done. simpl.
    apply (others_alter g f i _ goal); [done|done|by rewrite Hf].
Qed.

Lemma subGoals_mutate_kept r f gs :
  (∀ x, kept x → kept (f x)) →
  Forall kept (subGoals gs) → Forall kept (subGoals (mutate r f gs)).
Proof.
  intros Hf Hl. destruct r as [|i]; simpl; [done|].
  apply Forall_alter; [done|]. intros x _. apply Hf.
Qed.

Lemma step_kept gs call :
  Forall kept (subGoals gs) → Forall kept (subGoals (step gs call)).
Proof.
  destruct call as [now op]. intros Hl.
  destruct op as [goal ctx|d p q|g progress ctx|g why|g|g why]; simpl.
  - done.
  - apply Forall_app. split; [done|]. apply Forall_singleton. by left.
  - unfold updateGoalProgress. destruct (findGoalRef _ _) as [r|]; [|done].
    assert (Forall kept (subGoals (mutate r (Goal.set_progress progress now ctx) gs)))
      by (by apply subGoals_mutate_kept).
    destruct (mainGoal _); [|done]. case_decide; [|done].
    by rewrite subGoals_updateMainGoalProgress.
  - unfold recordFailedAttempt. destruct (findGoalRef _ _) as [r|]; [|done].
    assert (Forall kept (subGoals (mutate r (Goal.record_attempt now why) gs)))
      by (by apply subGoals_mutate_kept).
    destruct (deref _ _) as [goal|] eqn:Hd; [|done]. case_decide; [|done].
    unfold adaptStrategy. rewrite Hd.
    apply subGoals_mutate_kept; [by intros x _; right|done].
  - unfold completeGoal. destruct (findGoalRef _ _) as [r|] eqn:Hr; [|done].
    rewrite subGoals_updateMainGoalProgress, (subGoals_finish g gs r) by done.
    destruct r; [done|by apply others_kept].
  - unfold failGoal. destruct (findGoalRef _ _) as [r|] eqn:Hr; [|done].
    rewrite subGoals_updateMainGoalProgress, (subGoals_finish g gs r) by done.
    destruct r; [done|by apply others_kept].
Qed.

Lemma reachable_kept calls : Forall kept (subGoals (run calls new)).
Proof.
  unfold run. assert (Hnew : Forall kept (subGoals new)) by constructor.
  revert Hnew. generalize new.
  induction calls as [|call calls IH]; intros gs Hgs; simpl; [done|].
  apply IH. by apply step_kept.
Qed.

Lemma kept_live g : kept g → live g.
Proof. unfold kept, live. intros [->| ->]; by split. Qed.

Lemma reachable_live calls : Forall live (subGoals (run calls new)).
Proof. eapply Forall_impl; [apply reachable_kept|apply kept_live]. Qed.

(** X3.  In every state that a sequence of calls reaches from a new
    tracker, each subgoal in [subGoals] is pending or marked for
    revision: none is ever 'active', 'completed' or 'failed'.
    [getActiveSubGoals] therefore lists exactly the pending subgoals, and
    leaves out those that are marked for revision. *)
Theorem subgoals_are_pending_or_under_revision calls :
  Forall kept (subGoals (run calls new)) ∧
  getActiveSubGoals (run calls new) =
    List.filter (λ g, bool_decide (Goal.status g = pending))
      (subGoals (run calls new)).
Proof.
  pose proof (reachable_kept calls) as Hk. split; [done|].
  unfold getActiveSubGoals. induction Hk as [|g l Hg Hl IH]; [done|].
  cbn [List.filter]. rewrite IH.
  replace (bool_decide (Goal.status g = active)) with false; [done|].
  symmetry. apply bool_decide_eq_false. by destruct Hg as [-> | ->].
Qed.

Lemma findGoal_cases g gs goal :
  findGoal g gs = Some goal →
  (mainGoal gs = Some goal ∧ Goal.id goal = g) ∨ goal ∈ subGoals gs.
Proof.
  unfold findGoal. intros Hf.
  destruct (findGoalRef g gs) as [[|i]|] eqn:Hr; simplify_eq/=.
  - left. destruct (findGoalRef_main _ _ Hr) as (mg & Hm & Hid).
    split; congruence.
  - right. by eapply list_elem_of_lookup_2.
Qed.

(** X4.  In every reachable state, the dependencies of a goal that
    [canStartGoal] lets start are all the id of the main goal, which is
    then completed.  A subgoal that was completed has left [subGoals] and
    no longer resolves, so it never satisfies a dependency. *)
Theorem only_the_main_goal_satisfies_a_dependency calls g :
  canStartGoal g (run calls new) = Ok true →
  ∃ goal deps,
    findGoal g (run calls new) = Some goal ∧
    Goal.dependencies goal = Some deps ∧
    ∀ d, d ∈ deps →
      ∃ mg, mainGoal (run calls new) = Some mg ∧ Goal.id mg = d ∧
            Goal.status mg = completed.
Proof.
  intros Hcan. pose proof (reachable_live calls) as Hlive.
  set (gs := run calls new) in *.
  destruct (findGoal g gs) as [goal|] eqn:Hfind;
    [|by unfold canStartGoal in Hcan; rewrite Hfind in Hcan].
  destruct (Goal.prerequisites goal) as [pre|] eqn:Hpre;
    [|by unfold canStartGoal, getPendingPrerequisites in Hcan;
         rewrite Hfind, Hpre in Hcan].
  destruct (Goal.dependencies goal) as [deps|] eqn:Hdeps.
  2: { unfold canStartGoal, getPendingPrerequisites in Hcan.
       rewrite Hfind, Hpre, Hdeps in Hcan. simpl in Hcan. by case_decide. }
  destruct (canStartGoal_subgoal gs g goal pre deps Hfind Hpre Hdeps)
    as (b & Hb & Hiff).
  rewrite Hcan in Hb. injection Hb as <-.
  destruct (proj1 Hiff eq_refl) as [_ Hd].
  exists goal, deps. split_and!; [done..|].
  intros d Hin. destruct (Hd d Hin) as (dg & Hdg & Hst).
  destruct (findGoal_cases _ _ _ Hdg) as [[Hm Hid]|Hsub]; [eauto|].
  rewrite Forall_forall in Hlive. by destruct (Hlive dg Hsub).
Qed.

Lemma only_the_main_goal_satisfies_a_dependency_witness :
  ∃ goal deps,
    findGoal "subgoal_1001_0" (run waiting_for_main new) = Some goal ∧
    Goal.dependencies goal = Some deps ∧
    ∀ d, d ∈ deps →
      ∃ mg, mainGoal (run waiting_for_main new) = Some mg ∧ Goal.id mg = d ∧
            Goal.status mg = completed.
Proof.
  apply (only_the_main_goal_satisfies_a_dependency waiting_for_main "subgoal_1001_0").
  vm_compute. reflexivity.
Defined.

(** *** Repeated failures *)

Lemma adaptations_of_mutate g r f gs :
  adaptations_of g (mutate r f gs) = adaptations_of g gs.
Proof. unfold adaptations_of. by rewrite strategyAdaptations_mutate. Qed.

Lemma record_failures_spec g failures : ∀ gs r goal,
  findGoalRef g gs = Some r → deref r gs = Some goal →
  let gs' := record_failures g failures gs in
  findGoalRef g gs' = Some r ∧
  ∃ goal', deref r gs' = Some goal' ∧
    Goal.attempts goal' = Goal.attempts goal + Z.of_nat (length failures) ∧
    Goal.status goal' =
      (if decide (failures ≠ [] ∧ 3 < Goal.attempts goal + Z.of_nat (length failures))
       then needs_revision else Goal.status goal) ∧
    length (adaptations_of g gs') =
      (length (adaptations_of g gs)
       + beyond_threshold (Goal.attempts goal) (length failures))%nat.
Proof.
  induction failures as [|[now why] failures IH]; intros gs r goal Hr Hd; simpl.
  - split; [done|]. exists goal. split_and!; [done|lia| |].
    + first [done | case_decide as Hc; [by destruct Hc|done]].
    + unfold beyond_threshold. simpl. lia.
  - destruct (recordFailedAttempt_spec now g why gs r goal Hr Hd)
      as (Hr1 & goal1 & Hd1 & Ha1 & Hi1 & Hs1).
    destruct (findGoalRef_deref _ _ _ Hr) as (goal0 & Hd0 & Hid). simplify_eq.
    destruct (IH _ _ _ Hr1 Hd1) as (Hr' & goal' & Hd' & Ha' & Hs' & Hn').
    split; [exact Hr'|]. exists goal'. split_and!; [exact Hd'|lia| |].
    + rewrite Hs', Ha1. clear Hs'. cbn [length].
      assert (Hst : Goal.status goal1 =
                if decide (3 < Goal.attempts goal + 1) then needs_revision
                else Goal.status goal)
        by (destruct (decide (3 < Goal.attempts goal + 1)); by destruct Hs1).
      rewrite Hst. clear Hst.
      destruct (decide (3 < Goal.attempts goal + 1)) as [Hc1|Hc1];
        destruct (decide (failures ≠ [] ∧ _)) as [[Hne Hlt]|Hk];
        destruct (decide ((now, why) :: failures ≠ [] ∧ _)) as [[_ Hlt']|Hk'];
        try done; exfalso;
        first [ apply Hk'; split; [done|lia]
              | apply Hk; split; [intros ->; simpl in *; lia|lia] ].
    + assert (Hlen1 :
        length (adaptations_of (Goal.id goal)
                  (recordFailedAttempt now (Goal.id goal) why gs)) =
        (length (adaptations_of (Goal.id goal) gs) +
         (if decide (3 < Goal.attempts goal + 1)%Z then 1 else 0))%nat).
      { unfold adaptations_of.
        destruct (decide (3 < Goal.attempts goal + 1)); destruct Hs1 as [_ ->].
        - rewrite List.filter_app, length_app. simpl.
          by rewrite bool_decide_true.
        - lia. }
      rewrite Hn', Hlen1, Ha1. unfold beyond_threshold. cbn [length].
      case_decide; lia.
Qed.

(** X5.  After [n] failures recorded for a goal that had no attempts, the
    goal has [n] attempts, it is marked [needs_revision] exactly when [n]
    exceeds three (its status is untouched before), and the adaptation log
    holds one more record of the goal for each failure beyond the
    third. *)
Theorem every_failure_beyond_the_third_is_logged g failures gs goal :
  findGoal g gs = Some goal →
  Goal.attempts goal = 0 →
  ∃ goal',
    findGoal g (record_failures g failures gs) = Some goal' ∧
    Goal.attempts goal' = Z.of_nat (length failures) ∧
    Goal.status goal' =
      (if decide (3 < length failures)%nat then needs_revision
       else Goal.status goal) ∧
    length (adaptations_of g (record_failures g failures gs)) =
      (length (adaptations_of g gs) + (length failures - 3))%nat.
Proof.
  intros Hfind Hzero. unfold findGoal in Hfind.
  destruct (findGoalRef g gs) as [r|] eqn:Hr; [|done]. simpl in Hfind.
  destruct (record_failures_spec g failures gs r goal Hr Hfind)
    as (Hr' & goal' & Hd' & Ha' & Hs' & Hn').
  exists goal'. unfold findGoal. rewrite Hr'. simpl.
  split_and!; [done|lia| |].
  - rewrite Hs', Hzero. clear Hs'.
    destruct (decide (failures ≠ [] ∧ _)) as [[Hne Hlt]|Hk];
      destruct (decide (3 < length failures)%nat) as [Hgt|Hle];
      try done; try lia.
    exfalso. apply Hk. split; [intros ->; simpl in *; lia|lia].
  - rewrite Hn', Hzero. unfold beyond_threshold. lia.
Qed.

Lemma every_failure_beyond_the_third_is_logged_witness :
  ∃ goal',
    findGoal GoalScenario.a_id
      (record_failures GoalScenario.a_id
         [(1, "a"); (2, "b"); (3, "c"); (4, "d"); (5, "e"); (6, "f")]
         GoalScenario.start.1) = Some goal' ∧
    Goal.attempts goal' = 6 ∧
    Goal.status goal' = needs_revision ∧
    length (adaptations_of GoalScenario.a_id
              (record_failures GoalScenario.a_id
                 [(1, "a"); (2, "b"); (3, "c"); (4, "d"); (5, "e"); (6, "f")]
                 GoalScenario.start.1)) = 3%nat.
Proof.
  edestruct (every_failure_beyond_the_third_is_logged GoalScenario.a_id
            [(1, "a"); (2, "b"); (3, "c"); (4, "d"); (5, "e"); (6, "f")]
            GoalScenario.start.1) as (goal' & H1 & H2 & H3 & H4);
    [vm_compute; reflexivity|reflexivity|].
  exists goal'. split_and!; [exact H1|exact H2|exact H3|exact H4].
Defined.

(** *** The mean over the subgoals that are kept *)

Lemma is_active_live g : is_active g = true ↔ live g.
Proof.
  unfold is_active, live. by rewrite andb_true_iff, !bool_decide_eq_true.
Qed.

Lemma contributions_of_live l : ∀ a,
  Forall live l →
  fold_left (λ sum goal, sum + contribution goal) l a =
  fold_left (λ sum goal, sum + Goal.progress goal) l a.
Proof.
  induction l as [|g l IH]; intros a Hl; simpl; [done|].
  apply Forall_cons in Hl as [[Hg _] Hl]. rewrite IH by done.
  unfold contribution. by case_decide.
Qed.

(** Progress within [0,100] in every state that calls with such
    arguments reach. *)
Lemma reachable_in_range calls :
  Forall argument_in_range calls → progress_in_range (run calls new).
Proof.
  intros Hcalls. unfold run.
  assert (Hnew : progress_in_range new) by (by apply progress_in_range_alt).
  revert Hnew. generalize new.
  induction Hcalls as [|call calls Hcall Hcalls IH]; intros gs Hgs; simpl; [done|].
  apply IH. by apply step_in_range.
Qed.

Lemma total_progress_bounds l :
  Forall in_range l → 0 ≤ total_progress l ≤ 100 * Z.of_nat (length l).
Proof.
  intros Hl. unfold total_progress.
  assert (Hfrom : ∀ a,
            a ≤ fold_left (λ sum goal, sum + Goal.progress goal) l a
              ≤ a + 100 * Z.of_nat (length l)); [|apply (Hfrom 0)].
  induction Hl as [|g l Hg Hl IH]; intros a; cbn [fold_left length]; [lia|].
  specialize (IH (a + Goal.progress g)). unfold in_range in Hg. lia.
Qed.

Lemma total_progress_exact l :
  Forall in_range l → Z.of_nat (length l) < 2 ^ 32 →
  0 ≤ total_progress l < 2 ^ 53.
Proof.
  intros Hl Hlen. pose proof (total_progress_bounds l Hl) as Hb.
  change (2 ^ 32) with 4294967296 in Hlen.
  change (2 ^ 53) with 9007199254740992. lia.
Qed.

(** X6.  In every state with a main goal that calls with integer progress
    within [0,100] reach and that has fewer than 2^32 subgoals (the bound
    of an array), [updateGoalProgress] on a subgoal with such a progress
    stores the progress it is given and sets the progress of the main goal
    to the floor of the mean of the stored progress of the subgoals.  The
    progress of every subgoal is then an integer within [0,100] and the
    sum an integer below 2^53: the doubles of the source compute the sum
    and the floor of the quotient exactly. *)
Theorem main_progress_is_the_mean_of_the_subgoals calls now g p ctx goal :
  let gs := run calls new in
  let gs' := updateGoalProgress now g p ctx gs in
  Forall argument_in_range calls →
  0 ≤ p ≤ 100 →
  Z.of_nat (length (subGoals gs)) < 2 ^ 32 →
  is_Some (mainGoal gs) →
  not_main g gs →
  findGoal g gs = Some goal →
  (Goal.progress <$> findGoal g gs') = Some p ∧
  Forall in_range (subGoals gs') ∧
  0 ≤ total_progress (subGoals gs') < 2 ^ 53 ∧
  main_progress gs' =
    Some (total_progress (subGoals gs') `div` Z.of_nat (length (subGoals gs'))).
Proof.
  intros gs gs' Hcalls Hp Hlen [mg Hm] Hnm Hfind. subst gs'.
  pose proof (reachable_live calls) as Hlive.
  pose proof (reachable_in_range calls Hcalls) as Hrange.
  fold gs in Hlive, Hrange.
  apply progress_in_range_alt in Hrange as (_ & Hrange & _).
  destruct (findGoal_sub _ _ _ Hfind Hnm) as (i & Hr & Hi & Hid).
  unfold updateGoalProgress. rewrite Hr. cbn [mutate mainGoal]. rewrite Hm.
  rewrite decide_True by (intros ->; by apply (Hnm mg)).
  set (gs1 := {| mainGoal := Some mg; subGoals := _ |}).
  assert (Hlive1 : Forall live (subGoals gs1)).
  { subst gs1. cbn [subGoals]. apply Forall_alter; [done|]. by intros x _ Hx. }
  assert (Hrange1 : Forall in_range (subGoals gs1)).
  { subst gs1. cbn [subGoals]. apply Forall_alter; [done|]. intros x _ _. exact Hp. }
  assert (Hlen1 : length (subGoals gs1) = length (subGoals gs)).
  { subst gs1. cbn [subGoals]. apply length_alter. }
  assert (Hi1 : subGoals gs1 !! i = Some (Goal.set_progress p now ctx goal)).
  { subst gs1. cbn [subGoals]. by rewrite list_lookup_alter_eq, Hi. }
  assert (Hr1 : findGoalRef g gs1 = Some (RefSub i)).
  { rewrite <- Hr.
    rewrite <- (findGoalRef_mutate g (RefSub i) (Goal.set_progress p now ctx) gs) by done.
    subst gs1. simpl. by rewrite Hm. }
  rewrite subGoals_updateMainGoalProgress.
  split; [|split; [exact Hrange1|split]].
  - destruct (updateMainGoalProgress_mutate gs1) as [q ->].
    unfold findGoal. rewrite findGoalRef_mutate, Hr1 by done.
    change (Goal.progress <$> subGoals gs1 !! i = Some p). by rewrite Hi1.
  - apply total_progress_exact; [exact Hrange1|by rewrite Hlen1].
  - rewrite (updateMainGoalProgress_mean gs1 mg) by
      (first [done | eexists; split;
                       [by eapply list_elem_of_lookup_2
                       |apply is_active_live; split; simpl;
                        rewrite Forall_forall in Hlive;
                        apply (Hlive goal); by eapply list_elem_of_lookup_2]]).
    by rewrite contributions_of_live.
Qed.

Lemma main_progress_is_the_mean_of_the_subgoals_witness :
  (Goal.progress <$>
     findGoal "subgoal_1002_1"
       (updateGoalProgress 1010 "subgoal_1002_1" 75 ∅
          (run (take 5 GoalScenario.in_range_calls) new))) = Some 75 ∧
  main_progress
    (updateGoalProgress 1010 "subgoal_1002_1" 75 ∅
       (run (take 5 GoalScenario.in_range_calls) new)) = Some 57.
Proof.
  edestruct (main_progress_is_the_mean_of_the_subgoals
               (take 5 GoalScenario.in_range_calls) 1010 "subgoal_1002_1" 75 ∅)
    as (H1 & _ & _ & H2).
  - repeat constructor; simpl; lia.
  - lia.
  - vm_compute. reflexivity.
  - vm_compute. eauto.
  - intros mg Hmg. vm_compute in Hmg. injection Hmg as <-. vm_compute. discriminate.
  - vm_compute. reflexivity.
  - split; [exact H1|exact H2].
Defined.

(** *** The main goal when a subgoal is finished *)

Lemma recomputed_over_live (gs : GoalSystem.t) mg :
  mainGoal gs = Some mg →
  Forall live (subGoals gs) →
  main_progress (updateMainGoalProgress gs) =
    Some (if decide (subGoals gs = []) then Goal.progress mg
          else total_progress (subGoals gs) `div` Z.of_nat (length (subGoals gs))).
Proof.
  intros Hm Hlive. destruct (subGoals gs) as [|g l] eqn:Hsub.
  - unfold updateMainGoalProgress. rewrite Hm, Hsub. cbn [List.filter length].
    rewrite decide_True by done. rewrite decide_False by (cbn; lia).
    unfold main_progress. simpl. by rewrite Hm.
  - rewrite decide_False by done. rewrite <- Hsub.
    rewrite (updateMainGoalProgress_mean gs mg Hm).
    + rewrite contributions_of_live; [done|by rewrite Hsub].
    + exists g. rewrite Hsub. split; [by left|].
      apply is_active_live. by apply Forall_cons in Hlive as [? _].
Qed.

(** X25.  In every state with a main goal that calls with integer
    progress within [0,100] reach and that has fewer than 2^32 subgoals,
    completing or failing a subgoal recomputes the progress of the main
    goal over the subgoals that are left: it becomes the floor of the mean
    of their stored progress, and it stays as it was when none is left.
    The finished subgoal does not count, and finishing the last subgoal
    does not bring the main goal to 100.  The progress of the subgoals
    that are left is within [0,100] and its sum below 2^53, so that the
    doubles of the source compute the same value. *)
Theorem finishing_a_subgoal_recomputes_over_the_rest calls now g why goal mg :
  let gs := run calls new in
  let rest := others g (subGoals gs) in
  let recomputed :=
    if decide (rest = []) then Goal.progress mg
    else total_progress rest `div` Z.of_nat (length rest) in
  Forall argument_in_range calls →
  Z.of_nat (length (subGoals gs)) < 2 ^ 32 →
  findGoal g gs = Some goal →
  not_main g gs →
  mainGoal gs = Some mg →
  main_progress (completeGoal now g gs) = Some recomputed ∧
  main_progress (failGoal now g why gs) = Some recomputed ∧
  Forall in_range rest ∧
  0 ≤ total_progress rest < 2 ^ 53.
Proof.
  intros gs rest recomputed Hcalls Hlen Hfind Hnm Hm. subst rest recomputed.
  pose proof (reachable_live calls) as Hlive. fold gs in Hlive.
  pose proof (reachable_in_range calls Hcalls) as Hrange. fold gs in Hrange.
  apply progress_in_range_alt in Hrange as (_ & Hrange & _).
  destruct (findGoal_sub _ _ _ Hfind Hnm) as (i & Hr & Hi & Hid).
  assert (Hrest : Forall live (others g (subGoals gs))).
  { apply Forall_forall. intros x Hx.
    apply list_elem_of_In, List.filter_In in Hx as [Hx _].
    rewrite Forall_forall in Hlive. apply Hlive. by apply list_elem_of_In. }
  assert (Hrest_range : Forall in_range (others g (subGoals gs))).
  { apply Forall_forall. intros x Hx.
    apply list_elem_of_In, List.filter_In in Hx as [Hx _].
    rewrite Forall_forall in Hrange. apply Hrange. by apply list_elem_of_In. }
  assert (Hrest_len : Z.of_nat (length (others g (subGoals gs))) < 2 ^ 32).
  { pose proof (List.filter_length_le
                  (λ x, bool_decide (Goal.id x ≠ g)) (subGoals gs)) as Hle.
    unfold others. lia. }
  split; [|split; [|split; [exact Hrest_range|by apply total_progress_exact]]].
  - unfold completeGoal. rewrite Hr.
    rewrite remove_subgoal_sub by (intros m; apply Hnm).
    cbn [subGoals mainGoal completedGoals failedGoals strategyAdaptations
         mutate deref].
    rewrite (others_alter g _ i _ goal) by done.
    by rewrite (recomputed_over_live _ mg).
  - unfold failGoal. rewrite Hr.
    rewrite remove_subgoal_sub by (intros m; apply Hnm).
    cbn [subGoals mainGoal completedGoals failedGoals strategyAdaptations
         mutate deref].
    rewrite (others_alter g _ i _ goal) by done.
    by rewrite (recomputed_over_live _ mg).
Qed.

Lemma finishing_a_subgoal_recomputes_over_the_rest_witness :
  main_progress
    (completeGoal 1010 "subgoal_1002_1" (run (take 6 GoalScenario.in_range_calls) new))
    = Some 60 ∧
  main_progress
    (failGoal 1010 "subgoal_1002_1" "no planks"
       (run (take 6 GoalScenario.in_range_calls) new))
    = Some 60.
Proof.
  edestruct (finishing_a_subgoal_recomputes_over_the_rest
               (take 6 GoalScenario.in_range_calls) 1010 "subgoal_1002_1" "no planks")
    as (H1 & H2 & _).
  - repeat constructor; simpl; lia.
  - vm_compute. reflexivity.
  - vm_compute. reflexivity.
  - intros m Hmg. vm_compute in Hmg. injection Hmg as <-. vm_compute. discriminate.
  - vm_compute. reflexivity.
  - split; [exact H1|exact H2].
Defined.
End GoalSystemMore.

(** ** Block categories *)

Module BlockCategoriesProps.
Import BlockCategories.

(** Case analysis on the membership in an explicit list. *)
Ltac each_member H :=
  repeat (apply elem_of_cons in H as [H|H]);
  [..|by apply elem_of_nil in H].

(** Membership in an explicit list, by evaluation. *)
Ltac by_evaluation := apply (bool_decide_unpack _); by vm_compute.


Lemma fold_left_inserts (l : list (string * string)) (m : gmap string string) :
  fold_left (λ m kv, <[kv.1 := kv.2]> m) l m = list_to_map (reverse l) ∪ m.
Proof.
  revert m. induction l as [|[k v] l IH]; intros m; simpl.
  - by rewrite (left_id_L ∅ (∪)).
  - rewrite IH, reverse_cons, list_to_map_app. simpl.
    rewrite <- (assoc_L (∪)). f_equal.
    by rewrite insert_empty, <- insert_union_singleton_l.
Qed.

Lemma fold_left_category c (blocks : list string) (m : gmap string string) :
  fold_left (λ m block, <[block := c]> m) blocks m =
  fold_left (λ m kv, <[kv.1 := kv.2]> m) ((λ b, (b, c)) <$> blocks) m.
Proof.
  revert m. induction blocks as [|b blocks IH]; intros m; [done|].
  cbn [fold_left fmap list_fmap]. by rewrite IH.
Qed.

Lemma blockToCategory_written :
  blockToCategory = list_to_map (reverse written).
Proof.
  unfold blockToCategory, written.
  rewrite <- (right_id_L ∅ (∪) (list_to_map _)), <- fold_left_inserts.
  generalize (∅ : gmap string string).
  induction blockCategories_entries as [|[c blocks] es IH]; intros m; [done|].
  cbn [fold_left flat_map fst snd].
  by rewrite fold_left_app, <- IH, fold_left_category.
Qed.

Lemma written_NoDup : NoDup written.*1.
Proof. by_evaluation. Qed.

Lemma entries_NoDup : NoDup blockCategories_entries.*1.
Proof. by_evaluation. Qed.

Lemma blockCategories_lookup c blocks :
  blockCategories !! c = Some blocks ↔ (c, blocks) ∈ blockCategories_entries.
Proof.
  unfold blockCategories. symmetry. apply elem_of_list_to_map, entries_NoDup.
Qed.

Lemma blockToCategory_lookup b c :
  blockToCategory !! b = Some c ↔ in_category c b.
Proof.
  rewrite blockToCategory_written.
  rewrite <- elem_of_list_to_map
    by (rewrite fmap_reverse, reverse_Permutation; apply written_NoDup).
  rewrite elem_of_reverse. unfold in_category.
  split.
  - intros Hin. vm_compute in Hin. each_member Hin; simplify_eq;
      (eexists; split;
         [apply blockCategories_lookup; solve [repeat econstructor]|]);
      by_evaluation.
  - intros (blocks & Hc & Hb). apply blockCategories_lookup in Hc.
    vm_compute in Hc. each_member Hc; simplify_eq;
      each_member Hb; subst; by_evaluation.
Qed.

Lemma categorized_not_inherited b c :
  in_category c b → b ∉ object_prototype.
Proof.
  intros Hin%blockToCategory_lookup. revert Hin.
  rewrite blockToCategory_written.
  rewrite <- elem_of_list_to_map
    by (rewrite fmap_reverse, reverse_Permutation; apply written_NoDup).
  rewrite elem_of_reverse. intros Hin. vm_compute in Hin.
  each_member Hin; simplify_eq; by_evaluation.
Qed.

Lemma getBlockCategory_cases b :
  (∃ c, getBlockCategory b = Some (Own c) ∧ in_category c b) ∨
  (getBlockCategory b = Some (Inherited b) ∧ b ∈ object_prototype ∧
   ∀ c, ¬ in_category c b) ∨
  (getBlockCategory b = None ∧ (b ∉ object_prototype) ∧ ∀ c, ¬ in_category c b).
Proof.
  unfold getBlockCategory, read_property.
  destruct (blockToCategory !! b) as [c|] eqn:Hb.
  - left. exists c. split; [done|]. by apply blockToCategory_lookup.
  - right. assert (Hno : ∀ c, ¬ in_category c b).
    { intros c Hin%blockToCategory_lookup. congruence. }
    case_decide; [left|right]; auto.
Qed.

Lemma getBlockCategory_own b c :
  getBlockCategory b = Some (Own c) ↔ in_category c b.
Proof.
  unfold getBlockCategory, read_property. rewrite <- blockToCategory_lookup.
  destruct (blockToCategory !! b) as [c0|]; [naive_solver|].
  case_decide; naive_solver.
Qed.

Lemma in_category_unique b c c' : in_category c b → in_category c' b → c = c'.
Proof. intros H1%blockToCategory_lookup H2%blockToCategory_lookup. congruence. Qed.

Lemma isSimilarBlock_same_category c b1 b2 :
  in_category c b1 → in_category c b2 → isSimilarBlock b1 b2 = true.
Proof.
  intros H1%getBlockCategory_own H2%getBlockCategory_own.
  unfold isSimilarBlock. rewrite H1, H2. by apply bool_decide_eq_true.
Qed.

(** X7.  [getBlockCategory] inverts [getBlocksInCategory]: the category of
    a block is [c] exactly when [getBlocksInCategory(c)] lists the block,
    and a block has at most one category. *)
Theorem getBlockCategory_inverts_getBlocksInCategory b c :
  (getBlockCategory b = Some (Own c) ↔
   ∃ blocks, getBlocksInCategory c = Own blocks ∧ b ∈ blocks) ∧
  (∀ c', getBlockCategory b = Some (Own c') → getBlockCategory b = Some (Own c) →
         c = c').
Proof.
  split; [|congruence].
  rewrite getBlockCategory_own. unfold in_category, getBlocksInCategory, read_property.
  split.
  - intros (blocks & -> & Hb). by exists blocks.
  - intros (blocks & Hg & Hb). exists blocks. split; [|done].
    destruct (blockCategories !! c) as [l|]; [congruence|].
    case_decide; simplify_eq. by apply elem_of_nil in Hb.
Qed.

(** X8.  [isSimilarBlock(b1, b2)] is truthy exactly when the table lists
    both blocks under one category, or when [b1] names a member of
    [Object.prototype] and [b2] is the same name.  A name that is neither
    in the table nor such a member is not similar to itself. *)
Theorem isSimilarBlock_iff b1 b2 :
  isSimilarBlock b1 b2 = true ↔
  (∃ c, in_category c b1 ∧ in_category c b2) ∨
  (b1 ∈ object_prototype ∧ b2 = b1).
Proof.
  split.
  - unfold isSimilarBlock.
    destruct (getBlockCategory_cases b1)
      as [(c & Hg & Hc)|[(Hg & Hp & Hno)|(Hg & Hp & Hno)]];
      rewrite Hg; [| |done]; intros Heq%bool_decide_eq_true.
    + left. exists c. split; [done|]. by apply getBlockCategory_own.
    + right. split; [done|].
      destruct (getBlockCategory_cases b2)
        as [(c & Hg2 & _)|[(Hg2 & _)|(Hg2 & _)]]; congruence.
  - intros [(c & H1 & H2)|[Hp ->]]; [by eapply isSimilarBlock_same_category|].
    unfold isSimilarBlock.
    destruct (getBlockCategory_cases b1)
      as [(c & _ & Hc)|[(Hg & _)|(_ & Hn & _)]].
    + by apply categorized_not_inherited in Hc.
    + rewrite Hg. by apply bool_decide_eq_true.
    + done.
Qed.

Lemma filter_out_one (b : string) (blocks : list string) :
  NoDup blocks → b ∈ blocks →
  S (length (List.filter (λ x, bool_decide (x ≠ b)) blocks)) = length blocks.
Proof.
  induction 1 as [|x l Hx Hl IH]; intros Hb; [by apply elem_of_nil in Hb|].
  cbn [List.filter length]. apply elem_of_cons in Hb as [->|Hb].
  - rewrite bool_decide_false by (by intros ?). f_equal.
    clear IH Hl. induction l as [|y l IH]; [done|].
    cbn [List.filter length]. apply not_elem_of_cons in Hx as [Hne Hx].
    rewrite bool_decide_true by done. cbn [length]. f_equal. by apply IH.
  - rewrite bool_decide_true by (intros ->; done). cbn [length]. f_equal. by apply IH.
Qed.

Lemma category_NoDup c blocks : blockCategories !! c = Some blocks → NoDup blocks.
Proof.
  intros Hc%blockCategories_lookup. vm_compute in Hc.
  each_member Hc; simplify_eq; by_evaluation.
Qed.

(** X9.  [findAlternativeBlock].  For a block of the table the result is
    the list of its category without the block, in the order of the
    table: the block is not in it, it has one entry less than the
    category, and every alternative is similar to the block, in both
    directions.  For a name that names a member of [Object.prototype] the
    call throws; for every other name the result is [null]. *)
Theorem findAlternativeBlock_cases b :
  match findAlternativeBlock b with
  | Ok (Some alternatives) =>
      ∃ c blocks,
        getBlockCategory b = Some (Own c) ∧
        blockCategories !! c = Some blocks ∧ b ∈ blocks ∧
        alternatives = List.filter (λ x, bool_decide (x ≠ b)) blocks ∧
        (b ∉ alternatives) ∧
        S (length alternatives) = length blocks ∧
        Forall (λ a, isSimilarBlock b a = true ∧ isSimilarBlock a b = true)
          alternatives
  | Ok None => (b ∉ object_prototype) ∧ ∀ c, ¬ in_category c b
  | Throw _ => b ∈ object_prototype
  end.
Proof.
  unfold findAlternativeBlock.
  destruct (getBlockCategory_cases b)
    as [(c & Hg & Hc)|[(Hg & Hp & Hno)|(Hg & Hp & Hno)]];
    rewrite Hg; [|exact Hp|exact (conj Hp Hno)].
  destruct Hc as (blocks & Hc & Hb). unfold read_property. rewrite Hc.
  exists c, blocks.
  split; [reflexivity|]. split; [exact Hc|]. split; [exact Hb|].
  split; [reflexivity|]. split; [|split].
  - intros Hin%list_elem_of_In%List.filter_In. destruct Hin as [_ Hne].
    apply bool_decide_eq_true in Hne. by apply Hne.
  - apply filter_out_one; [exact (category_NoDup _ _ Hc)|exact Hb].
  - apply Forall_forall. intros a Ha%list_elem_of_In%List.filter_In.
    destruct Ha as [Ha%list_elem_of_In _].
    split; apply (isSimilarBlock_same_category c);
      exists blocks; (split; [exact Hc|assumption]).
Qed.
End BlockCategoriesProps.

(** ** Spatial memory: queries *)

Module MemoryQueriesProps.
Import EnhancedMemoryBank MemoryQueries MemorySpec.

Local Instance closer_total : Total closer.
Proof.
  intros a b. unfold closer. rewrite !Qle_bool_iff.
  destruct (Qlt_le_dec (vl_distance b) (vl_distance a)) as [Hlt|Hle];
    [right; by apply Qlt_le_weak|by left].
Qed.

Local Instance closer_trans : Transitive closer.
Proof.
  intros a b c. unfold closer. rewrite !Qle_bool_iff. apply Qle_trans.
Qed.

Lemma elem_of_List_filter {A} (p : A → bool) (l : list A) x :
  x ∈ List.filter p l ↔ x ∈ l ∧ p x = true.
Proof. by rewrite !list_elem_of_In, List.filter_In. Qed.

Lemma List_filter_sublist {A} (p : A → bool) (l : list A) :
  List.filter p l `sublist_of` l.
Proof.
  induction l as [|a l IH]; [done|]. cbn [List.filter].
  destruct (p a); by constructor.
Qed.

Lemma filter_fmap_sublist {A B C} (g : A → B) (n : B → C) (k : A → C)
    (p : B → bool) (l : list A) :
  (∀ a, n (g a) = k a) →
  n <$> List.filter p (g <$> l) `sublist_of` k <$> l.
Proof.
  intros Hk. induction l as [|a l IH]; [done|]. csimpl.
  destruct (p (g a)); csimpl; [rewrite Hk|]; by constructor.
Qed.

Lemma omap_filter_fmap {A B} (g : A → B) (p : B → bool) (l : list A) :
  omap (λ a, if p (g a) then Some (g a) else None) l = List.filter p (g <$> l).
Proof.
  induction l as [|a l IH]; [done|]. csimpl.
  rewrite IH. by destruct (p (g a)).
Qed.


(** *** Remembered routes *)

Lemma rememberPath_paths now from to waypoints obstacles (m : EnhancedMemoryBank.t) :
  let key := from +:+ "->" +:+ to in
  paths (rememberPath now from to waypoints obstacles m) =
  <[key := {| pr_waypoints := waypoints; pr_obstacles := obstacles;
              lastUsed := now; useCount := uses_of key m + 1 |}]> (paths m).
Proof. reflexivity. Qed.

Lemma rememberPath_uses now from to waypoints obstacles (m : EnhancedMemoryBank.t) :
  uses_of (from +:+ "->" +:+ to) (rememberPath now from to waypoints obstacles m) =
  uses_of (from +:+ "->" +:+ to) m + 1.
Proof.
  unfold uses_of at 1. rewrite rememberPath_paths. cbv zeta.
  by rewrite lookup_insert_eq.
Qed.

Lemma remember_route_uses from to uses (m : EnhancedMemoryBank.t) :
  let key := from +:+ "->" +:+ to in
  uses_of key (remember_route from to uses m) = uses_of key m + Z.of_nat (length uses) ∧
  (∀ key', key' ≠ key → paths (remember_route from to uses m) !! key' = paths m !! key') ∧
  locations (remember_route from to uses m) = locations m ∧
  regions (remember_route from to uses m) = regions m ∧
  landmarks (remember_route from to uses m) = landmarks m.
Proof.
  cbv zeta. revert m. unfold remember_route.
  induction uses as [|[[now waypoints] obstacles] uses IH]; intros m.
  { split; [cbn [length fold_left]; lia|done]. }
  cbn [fold_left fst snd].
  destruct (IH (rememberPath now from to waypoints obstacles m))
    as (Hcount & Hother & Hloc & Hreg & Hlm).
  rewrite Hcount, Hloc, Hreg, Hlm. split; [|split; [|done]].
  - rewrite rememberPath_uses. cbn [length]. lia.
  - intros key' Hne. rewrite Hother by done.
    rewrite rememberPath_paths. cbv zeta. by rewrite lookup_insert_ne.
Qed.

(** X10.  [rememberPath] counts the uses of a route.  After any number of
    calls for the route and one more, the record under the key
    [from->to] holds the waypoints, obstacles and time of the last call,
    and its use count is the count that the bank had before plus the
    number of calls; the other routes and the other tables are as they
    were, and [getKnownPaths] lists the route with that count. *)
Theorem useCount_counts_the_uses from to uses now waypoints obstacles
    (m : EnhancedMemoryBank.t) :
  let key := from +:+ "->" +:+ to in
  let m' := rememberPath now from to waypoints obstacles
              (remember_route from to uses m) in
  let count := uses_of key m + Z.of_nat (length uses) + 1 in
  paths m' !! key =
    Some {| pr_waypoints := waypoints; pr_obstacles := obstacles;
            lastUsed := now; useCount := count |} ∧
  (∀ key', key' ≠ key → paths m' !! key' = paths m !! key') ∧
  {| kp_route := key; kp_lastUsed := now; kp_useCount := count |}
    ∈ getKnownPaths m' ∧
  locations m' = locations m ∧ regions m' = regions m ∧
  landmarks m' = landmarks m.
Proof.
  cbv zeta.
  destruct (remember_route_uses from to uses m) as (Hcount & Hother & Hloc & Hreg & Hlm).
  cbv zeta in Hcount, Hother.
  assert (Hkey : paths (rememberPath now from to waypoints obstacles
                          (remember_route from to uses m))
                   !! (from +:+ "->" +:+ to) =
                 Some {| pr_waypoints := waypoints; pr_obstacles := obstacles;
                         lastUsed := now;
                         useCount := uses_of (from +:+ "->" +:+ to) m
                                     + Z.of_nat (length uses) + 1 |}).
  { rewrite rememberPath_paths. cbv zeta. by rewrite lookup_insert_eq, Hcount. }
  split; [done|]. split; [|split; [|done]].
  - intros key' Hne. rewrite rememberPath_paths. cbv zeta.
    rewrite lookup_insert_ne by done. by apply Hother.
  - unfold getKnownPaths. apply list_elem_of_fmap.
    eexists (_, _). split; [|by apply elem_of_map_to_list]. done.
Qed.

(** *** Terrain difficulty *)

Lemma Math_max_spec e l :
  Math_max e l ∈ e :: l ∧ ∀ y, y ∈ e :: l → y ≤ Math_max e l.
Proof.
  unfold Math_max. revert e. induction l as [|a l IH]; intros e.
  { cbn [fold_left]. split; [by left|]. intros y ->%list_elem_of_singleton. lia. }
  cbn [fold_left]. destruct (IH (Z.max e a)) as [Hin Hub]. split.
  - apply elem_of_cons in Hin as [Heq|Hin]; [|by do 2 right].
    rewrite Heq. destruct (Z.max_spec e a) as [[_ ->]|[_ ->]];
      [right; left|left]; done.
  - intros y Hy. apply elem_of_cons in Hy as [->|Hy].
    + etrans; [|apply Hub; by left]. lia.
    + apply elem_of_cons in Hy as [->|Hy].
      * etrans; [|apply Hub; by left]. lia.
      * apply Hub. by right.
Qed.

Lemma Math_min_spec e l :
  Math_min e l ∈ e :: l ∧ ∀ y, y ∈ e :: l → Math_min e l ≤ y.
Proof.
  unfold Math_min. revert e. induction l as [|a l IH]; intros e.
  { cbn [fold_left]. split; [by left|]. intros y ->%list_elem_of_singleton. lia. }
  cbn [fold_left]. destruct (IH (Z.min e a)) as [Hin Hlb]. split.
  - apply elem_of_cons in Hin as [Heq|Hin]; [|by do 2 right].
    rewrite Heq. destruct (Z.min_spec e a) as [[_ ->]|[_ ->]];
      [left|right; left]; done.
  - intros y Hy. apply elem_of_cons in Hy as [->|Hy].
    + etrans; [apply Hlb; by left|]. lia.
    + apply elem_of_cons in Hy as [->|Hy].
      * etrans; [apply Hlb; by left|]. lia.
      * apply Hlb. by right.
Qed.

Lemma elem_of_elevations (terrain : Terrain) y :
  y ∈ (map_to_list (elevation terrain)).*2 ↔ ∃ key, elevation terrain !! key = Some y.
Proof.
  rewrite list_elem_of_fmap. split.
  - intros ([key y'] & -> & Hin%elem_of_map_to_list). by exists key.
  - intros (key & Hkey). exists (key, y). split; [done|]. by apply elem_of_map_to_list.
Qed.

Lemma maxDiff_spread (terrain : Terrain) e elevations k :
  (map_to_list (elevation terrain)).*2 = e :: elevations →
  Math_max e elevations - Math_min e elevations ≤ k ↔ spread_within k terrain.
Proof.
  intros Hvals.
  destruct (Math_max_spec e elevations) as [Hmax_in Hmax].
  destruct (Math_min_spec e elevations) as [Hmin_in Hmin].
  rewrite <- Hvals in Hmax_in, Hmax, Hmin_in, Hmin. split.
  - intros Hle key1 key2 y1 y2 H1 H2.
    assert (y1 ≤ Math_max e elevations)
      by (apply Hmax, elem_of_elevations; by exists key1).
    assert (Math_min e elevations ≤ y2)
      by (apply Hmin, elem_of_elevations; by exists key2).
    lia.
  - intros Hspread.
    apply elem_of_elevations in Hmax_in as [key1 H1].
    apply elem_of_elevations in Hmin_in as [key2 H2].
    by apply (Hspread key1 key2).
Qed.

(** X11.  [analyzeTerrainDifficulty] answers 'unknown' exactly when there
    is no elevation, 'easy' when there are elevations and no two differ by
    more than 2, 'moderate' when two differ by more than 2 but none by
    more than 5, and 'difficult' when two differ by more than 5. *)
Theorem analyzeTerrainDifficulty_cases :
  analyzeTerrainDifficulty None = "unknown" ∧
  ∀ terrain,
    (analyzeTerrainDifficulty (Some terrain) = "unknown" ↔ elevation terrain = ∅) ∧
    (analyzeTerrainDifficulty (Some terrain) = "easy" ↔
     elevation terrain ≠ ∅ ∧ spread_within 2 terrain) ∧
    (analyzeTerrainDifficulty (Some terrain) = "moderate" ↔
     spread_within 5 terrain ∧ ¬ spread_within 2 terrain) ∧
    (analyzeTerrainDifficulty (Some terrain) = "difficult" ↔
     ¬ spread_within 5 terrain).
Proof.
  split; [done|]. intros terrain. unfold analyzeTerrainDifficulty.
  destruct ((map_to_list (elevation terrain)).*2) as [|e elevations] eqn:Hvals.
  - apply fmap_nil_inv, map_to_list_empty_iff in Hvals.
    assert (Hall : ∀ k, spread_within k terrain).
    { intros k key1 key2 y1 y2 H1. by rewrite Hvals, lookup_empty in H1. }
    pose proof (Hall 2). pose proof (Hall 5).
    split_and!; split; intros; first [discriminate|tauto].
  - assert (Hne : elevation terrain ≠ ∅).
    { intros Hempty%map_to_list_empty_iff. by rewrite Hempty in Hvals. }
    cbv zeta.
    pose proof (maxDiff_spread terrain e elevations 2 Hvals) as H2.
    pose proof (maxDiff_spread terrain e elevations 5 Hvals) as H5.
    assert (H25 : spread_within 2 terrain → spread_within 5 terrain).
    { intros Hs key1 key2 y1 y2 Hk1 Hk2. specialize (Hs key1 key2 y1 y2 Hk1 Hk2). lia. }
    repeat case_decide; split_and!; split; intros; first [discriminate|tauto].
Qed.

(** *** Nearest resources *)

Lemma omap_in_range (resources : list (option Resource)) :
  omap (λ r : option Resource,
          r ≫= λ r, if Qle_bool (res_nearest r) 32 then Some r else None) resources
  = List.filter (λ r, Qle_bool (res_nearest r) 32) (truthy resources).
Proof.
  unfold truthy. induction resources as [|[r|] resources IH]; [done| |done].
  csimpl. rewrite IH. by destruct (Qle_bool (res_nearest r) 32).
Qed.

(** X12.  [analyzeNearestResources] returns the empty list for an argument
    that is no array.  For an array it returns one entry for each truthy
    resource at a distance of at most 32, nearest first, and flags every
    entry as accessible. *)
Theorem analyzeNearestResources_spec (resources : list (option Resource)) :
  let result := analyzeNearestResources (Some resources) in
  analyzeNearestResources None = [] ∧
  Sorted not_farther result ∧
  result ≡ₚ resource_entry
              <$> List.filter (λ r, Qle_bool (res_nearest r) 32) (truthy resources) ∧
  Forall (λ entry, (nr_distance entry <= 32)%Q ∧ nr_accessible entry = true) result.
Proof.
  cbv zeta. unfold analyzeNearestResources. rewrite omap_in_range.
  split; [done|]. split; [|split].
  - apply (Sorted_fmap _ nearer).
    + intros a b. unfold nearer, not_farther. by rewrite Qle_bool_iff.
    + apply Sorted_merge_sort. intros a b. unfold nearer. rewrite !Qle_bool_iff.
      destruct (Qlt_le_dec (res_nearest b) (res_nearest a));
        [right; by apply Qlt_le_weak|by left].
  - by rewrite merge_sort_Permutation.
  - rewrite merge_sort_Permutation. apply Forall_fmap, Forall_forall.
    intros r [_ Hr]%elem_of_List_filter. split; [|done]. by apply Qle_bool_iff.
Qed.

Section WithBot.
Context {W : Type} `{Bot W}.

(** X13.  [getNearbyLandmarks] returns the landmarks of the bank whose
    distance from the position is at most the radius (16 when none is
    given), each once, nearest first. *)
Theorem getNearbyLandmarks_nearest_first position radius (m : EnhancedMemoryBank.t) :
  let result := getNearbyLandmarks position radius m in
  Sorted closer result ∧
  (∀ l, l ∈ result ↔
        ∃ name landmark,
          landmarks m !! name = Some landmark ∧
          l = landmark_entry position name landmark ∧
          (vl_distance l <= default 16 radius)%Q) ∧
  NoDup (vl_name <$> result).
Proof.
  cbv zeta. unfold getNearbyLandmarks. split; [|split].
  - apply Sorted_merge_sort, _.
  - intros l. rewrite merge_sort_Permutation, elem_of_List_filter, list_elem_of_fmap.
    rewrite Qle_bool_iff. split.
    + intros [([name landmark] & -> & Hin%elem_of_map_to_list) Hle].
      by exists name, landmark.
    + intros (name & landmark & Hin & -> & Hle). split; [|done].
      exists (name, landmark). split; [done|]. by apply elem_of_map_to_list.
  - rewrite merge_sort_Permutation.
    apply (sublist_NoDup _ ((map_to_list (landmarks m)).*1));
      [apply NoDup_fst_map_to_list|].
    by apply filter_fmap_sublist.
Qed.

(** X14.  [getVisibleLandmarks(bot)] is [getNearbyLandmarks] at the
    position of the bot with the default radius. *)
Theorem getVisibleLandmarks_is_getNearbyLandmarks (w : W) (m : EnhancedMemoryBank.t) :
  getVisibleLandmarks w m = getNearbyLandmarks (getPosition w) None m.
Proof.
  unfold getVisibleLandmarks, getNearbyLandmarks. cbv zeta. f_equal.
  apply (omap_filter_fmap
           (λ entry : string * Landmark,
              {| vl_name := entry.1;
                 vl_distance := calculateDistance (getPosition w) (lm_position entry.2);
                 vl_landmark := entry.2 |})
           (λ l, Qle_bool (vl_distance l) 16)).
Qed.


(** *** The summary of the context *)

(** X15.  After [updateSpatialContext], when the clock is not zero,
    [summarizeContext] lists the first three of the visible landmarks,
    and no visible landmark that it leaves out is closer than one that it
    lists; it lists the first five nearby block types, and the age of the
    context in whole seconds.  A new bank has no context to summarize. *)
Theorem summarizeContext_lists_the_nearest_landmarks (w : W) (now : Z)
    (m : EnhancedMemoryBank.t) :
  clock w ≠ 0 →
  let summary := summarizeContext now (updateSpatialContext w m) in
  let visible := getVisibleLandmarks w m in
  cs_visibleLandmarks summary = take 3 visible ∧
  (∀ a b, a ∈ cs_visibleLandmarks summary → b ∈ drop 3 visible → closer a b) ∧
  cs_nearbyBlocks summary = take 5 (getNearbyBlockTypes w 8) ∧
  contextAge summary =
    pretty (Math_floor (inject_Z (now - clock w) / 1000)) +:+ "s ago" ∧
  summarizeContext now EnhancedMemoryBank.new = no_context.
Proof.
  intros Hclock. cbv zeta. unfold summarizeContext, updateSpatialContext.
  cbn [lastUpdate spatialContext EnhancedMemoryBank.new].
  rewrite decide_False by done.
  cbn [cs_visibleLandmarks cs_nearbyBlocks contextAge from_option
         sc_visibleLandmarks sc_nearbyBlocks].
  split; [done|]. split; [|done].
  intros a b Ha Hb.
  apply (StronglySorted_app_1_elem_of closer
           (take 3 (getVisibleLandmarks w m)) (drop 3 (getVisibleLandmarks w m)));
    [|done|done].
  rewrite take_drop. unfold getVisibleLandmarks.
  apply StronglySorted_merge_sort; apply _.
Qed.

End WithBot.

Lemma summarizeContext_lists_the_nearest_landmarks_witness :
  let summary := summarizeContext 9000
                   (updateSpatialContext later five_landmarks) in
  let visible := getVisibleLandmarks later five_landmarks in
  cs_visibleLandmarks summary = take 3 visible ∧
  (∀ a b, a ∈ cs_visibleLandmarks summary → b ∈ drop 3 visible → closer a b) ∧
  cs_nearbyBlocks summary = take 5 (getNearbyBlockTypes later 8) ∧
  contextAge summary =
    pretty (Math_floor (inject_Z (9000 - clock later) / 1000)) +:+ "s ago" ∧
  summarizeContext 9000 EnhancedMemoryBank.new = no_context.
Proof.
  apply (summarizeContext_lists_the_nearest_landmarks
           later 9000 five_landmarks).
  vm_compute. discriminate.
Defined.

End MemoryQueriesProps.


(** ** Scanner: sightlines as lists, terrain *)

Module TerrainProps.
Import EnvironmentScanner TerrainScanner MemoryQueries MemorySpec SightSpec.

Section WithBot.
Context {W : Type} `{Bot W}.

(** The two lists that the loop of [analyzeSightlines] builds. *)
Lemma analyzeSightlines_lists (w : W) :
  let rays := (λ d : Z * Z, checkSightline w (entity_position w) d.1 d.2)
                <$> directions in
  clearPaths (analyzeSightlines w) = List.filter clear rays ∧
  obstacles (analyzeSightlines w) =
    obstacle <$> List.filter (λ r, negb (clear r)) rays.
Proof.
  cbv zeta. unfold analyzeSightlines. cbv zeta.
  set (check := λ d : Z * Z, checkSightline w (entity_position w) d.1 d.2).
  set (acc := {| clearPaths := []; obstacles := []; visibilityMap := ∅ |}).
  change (List.filter clear (check <$> directions))
    with (clearPaths acc ++ List.filter clear (check <$> directions)).
  change (obstacle <$> List.filter (λ r, negb (clear r)) (check <$> directions))
    with (obstacles acc ++
          (obstacle <$> List.filter (λ r, negb (clear r)) (check <$> directions))).
  generalize acc. generalize directions. clear acc.
  induction l as [|d ds IH]; intros acc.
  { cbn [fold_left]. csimpl. by rewrite !(right_id_L [] (++)). }
  cbn [fold_left]. fold (check d).
  destruct (IH (if clear (check d)
                then {| clearPaths := clearPaths acc ++ [check d];
                        obstacles := obstacles acc;
                        visibilityMap := <[direction_key d := check d]>
                                           (visibilityMap acc) |}
                else {| clearPaths := clearPaths acc;
                        obstacles := obstacles acc ++ [obstacle (check d)];
                        visibilityMap := <[direction_key d := check d]>
                                           (visibilityMap acc) |}))
    as [Hc Ho].
  rewrite Hc, Ho. csimpl.
  destruct (clear (check d)); csimpl; by rewrite <- ?(assoc_L (++)).
Qed.

Lemma filter_partition_length {A} (p : A → bool) (l : list A) :
  (length (List.filter p l) + length (List.filter (λ x, negb (p x)) l))%nat = length l.
Proof.
  induction l as [|a l IH]; [done|]. cbn [List.filter length].
  destruct (p a); cbn [negb length]; lia.
Qed.

Lemma checkSightline_outcome (w : W) start dx dz :
  let ray := checkSightline w start dx dz in
  direction ray = (dx, dz) ∧
  (if clear ray then distance ray = 16 ∧ obstacle ray = None
   else ∃ o, obstacle ray = Some o ∧ so_distance o = distance ray ∧
             so_position o = position (so_block o) ∧ 1 ≤ distance ray ≤ 16).
Proof.
  cbv zeta.
  destruct (ScannerProps.checkSightline_report w start dx dz)
    as [Hdir [(Hc & Hd & Ho & _)|(dist & block & Hc & Hd & Ho & Hrange & _)]];
    rewrite Hc; (split; [done|]); [done|].
  eexists. split; [done|]. cbn [so_distance so_position so_block]. by rewrite Hd.
Qed.

(** X16.  [analyzeSightlines] puts each of the eight rays into exactly
    one of its two lists: [clearPaths] holds the rays that are clear, in
    the order of the directions, and [obstacles] the obstacles of the
    others, so that the two lengths add up to 8.  A ray in [clearPaths]
    has distance 16 and no obstacle; no entry of [obstacles] is [null],
    and each is at a distance from 1 to 16. *)
Theorem analyzeSightlines_sorts_every_ray (w : W) :
  let rays := (λ d : Z * Z, checkSightline w (entity_position w) d.1 d.2)
                <$> directions in
  let sightlines := analyzeSightlines w in
  clearPaths sightlines = List.filter clear rays ∧
  obstacles sightlines = obstacle <$> List.filter (λ r, negb (clear r)) rays ∧
  (length (clearPaths sightlines) + length (obstacles sightlines) = 8)%nat ∧
  Forall (λ ray, distance ray = 16 ∧ obstacle ray = None) (clearPaths sightlines) ∧
  Forall (λ o, ∃ found, o = Some found ∧ 1 ≤ so_distance found ≤ 16)
    (obstacles sightlines).
Proof.
  cbv zeta. destruct (analyzeSightlines_lists w) as [-> ->].
  split; [done|]. split; [done|]. split; [|split].
  - by rewrite length_fmap, filter_partition_length, length_fmap.
  - apply Forall_forall. intros ray [Hin Hclear]%MemoryQueriesProps.elem_of_List_filter.
    apply list_elem_of_fmap in Hin as (d & -> & _).
    destruct (checkSightline_outcome w (entity_position w) d.1 d.2) as [_ Hout].
    by rewrite Hclear in Hout.
  - apply Forall_fmap, Forall_forall.
    intros ray [Hin Hclear]%MemoryQueriesProps.elem_of_List_filter.
    apply negb_true_iff in Hclear.
    apply list_elem_of_fmap in Hin as (d & -> & _).
    destruct (checkSightline_outcome w (entity_position w) d.1 d.2) as [_ Hout].
    rewrite Hclear in Hout. destruct Hout as (o & Ho & Hd & _ & Hrange).
    exists o. split; [done|]. by rewrite Hd.
Qed.

(** X17.  [analyzeClearPaths] on the sightlines of the scanner: every
    path it returns has [hasObstacles = false] and distance 16, and a
    direction is among the paths exactly when its ray is clear. *)
Theorem clear_paths_report_no_obstacles (w : W) :
  let paths := analyzeClearPaths (Some (analyzeSightlines w)) in
  Forall (λ path, hasObstacles path = false ∧ cp_distance path = 16) paths ∧
  (∀ d, d ∈ directions →
        d ∈ cp_direction <$> paths ↔
        clear (checkSightline w (entity_position w) d.1 d.2) = true) ∧
  (∀ d, d ∈ cp_direction <$> paths → d ∈ directions).
Proof.
  cbv zeta. unfold analyzeClearPaths.
  destruct (analyzeSightlines_lists w) as [-> _].
  assert (Hin : ∀ d, d ∈ cp_direction
                  <$> ((λ path, {| cp_direction := direction path;
                                   cp_distance := distance path;
                                   hasObstacles := negb (clear path) |})
                       <$> List.filter clear
                             ((λ d : Z * Z,
                                 checkSightline w (entity_position w) d.1 d.2)
                                <$> directions)) ↔
                d ∈ directions ∧
                clear (checkSightline w (entity_position w) d.1 d.2) = true).
  { intros d. rewrite <- list_fmap_compose, list_elem_of_fmap. split.
    - intros (ray & -> & [Hray Hclear]%MemoryQueriesProps.elem_of_List_filter).
      apply list_elem_of_fmap in Hray as (d' & -> & Hd').
      destruct (checkSightline_outcome w (entity_position w) d'.1 d'.2) as [Hdir _].
      cbn [compose cp_direction]. rewrite Hdir. by destruct d'.
    - intros [Hd Hclear]. exists (checkSightline w (entity_position w) d.1 d.2).
      destruct (checkSightline_outcome w (entity_position w) d.1 d.2) as [Hdir _].
      split; [cbn [compose cp_direction]; rewrite Hdir; by destruct d|].
      apply MemoryQueriesProps.elem_of_List_filter. split; [|done].
      apply list_elem_of_fmap. by exists d. }
  split; [|split].
  - apply Forall_fmap, Forall_forall.
    intros ray [Hray Hclear]%MemoryQueriesProps.elem_of_List_filter.
    apply list_elem_of_fmap in Hray as (d & -> & _).
    destruct (checkSightline_outcome w (entity_position w) d.1 d.2) as [_ Hout].
    rewrite Hclear in Hout. cbn [compose hasObstacles cp_distance].
    by rewrite Hclear, (proj1 Hout).
  - intros d Hd. rewrite Hin. tauto.
  - intros d Hd. by apply Hin in Hd as [? _].
Qed.


(** *** Surfaces *)

Lemma surface_test (w : W) x z y :
  match blockAt w (column x y z), blockAt w (column x (y - 1) z) with
  | Some block, Some blockBelow =>
      bool_decide (name block = "air") && bool_decide (name blockBelow ≠ "air")
  | _, _ => false
  end = true ↔ surface_at w x z y.
Proof.
  unfold surface_at.
  destruct (blockAt w (column x y z)) as [block|];
    [destruct (blockAt w (column x (y - 1) z)) as [below|]|].
  - rewrite andb_true_iff, !bool_decide_eq_true. split.
    + intros [Ha Hb]. by exists block, below.
    + intros (b1 & b2 & ? & ? & ? & ?). by simplify_eq.
  - split; [done|]. by intros (b1 & b2 & ? & ? & _).
  - split; [done|]. by intros (b1 & b2 & ? & _).
Qed.

Lemma surface_scan_spec (w : W) x z ys :
  match surface_scan w x z ys with
  | Some surfaceY =>
      ∃ i : nat, ys !! i = Some (surfaceY + 1) ∧ surface_at w x z (surfaceY + 1) ∧
                 ∀ (j : nat) y, (j < i)%nat → ys !! j = Some y → ¬ surface_at w x z y
  | None => ∀ y, y ∈ ys → ¬ surface_at w x z y
  end.
Proof.
  induction ys as [|y ys IH].
  { cbn [surface_scan]. by intros y ?%elem_of_nil. }
  cbn [surface_scan]. pose proof (surface_test w x z y) as Htest.
  destruct (blockAt w (column x y z)) as [block|];
    [destruct (blockAt w (column x (y - 1) z)) as [below|]|].
  - destruct (bool_decide (name block = "air") && bool_decide (name below ≠ "air")).
    + exists 0%nat. replace (y - 1 + 1) with y by lia.
      split; [done|]. split; [by apply Htest|]. intros; lia.
    + assert (Hno : ¬ surface_at w x z y) by (by rewrite <- Htest).
      clear Htest. destruct (surface_scan w x z ys) as [s|].
      * destruct IH as (i & Hi & Hs & Hbefore). exists (S i).
        split; [done|]. split; [done|].
        intros [|j] y' Hj Hy'; simplify_eq/=; [done|].
        apply (Hbefore j); [lia|done].
      * intros y' [->|Hy']%elem_of_cons; [done|by apply IH].
  - assert (Hno : ¬ surface_at w x z y) by (by rewrite <- Htest).
    clear Htest. destruct (surface_scan w x z ys) as [s|].
    + destruct IH as (i & Hi & Hs & Hbefore). exists (S i).
      split; [done|]. split; [done|].
      intros [|j] y' Hj Hy'; simplify_eq/=; [done|].
      apply (Hbefore j); [lia|done].
    + intros y' [->|Hy']%elem_of_cons; [done|by apply IH].
  - assert (Hno : ¬ surface_at w x z y) by (by rewrite <- Htest).
    clear Htest. destruct (surface_scan w x z ys) as [s|].
    + destruct IH as (i & Hi & Hs & Hbefore). exists (S i).
      split; [done|]. split; [done|].
      intros [|j] y' Hj Hy'; simplify_eq/=; [done|].
      apply (Hbefore j); [lia|done].
    + intros y' [->|Hy']%elem_of_cons; [done|by apply IH].
Qed.

Lemma heights_lookup startY (i : nat) y :
  heights startY !! i = Some y ↔ y = startY - Z.of_nat i ∧ (i < 21)%nat.
Proof.
  unfold heights. rewrite list_lookup_fmap, fmap_Some. split.
  - intros (k & [-> Hk]%lookup_seqZ & ->). unfold heightRange in Hk. lia.
  - intros [-> Hi]. exists (Z.of_nat i). split; [|lia].
    apply lookup_seqZ. unfold heightRange. lia.
Qed.

(** X18.  [findSurface] scans the column from [startY = floor(y) + 10]
    down to [startY - 20] and returns the height below the highest place
    where air lies on a block that is not air (both being loaded); it
    returns [null] when the range has no such place. *)
Theorem findSurface_is_the_highest_surface (w : W) (x z : Q) :
  let startY := Math_floor (Vec3.y (entity_position w)) + 10 in
  match findSurface w x z with
  | Some surfaceY =>
      startY - 21 ≤ surfaceY ≤ startY - 1 ∧
      surface_at w x z (surfaceY + 1) ∧
      ∀ y, surfaceY + 1 < y ≤ startY → ¬ surface_at w x z y
  | None => ∀ y, startY - 20 ≤ y ≤ startY → ¬ surface_at w x z y
  end.
Proof.
  cbv zeta. unfold findSurface. cbv zeta. change heightRange with 10.
  set (startY := Math_floor (Vec3.y (entity_position w)) + 10).
  pose proof (surface_scan_spec w x z (heights startY)) as Hscan.
  destruct (surface_scan w x z (heights startY)) as [s|].
  - destruct Hscan as (i & [Hi Hlt]%heights_lookup & Hs & Hbefore).
    split; [lia|]. split; [done|].
    intros y Hy. apply (Hbefore (Z.to_nat (startY - y))); [lia|].
    apply heights_lookup. lia.
  - intros y Hy. apply Hscan. apply list_elem_of_lookup.
    exists (Z.to_nat (startY - y)). apply heights_lookup. lia.
Qed.

(** *** The elevation grid *)

(** The cells of the grid, in the order of the two loops. *)
Lemma nested_loops {A E} (g : A → A → E → E) (xs zs : list A) (e : E) :
  fold_left (λ e x, fold_left (λ e z, g x z e) zs e) xs e =
  fold_left (λ e (c : A * A), g c.1 c.2 e) (x ← xs; (λ z, (x, z)) <$> zs) e.
Proof.
  revert e. induction xs as [|x xs IH]; intros e; [done|].
  cbn [fold_left]. rewrite IH. csimpl. rewrite fold_left_app. f_equal.
  generalize e. clear. induction zs as [|z zs IH]; intros e; [done|].
  csimpl. by rewrite IH.
Qed.

Lemma fold_cells {C V} (f : C → option V) (key : C → string) (cells : list C)
    (init : gmap string V) :
  NoDup (key <$> cells) →
  (∀ c, c ∈ cells → init !! key c = None) →
  let result :=
    fold_left (λ e c, match f c with
                      | Some v => <[key c := v]> e
                      | None => e
                      end) cells init in
  (∀ c, c ∈ cells → result !! key c = f c) ∧
  (∀ k, k ∉ key <$> cells → result !! k = init !! k).
Proof.
  cbv zeta. revert init. induction cells as [|c cells IH]; intros init Hnd Hinit.
  { split; [by intros c ?%elem_of_nil|done]. }
  rewrite fmap_cons in Hnd. apply NoDup_cons in Hnd as [Hfresh Hnd].
  cbn [fold_left].
  set (init' := match f c with Some v => <[key c := v]> init | None => init end).
  assert (Hc : init' !! key c = f c).
  { unfold init'. destruct (f c) as [v|]; [by rewrite lookup_insert_eq|].
    apply Hinit. by left. }
  assert (Hother : ∀ k, k ≠ key c → init' !! k = init !! k).
  { intros k Hk. unfold init'. destruct (f c); [by rewrite lookup_insert_ne|done]. }
  destruct (IH init' Hnd) as [Hcells Hrest].
  { intros c' Hc'. rewrite Hother; [apply Hinit; by right|].
    intros Heq. apply Hfresh. rewrite <- Heq. by apply list_elem_of_fmap_2. }
  split.
  - intros c' [->|Hc']%elem_of_cons; [|by apply Hcells].
    by rewrite Hrest.
  - intros k [Hk1 Hk2]%not_elem_of_cons. rewrite Hrest by done. by apply Hother.
Qed.

Lemma offset_keys_distinct :
  NoDup ((λ c : Z * Z, offset_key c.1 c.2) <$> (x ← offsets; (λ z, (x, z)) <$> offsets)).
Proof. apply (bool_decide_unpack _). by vm_compute. Qed.

(** X19.  [analyzeTerrain] samples [findSurface] on the grid of 17 by 17
    offsets -32, -28, ..., 32: under the key of an offset the elevation
    map holds the surface found there, and no entry when none is found;
    it has no other keys.  The lists of water bodies, clearings and
    obstacles are always empty. *)
Theorem analyzeTerrain_samples_the_grid (w : W) :
  let pos := entity_position w in
  let terrain := analyzeTerrain w in
  (∀ x z, x ∈ offsets → z ∈ offsets →
          elevation terrain !! offset_key x z =
          findSurface w (Vec3.x pos + inject_Z x) (Vec3.z pos + inject_Z z)) ∧
  (∀ key y, elevation terrain !! key = Some y →
            ∃ x z, x ∈ offsets ∧ z ∈ offsets ∧ key = offset_key x z) ∧
  length offsets = 17%nat ∧
  waterBodies terrain = [] ∧ clearings terrain = [] ∧ terrain_obstacles terrain = [].
Proof.
  cbv zeta. unfold analyzeTerrain. cbv zeta.
  cbn [elevation waterBodies clearings terrain_obstacles].
  rewrite (nested_loops
             (λ x z elevation,
                match findSurface w (Vec3.x (entity_position w) + inject_Z x)
                                    (Vec3.z (entity_position w) + inject_Z z) with
                | Some surfaceY => <[offset_key x z := surfaceY]> elevation
                | None => elevation
                end)).
  destruct (fold_cells
              (λ c : Z * Z,
                 findSurface w (Vec3.x (entity_position w) + inject_Z c.1)
                               (Vec3.z (entity_position w) + inject_Z c.2))
              (λ c : Z * Z, offset_key c.1 c.2)
              (x ← offsets; (λ z, (x, z)) <$> offsets) ∅
              offset_keys_distinct (λ _ _, lookup_empty _))
    as [Hcells Hrest].
  cbv zeta in Hcells, Hrest. split; [|split; [|done]].
  - intros x z Hx Hz. apply (Hcells (x, z)).
    apply list_elem_of_bind. exists x. split; [|done]. by apply list_elem_of_fmap_2.
  - intros key y Hkey.
    destruct (decide (key ∈ (λ c : Z * Z, offset_key c.1 c.2)
                        <$> (x ← offsets; (λ z, (x, z)) <$> offsets)))
      as [Hin|Hout].
    + apply list_elem_of_fmap in Hin as ([x z] & -> & Hin).
      apply list_elem_of_bind in Hin as (x' & Hin & Hx).
      apply list_elem_of_fmap in Hin as (z' & [= -> ->] & Hz).
      by exists x', z'.
    + rewrite Hrest in Hkey by done. by rewrite lookup_empty in Hkey.
Qed.

End WithBot.
End TerrainProps.

(** ** Navigator: runs, interrupts, samples, obstacles *)

Module NavigationRunProps.
Import EnhancedNavigation NavSpec NavScenario NavRunSpec NavigationProps.

Section Navigation.
Context {W : Type} `{Bot W}.

(** *** The errors of a run *)

Lemma visit_checkpoint_error options cp (s s' : St W) e :
  visit_checkpoint options cp s = (s', Throw e) → navigation_error e.
Proof.
  unfold visit_checkpoint. unfold bind at 1, get.
  destruct (interrupt_code (world s)).
  { unfold throw. intros ?; simplify_eq. by left. }
  unfold bind at 1, moveToCheckpoint, try_catch.
  destruct (pathfinder_goto _ s) as [s1 [[]|e1]].
  - cbv [bind verifyAndUpdateContext get throw modify_this ret].
    destruct (Qlt_le_dec _ _); intros ?; simplify_eq. by do 2 right.
  - unfold throw. intros ?; simplify_eq. right; left. by eexists.
Qed.

Lemma for_of_checkpoints_error options cps (s s' : St W) e :
  for_of cps (visit_checkpoint options) s = (s', Throw e) → navigation_error e.
Proof.
  revert s. induction cps as [|cp cps IH]; intros s; cbn [for_of]; [done|].
  unfold bind. destruct (visit_checkpoint options cp s) as [s1 [[]|e1]] eqn:Hvisit.
  - apply IH.
  - intros ?; simplify_eq. by eapply visit_checkpoint_error.
Qed.

(** X20.  Every execution of a path with waypoints appends exactly one
    entry to the path history.  When the call returns, it returns [true]
    and the entry is a success.  When it throws, the error is that the
    navigation was interrupted, that a checkpoint could not be reached or
    that the bot was off course; the entry is a failure with the message
    of the error, the route cache is as it was, and the last call of the
    console is [console.error('Path execution error:', error)] with the
    error that is thrown. *)
Theorem every_run_leaves_one_history_entry path sc options (s s' : St W) r :
  executePathWithContext path sc options s = (s', r) →
  waypoints path ≠ [] →
  match r with
  | Ok b =>
      b = true ∧
      history s' = history s ++
        [success_entry (start_position sc) (last (waypoints path))
           (clock (world s'))]
  | Throw e =>
      navigation_error e ∧
      history s' = history s ++
        [failure_entry (start_position sc) (last (waypoints path))
           (clock (world s')) (message e)] ∧
      cache s' = cache s ∧
      last (console (rt s')) = Some [Text "Path execution error:"; Thrown e]
  end.
Proof.
  intros Hexec Hws. unfold executePathWithContext in Hexec.
  case_decide; [done|].
  set (body := try_catch _ _) in Hexec.
  cbv [bind get modify_this setInterval finally clearInterval modify_rt] in Hexec.
  match type of Hexec with context [body ?s0] => set (s2 := s0) in Hexec end.
  destruct (body s2) as [s3 r3] eqn:Hbody. simplify_eq.
  subst body. unfold try_catch in Hbody. unfold bind at 1 in Hbody.
  destruct (for_of (checkpoints path) (visit_checkpoint options) s2)
    as [s4 r4] eqn:Hloop.
  pose proof (proj1 (for_of_checkpoints_frame options (checkpoints path)) s2) as Hh.
  pose proof (proj2 (proj2 (for_of_checkpoints_frame options (checkpoints path))) s2)
    as Hc.
  rewrite Hloop in Hh, Hc. simpl in Hh, Hc.
  destruct r4 as [[]|e].
  - destruct (last (waypoints path)) as [e|] eqn:Hlast;
      [|by apply last_None in Hlast].
    cbv [recordSuccessfulPath bind get modify_this ret] in Hbody.
    simplify_eq. unfold history in *. simpl in *. by rewrite Hh.
  - pose proof (for_of_checkpoints_error _ _ _ _ _ Hloop) as Herr.
    cbv [recordFailedPath console_log bind get modify_this modify_rt throw] in Hbody.
    simplify_eq. unfold history, cache in *. simpl in *.
    rewrite Hh, Hc. split_and!; [done..|]. apply last_snoc.
Qed.

(** *** Interrupts *)

Lemma checkpoints_from_head ws N w0 ws' :
  ws = w0 :: ws' → ∃ cps, checkpoints_from ws N 0 = w0 :: cps.
Proof.
  intros ->. pose proof (checkpoints_from_lookup (w0 :: ws') N 0 0) as Hl.
  cbn in Hl. destruct (checkpoints_from (w0 :: ws') N 0) as [|c cps]; [done|].
  simplify_eq/=. by exists cps.
Qed.

(** X21.  When the bot is interrupted by the time the route search
    returns, [moveToLocation] throws 'Navigation interrupted' and gives no
    goal to the pathfinder: the bot does not move.  The failure is
    recorded in the path history, the current path is cleared and the
    memory is as it was. *)
Theorem interrupted_navigation_does_not_move target options (s : St W) w1 ws :
  getPathTo (world s) (plan_movements options) (plan_goal target options) 100
    = (w1, Ok {| pf_status := "success"; pf_path := ws |}) →
  ws ≠ [] →
  interrupt_code w1 = true →
  let out := moveToLocation target options s in
  out.2 = Throw (Error "Navigation interrupted") ∧
  moves (rt out.1) = moves (rt s) ∧
  world out.1 = w1 ∧
  currentPath (this out.1) = None ∧
  pathHistory (this out.1) = pathHistory (this s) ++
    [failure_entry (getPosition (world s)) (last ws) (clock w1)
       "Navigation interrupted"] ∧
  memory (this out.1) = memory (this s).
Proof.
  intros Hget Hws Hint. cbv zeta.
  destruct (moveToLocation target options s) as [s' r] eqn:Hrun. cbn [fst snd].
  unfold moveToLocation in Hrun. unfold bind at 1, get in Hrun.
  unfold bind at 1 in Hrun.
  destruct (planPathWithContext_success target options s w1 ws Hget)
    as (obs & markers & Hplan).
  rewrite Hplan in Hrun.
  destruct ws as [|w0 ws']; [done|].
  destruct (checkpoints_from_head (w0 :: ws') (checkpointInterval options) w0 ws' eq_refl)
    as (cps & Hcps).
  rewrite Hcps in Hrun. unfold executePathWithContext in Hrun.
  rewrite decide_False in Hrun by done.
  cbn [waypoints checkpoints for_of] in Hrun.
  cbv [bind get modify_this setInterval finally clearInterval modify_rt
         try_catch visit_checkpoint with_world throw
         recordFailedPath console_log] in Hrun.
  cbn [world this rt] in Hrun. rewrite Hint in Hrun.
  simplify_eq. done.
Qed.

(** *** Where a successful run ends *)

Lemma visit_checkpoint_near options cp (s s' : St W) :
  visit_checkpoint options cp s = (s', Ok ()) →
  (calculateDistance (getPosition (world s')) cp <= 2)%Q.
Proof.
  unfold visit_checkpoint. unfold bind at 1, get.
  destruct (interrupt_code (world s)); [done|].
  unfold bind at 1.
  destruct (moveToCheckpoint cp options s) as [s1 [[]|e1]]; [|done].
  cbv [bind verifyAndUpdateContext get throw modify_this ret].
  destruct (Qlt_le_dec _ _) as [|Hle]; intros ?; simplify_eq. done.
Qed.

Lemma for_of_checkpoints_near options cps cp (s s' : St W) :
  for_of cps (visit_checkpoint options) s = (s', Ok ()) →
  last cps = Some cp →
  (calculateDistance (getPosition (world s')) cp <= 2)%Q.
Proof.
  revert s. induction cps as [|c cps IH]; intros s; [done|].
  cbn [for_of]. unfold bind.
  destruct (visit_checkpoint options c s) as [s1 [[]|e1]] eqn:Hvisit; [|done].
  destruct cps as [|c' cps'].
  - cbn [for_of last]. unfold ret. intros ? ?; simplify_eq.
    by eapply visit_checkpoint_near.
  - rewrite last_cons_cons. apply IH.
Qed.

(** X22.  When [moveToLocation] returns [true], the bot is at most 2 away
    from the last checkpoint of the plan (which need not be the last
    waypoint), and the current path is cleared. *)
Theorem success_means_near_the_last_checkpoint target options (s s' : St W) w1 ws cp :
  getPathTo (world s) (plan_movements options) (plan_goal target options) 100
    = (w1, Ok {| pf_status := "success"; pf_path := ws |}) →
  moveToLocation target options s = (s', Ok true) →
  last (checkpoints_from ws (checkpointInterval options) 0) = Some cp →
  (calculateDistance (getPosition (world s')) cp <= 2)%Q ∧
  currentPath (this s') = None.
Proof.
  intros Hget Hrun Hlast.
  unfold moveToLocation in Hrun. unfold bind at 1, get in Hrun.
  unfold bind at 1 in Hrun.
  destruct (planPathWithContext_success target options s w1 ws Hget)
    as (obs & markers & Hplan).
  rewrite Hplan in Hrun. unfold executePathWithContext in Hrun.
  case_decide; [done|].
  set (body := try_catch _ _) in Hrun.
  cbv [bind get modify_this setInterval finally clearInterval modify_rt] in Hrun.
  match type of Hrun with context [body ?s0] => set (s2 := s0) in Hrun end.
  destruct (body s2) as [s3 r3] eqn:Hbody. simplify_eq.
  subst body. unfold try_catch in Hbody. unfold bind at 1 in Hbody.
  cbn [checkpoints waypoints] in Hbody.
  destruct (for_of (checkpoints_from ws (checkpointInterval options) 0)
              (visit_checkpoint options) s2) as [s4 [[]|e]] eqn:Hloop.
  - pose proof (for_of_checkpoints_near _ _ _ _ _ Hloop Hlast) as Hnear.
    destruct (last ws) as [e|];
      cbv [recordSuccessfulPath bind get modify_this ret throw] in Hbody;
      simplify_eq.
    split; [exact Hnear|done].
  - cbv [recordFailedPath console_log bind get modify_this modify_rt throw] in Hbody.
    simplify_eq.
Qed.

(** *** Samples without progress *)

Lemma for_of_app {A} (l1 l2 : list A) (body : A → M W unit) (s : St W) :
  for_of (l1 ++ l2) body s =
  match for_of l1 body s with
  | (s', Ok _) => for_of l2 body s'
  | (s', Throw e) => (s', Throw e)
  end.
Proof.
  revert s. induction l1 as [|a l1 IH]; intros s; [done|].
  cbn [app for_of]. unfold bind. destruct (body a s) as [s1 [[]|e]]; [apply IH|done].
Qed.

Lemma calculatePathProgress_currentPath pos (n1 n2 : EnhancedNavigation.t) :
  currentPath n1 = currentPath n2 →
  calculatePathProgress pos n1 = calculatePathProgress pos n2.
Proof. unfold calculatePathProgress. by intros ->. Qed.

Lemma warned_S sd (n : nat) :
  warned sd (S n) =
  warned sd n ++
  if bool_decide (stuckThreshold sd ≤ stuckTime sd + 1000 * Z.of_nat (S n))
  then [Z.of_nat (S n)] else [].
Proof.
  unfold warned. rewrite seqZ_S, List.filter_app. cbn [List.filter].
  replace (1 + Z.of_nat n) with (Z.of_nat (S n)) by lia. by case_bool_decide.
Qed.

Lemma warned_default sd (n : nat) :
  stuckTime sd = 0 → stuckThreshold sd = 5000 →
  length (warned sd n) = (n - 4)%nat.
Proof.
  intros Ht Hth. induction n as [|n IH]; [done|].
  rewrite warned_S, length_app, IH, Ht, Hth.
  case_bool_decide; cbn [length]; lia.
Qed.

(** The state of the navigator after [n] samples without progress. *)
Lemma samples_invariant (s : St W) path lp (n : nat) :
  currentPath (this s) = Some path →
  lastPosition (this s) = Some lp →
  let progress := calculatePathProgress (getPosition (world s)) (this s) in
  (Qabs (progress - lastProgress (stuckDetection (this s))) < 1 # 100)%Q →
  ∃ s',
    samples n s = (s', Ok ()) ∧
    world s' = world s ∧
    currentPath (this s') = Some path ∧
    is_Some (lastPosition (this s')) ∧
    (Qabs (progress - lastProgress (stuckDetection (this s'))) < 1 # 100)%Q ∧
    stuckTime (stuckDetection (this s')) =
      stuckTime (stuckDetection (this s)) + 1000 * Z.of_nat n ∧
    stuckThreshold (stuckDetection (this s')) =
      stuckThreshold (stuckDetection (this s)) ∧
    console (rt s') =
      console (rt s) ++ ((λ _, stuck_warning) <$> warned (stuckDetection (this s)) n) ∧
    ((0 < n)%nat →
     lastProgress (stuckDetection (this s')) = progress ∧
     lastPosition (this s') = Some (getPosition (world s))) ∧
    pathHistory (this s') = pathHistory (this s) ∧
    memory (this s') = memory (this s) ∧
    intervals (rt s') = intervals (rt s) ∧
    moves (rt s') = moves (rt s).
Proof.
  intros Hpath Hlp progress Hnear. induction n as [|n IH].
  { exists s. split_and!; try done.
    - lia.
    - by rewrite app_nil_r.
    - lia. }
  destruct IH as (s1 & Hrun & Hw & Hp1 & [lp1 Hlp1] & Hnear1 & Htime & Hth & Hcon
                    & _ & Hhist & Hmem & Hint & Hmov).
  unfold samples in *. rewrite replicate_S_end, for_of_app, Hrun.
  cbn [for_of]. unfold bind at 1.
  unfold updateNavigationProgress. unfold bind at 1, get. rewrite Hp1, Hlp1.
  assert (Hprog : calculatePathProgress (getPosition (world s1)) (this s1) = progress).
  { rewrite Hw. apply calculatePathProgress_currentPath. congruence. }
  rewrite Hprog. unfold sample.
  destruct (Qlt_le_dec _ _) as [_|Hge];
    [|exfalso; by apply (Qlt_not_le _ _ Hnear1)].
  rewrite warned_S, fmap_app, Htime, Hth.
  replace (stuckTime (stuckDetection (this s)) + 1000 * Z.of_nat n + 1000)
    with (stuckTime (stuckDetection (this s)) + 1000 * Z.of_nat (S n)) by lia.
  assert (Hzero : (Qabs (progress - progress) < 1 # 100)%Q).
  { assert (Heq : (progress - progress == 0)%Q) by ring. by rewrite Heq. }
  case_bool_decide;
    cbv [bind modify_this handleStuckState console_log modify_rt ret];
    cbn [world this rt console stuckDetection set_stuckDetection set_lastPosition
           currentPath lastPosition lastProgress stuckTime stuckThreshold
           pathHistory memory intervals moves fmap list_fmap];
    eexists; (split; [reflexivity|]);
    cbn [world this rt console stuckDetection set_stuckDetection set_lastPosition
           currentPath lastPosition lastProgress stuckTime stuckThreshold
           pathHistory memory intervals moves];
    rewrite ?Hcon, ?app_nil_r, <- ?app_assoc, ?Hw;
    split_and!; try done; lia.
Qed.

(** X23.  Samples of the progress monitor without progress add up: after
    [n] samples in a row during a navigation in which the bot does not
    advance, the stuck time has grown by [1000 * n], and the console has
    one warning for each sample at which the stuck time had reached the
    threshold.  For a navigator that was just constructed these are the
    fifth sample and every later one.  The samples change neither the
    path history nor the goals given to the pathfinder. *)
Theorem samples_without_progress_accumulate (s : St W) path lp (n : nat) :
  currentPath (this s) = Some path →
  lastPosition (this s) = Some lp →
  (Qabs (calculatePathProgress (getPosition (world s)) (this s)
         - lastProgress (stuckDetection (this s))) < 1 # 100)%Q →
  let sd := stuckDetection (this s) in
  let s' := (samples n s).1 in
  stuckTime (stuckDetection (this s')) = stuckTime sd + 1000 * Z.of_nat n ∧
  console (rt s') = console (rt s) ++ ((λ _, stuck_warning) <$> warned sd n) ∧
  (∀ k, k ∈ warned sd n ↔
        1 ≤ k ≤ Z.of_nat n ∧ stuckThreshold sd ≤ stuckTime sd + 1000 * k) ∧
  (stuckTime sd = 0 → stuckThreshold sd = 5000 →
   length (warned sd n) = (n - 4)%nat) ∧
  pathHistory (this s') = pathHistory (this s) ∧
  moves (rt s') = moves (rt s).
Proof.
  intros Hpath Hlp Hnear. cbv zeta.
  destruct (samples_invariant s path lp n Hpath Hlp Hnear)
    as (s' & -> & _ & _ & _ & _ & Htime & _ & Hcon & _ & Hhist & _ & _ & Hmov).
  cbn [fst]. split_and!; try done.
  - intros k. unfold warned. rewrite list_elem_of_In, List.filter_In,
      <- list_elem_of_In, elem_of_seqZ, bool_decide_eq_true. lia.
  - apply warned_default.
Qed.

(** *** Obstacles of a route *)

Lemma includes_unfold s sub :
  includes s sub =
  String.prefix sub s ||
  match s with EmptyString => false | String _ s' => includes s' sub end.
Proof. by destruct s. Qed.

Lemma prefix_app sub post : String.prefix sub (sub +:+ post) = true.
Proof.
  induction sub as [|b sub IH]; [by destruct post|].
  simpl. by destruct (Ascii.ascii_dec b b).
Qed.

Lemma includes_infix pre sub post : includes (pre +:+ (sub +:+ post)) sub = true.
Proof.
  induction pre as [|a pre IH].
  - change (includes (sub +:+ post) sub = true).
    by rewrite includes_unfold, prefix_app.
  - change (includes (String a (pre +:+ (sub +:+ post))) sub = true).
    rewrite includes_unfold, IH. apply orb_true_r.
Qed.

Lemma identifyObstacles_from_spec (w : W) (i : nat) waypoints o :
  o ∈ identifyObstacles_from w i waypoints ↔
  ∃ (j : nat) block,
    po_index o = (i + j)%nat ∧
    waypoints !! S j = Some (po_position o) ∧
    blockAt w (po_position o) = Some block ∧
    name block = po_type o ∧
    includes (name block) "air" = false.
Proof.
  revert i. induction waypoints as [|current rest IH]; intros i.
  { cbn [identifyObstacles_from]. split; [by intros ?%elem_of_nil|].
    by intros (j & block & _ & ? & _). }
  cbn [identifyObstacles_from]. destruct rest as [|next rest'].
  { split; [by intros ?%elem_of_nil|]. by intros (j & block & _ & ? & _). }
  rewrite elem_of_app, IH. split.
  - intros [Hhere|(j & block & Hi & Hj & Hb & Hn & Hair)].
    + destruct (blockAt w next) as [block|] eqn:Hblock; [|by apply elem_of_nil in Hhere].
      destruct (includes (name block) "air") eqn:Hair;
        [by apply elem_of_nil in Hhere|].
      apply list_elem_of_singleton in Hhere as ->.
      exists 0%nat, block. cbn. split_and!; first [done|lia].
    + exists (S j), block. split_and!; first [done|lia].
  - intros ([|j] & block & Hi & Hj & Hb & Hn & Hair).
    + left. cbn in Hj. simplify_eq. rewrite Hb, Hair. cbn [negb].
      apply list_elem_of_singleton. destruct o. cbn in *. f_equal; [done|lia].
    + right. exists j, block. split_and!; first [done|lia].
Qed.

Lemma identifyObstacles_from_sorted (w : W) (i : nat) waypoints :
  StronglySorted (λ a b, (po_index a < po_index b)%nat)
    (identifyObstacles_from w i waypoints) ∧
  Forall (λ o, (i ≤ po_index o)%nat) (identifyObstacles_from w i waypoints).
Proof.
  revert i. induction waypoints as [|current rest IH]; intros i.
  { split; constructor. }
  cbn [identifyObstacles_from]. destruct rest as [|next rest'].
  { split; constructor. }
  destruct (IH (S i)) as [Hsorted Hlow].
  assert (Hlow' : Forall (λ o, (i < po_index o)%nat)
                    (identifyObstacles_from w (S i) (next :: rest'))).
  { eapply Forall_impl; [done|]. cbn. intros; lia. }
  destruct (blockAt w next) as [block|]; [destruct (negb _)|]; cbn [app].
  - split; constructor; [done|done|done|].
    eapply Forall_impl; [done|]. cbn. intros; lia.
  - split; [done|]. eapply Forall_impl; [done|]. cbn. intros; lia.
  - split; [done|]. eapply Forall_impl; [done|]. cbn. intros; lia.
Qed.

(** X24.  [identifyObstacles] reports an obstacle of index [i] exactly
    when the block at waypoint [i + 1] is loaded and its name does not
    contain 'air'; the first waypoint is never examined.  The obstacles
    come in the order of the route, and no reported type contains 'air'
    (so that stairs, for one, are never reported). *)
Theorem identifyObstacles_reports_the_blocks_ahead (w : W) (waypoints : list Vec3.t) :
  let found := identifyObstacles w waypoints in
  (∀ o, o ∈ found ↔
        ∃ block,
          waypoints !! S (po_index o) = Some (po_position o) ∧
          blockAt w (po_position o) = Some block ∧
          name block = po_type o ∧
          includes (name block) "air" = false) ∧
  StronglySorted (λ a b, (po_index a < po_index b)%nat) found ∧
  (∀ o pre post, o ∈ found → po_type o ≠ pre +:+ "air" +:+ post).
Proof.
  cbv zeta. unfold identifyObstacles.
  assert (Hspec : ∀ o, o ∈ identifyObstacles_from w 0 waypoints ↔
            ∃ block,
              waypoints !! S (po_index o) = Some (po_position o) ∧
              blockAt w (po_position o) = Some block ∧
              name block = po_type o ∧
              includes (name block) "air" = false).
  { intros o. rewrite identifyObstacles_from_spec. split.
    - intros (j & block & Hi & Hrest). exists block. by rewrite Hi.
    - intros (block & Hrest). by exists (po_index o), block. }
  split; [done|]. split; [apply identifyObstacles_from_sorted|].
  intros o pre post (block & _ & _ & Hname & Hair)%Hspec Heq.
  by rewrite Hname, Heq, includes_infix in Hair.
Qed.

End Navigation.

Lemma every_run_leaves_one_history_entry_witness :
  let exec := executePathWithContext plan_seven
                {| start_position := Demo.origin; start_landmarks := [] |}
                no_options (idle blocked) in
  match exec.2 with
  | Ok b =>
      b = true ∧
      history exec.1 = history (idle blocked) ++
        [success_entry Demo.origin (last (waypoints plan_seven))
           (clock (world exec.1))]
  | Throw e =>
      navigation_error e ∧
      history exec.1 = history (idle blocked) ++
        [failure_entry Demo.origin (last (waypoints plan_seven))
           (clock (world exec.1)) (message e)] ∧
      cache exec.1 = cache (idle blocked) ∧
      last (console (rt exec.1)) = Some [Text "Path execution error:"; Thrown e]
  end.
Proof.
  cbv zeta.
  apply (every_run_leaves_one_history_entry plan_seven
           {| start_position := Demo.origin; start_landmarks := [] |}
           no_options (idle blocked)).
  - apply surjective_pairing.
  - by vm_compute.
Defined.

Lemma interrupted_navigation_does_not_move_witness :
  let out := moveToLocation (TargetPoint (east 6)) no_options (idle interrupted) in
  out.2 = Throw (Error "Navigation interrupted") ∧
  moves (rt out.1) = moves (rt (idle interrupted)) ∧
  world out.1 = interrupted ∧
  currentPath (this out.1) = None ∧
  pathHistory (this out.1) = pathHistory (this (idle interrupted)) ++
    [failure_entry (getPosition (world (idle interrupted))) (last seven)
       (clock interrupted) "Navigation interrupted"] ∧
  memory (this out.1) = memory (this (idle interrupted)).
Proof.
  apply (interrupted_navigation_does_not_move (TargetPoint (east 6)) no_options
           (idle interrupted) interrupted seven).
  - reflexivity.
  - by vm_compute.
  - reflexivity.
Defined.

Lemma samples_without_progress_accumulate_witness :
  let sd := stuckDetection (this under_way) in
  let s' := (samples 6 under_way).1 in
  stuckTime (stuckDetection (this s')) = stuckTime sd + 1000 * Z.of_nat 6 ∧
  console (rt s') = console (rt under_way) ++ ((λ _, stuck_warning) <$> warned sd 6) ∧
  (∀ k, k ∈ warned sd 6 ↔
        1 ≤ k ≤ Z.of_nat 6 ∧ stuckThreshold sd ≤ stuckTime sd + 1000 * k) ∧
  (stuckTime sd = 0 → stuckThreshold sd = 5000 →
   length (warned sd 6) = (6 - 4)%nat) ∧
  pathHistory (this s') = pathHistory (this under_way) ∧
  moves (rt s') = moves (rt under_way).
Proof.
  apply (samples_without_progress_accumulate under_way plan_seven Demo.origin 6).
  - reflexivity.
  - reflexivity.
  - by vm_compute.
Defined.

Lemma success_means_near_the_last_checkpoint_witness :
  (calculateDistance (getPosition (world along_seven.1)) (east 5) <= 2)%Q ∧
  currentPath (this along_seven.1) = None.
Proof.
  apply (success_means_near_the_last_checkpoint (TargetPoint (east 6)) no_options
           (idle (Demo.world (found seven) 0)) along_seven.1
           (Demo.world (found seven) 0) seven (east 5)).
  - reflexivity.
  - by vm_compute.
  - by vm_compute.
Defined.

End NavigationRunProps.
